(** * File integrity monitor: a shallow embedding of [monitor.py]

    The development follows the layout of the source file:
    - Python values as the program sees them (dicts in insertion order,
      the values [json.load] can return);
    - the text written by [json.dump(db, f, indent=2, ensure_ascii=False)]
      and read back by [json.load];
    - [hash_file], [scan_directory], [load_hash_db], [save_hash_db],
      [send_email], [perform_check] and [main] as functions over an
      explicit environment and program state;
    - the properties of the check cycle;
    - the helpers of the dashboard, [app.py], which reads the log file the
      monitor writes, and what it makes of the lines of the monitor. *)

From Stdlib Require Import Bool Arith ZArith Lia List Ascii String.
From Stdlib Require Import Decimal DecimalString DecimalFacts DecimalPos DecimalN DecimalZ.
Import ListNotations.

Local Open Scope list_scope.
Local Open Scope string_scope.

(** ** Exceptions and results *)

(** The classes of the exceptions the calls of the program can raise, all of
    them subclasses of [Exception].  [KeyboardInterrupt], which is not one,
    reaches the program from outside and is an input of the watch loop. *)
Inductive exn_class : Type :=
| FileNotFoundError
| PermissionError
| OSError
| UnicodeDecodeError
| JSONDecodeError
| TypeError
| AttributeError
| RecursionError.

(** An exception with the text [str(e)] gives. *)
Record exn : Type := mk_exn { exn_cls : exn_class; exn_msg : string }.

Inductive res (A : Type) : Type :=
| Ok (a : A)
| Raise (e : exn).

Arguments Ok {A} a.
Arguments Raise {A} e.

(** ** Text *)

(** A [string] holds text as its sequence of bytes (UTF-8).  A few characters
    that cannot be written inside a literal are named here. *)
Definition dquote : ascii := "034"%char.
Definition backslash : ascii := "\"%char.
Definition newline : ascii := "010"%char.
Definition str1 (c : ascii) : string := String c EmptyString.

Lemma append_assoc (a b c : string) : (a ++ b) ++ c = a ++ (b ++ c).
Proof.
  induction a as [|x a IH]; simpl; [reflexivity | now rewrite IH].
Qed.

Lemma append_nil_r (a : string) : a ++ EmptyString = a.
Proof.
  induction a as [|x a IH]; simpl; [reflexivity | now rewrite IH].
Qed.

Lemma length_append (a b : string) :
  String.length (a ++ b) = String.length a + String.length b.
Proof.
  induction a as [|x a IH]; simpl; [reflexivity | now rewrite IH].
Qed.

(** [needle in hay] on Python strings. *)
Fixpoint str_contains (needle hay : string) : bool :=
  String.prefix needle hay
  || match hay with
     | EmptyString => false
     | String _ hay' => str_contains needle hay'
     end.

(** ** Python dicts

    A dict keeps its keys in insertion order and holds each key once:
    assigning to a key that is present replaces its value in place,
    assigning to a new key appends it. *)
Section Dict.
Variable V : Type.

Definition dict := list (string * V).

Fixpoint dict_get (k : string) (d : dict) : option V :=
  match d with
  | [] => None
  | (k', v) :: d' => if String.eqb k k' then Some v else dict_get k d'
  end.

Definition dict_mem (k : string) (d : dict) : bool :=
  match dict_get k d with Some _ => true | None => false end.

Fixpoint dict_set (k : string) (v : V) (d : dict) : dict :=
  match d with
  | [] => [(k, v)]
  | (k', v') :: d' =>
      if String.eqb k k' then (k', v) :: d' else (k', v') :: dict_set k v d'
  end.

(** [d.pop(k, None)] *)
Fixpoint dict_pop (k : string) (d : dict) : dict :=
  match d with
  | [] => []
  | (k', v') :: d' =>
      if String.eqb k k' then d' else (k', v') :: dict_pop k d'
  end.

Definition dict_keys (d : dict) : list string := map fst d.

(** [dict(pairs)] *)
Definition dict_of_pairs (l : list (string * V)) : dict :=
  fold_left (fun d kv => dict_set (fst kv) (snd kv) d) l [].

Lemma dict_mem_In k d : dict_mem k d = true <-> In k (dict_keys d).
Proof.
  unfold dict_mem. induction d as [|[k' v] d IH]; simpl.
  - split; [discriminate | tauto].
  - destruct (String.eqb_spec k k') as [->|Hne].
    + split; auto.
    + rewrite IH. split; [auto | intros [H|H]; [congruence | exact H]].
Qed.

Lemma dict_mem_false k d : dict_mem k d = false <-> ~ In k (dict_keys d).
Proof.
  rewrite <- dict_mem_In. destruct (dict_mem k d); split; congruence.
Qed.

Lemma dict_keys_set k v d :
  dict_keys (dict_set k v d) =
  if dict_mem k d then dict_keys d else (dict_keys d ++ [k])%list.
Proof.
  unfold dict_mem. induction d as [|[k' v'] d IH]; simpl; [reflexivity|].
  destruct (String.eqb k k'); simpl; [reflexivity|].
  rewrite IH. destruct (dict_get k d); reflexivity.
Qed.

Lemma dict_set_nodup k v d :
  NoDup (dict_keys d) -> NoDup (dict_keys (dict_set k v d)).
Proof.
  intros H. rewrite dict_keys_set.
  destruct (dict_mem k d) eqn:E; [exact H|].
  apply dict_mem_false in E.
  apply NoDup_app; [exact H | repeat constructor; simpl; tauto |].
  intros x Hx [<-|[]]. exact (E Hx).
Qed.

Lemma dict_get_set_same k v d : dict_get k (dict_set k v d) = Some v.
Proof.
  induction d as [|[k' v'] d IH]; simpl.
  - now rewrite String.eqb_refl.
  - destruct (String.eqb k k') eqn:E; simpl; rewrite E; [reflexivity | exact IH].
Qed.

Lemma dict_get_set_other k k' v d :
  k <> k' -> dict_get k (dict_set k' v d) = dict_get k d.
Proof.
  intros Hne. induction d as [|[k2 v2] d IH]; simpl.
  - apply String.eqb_neq in Hne. now rewrite Hne.
  - destruct (String.eqb_spec k' k2) as [->|Hne2]; simpl.
    + apply String.eqb_neq in Hne. now rewrite Hne.
    + now rewrite IH.
Qed.

Lemma dict_mem_set k k' v d :
  dict_mem k (dict_set k' v d) = String.eqb k k' || dict_mem k d.
Proof.
  unfold dict_mem. destruct (String.eqb_spec k k') as [->|Hne]; simpl.
  - now rewrite dict_get_set_same.
  - now rewrite dict_get_set_other.
Qed.

Lemma dict_get_pop_other k k' d :
  k <> k' -> dict_get k (dict_pop k' d) = dict_get k d.
Proof.
  intros Hne. induction d as [|[k2 v2] d IH]; simpl; [reflexivity|].
  destruct (String.eqb_spec k' k2) as [->|Hne2]; simpl.
  - apply String.eqb_neq in Hne. now rewrite Hne.
  - now rewrite IH.
Qed.

Lemma dict_set_fresh k v d :
  ~ In k (dict_keys d) -> dict_set k v d = (d ++ [(k, v)])%list.
Proof.
  induction d as [|[k' v'] d IH]; simpl; intros H; [reflexivity|].
  destruct (String.eqb_spec k k') as [->|Hne]; [tauto|].
  rewrite IH; tauto.
Qed.

Lemma dict_set_Forall (P : string * V -> Prop) k v d :
  (forall k', P (k', v)) -> Forall P d -> Forall P (dict_set k v d).
Proof.
  intros Hv. induction 1 as [|[k' v'] d Hx Hd IH]; simpl.
  - constructor; [apply Hv | constructor].
  - destruct (String.eqb k k'); constructor; auto.
Qed.



Lemma dict_set_same_value k v d :
  dict_get k d = Some v -> dict_set k v d = d.
Proof.
  induction d as [|[k' v'] d IH]; simpl; [discriminate|].
  destruct (String.eqb k k'); intros H.
  - now inversion H.
  - now rewrite IH.
Qed.

End Dict.

Arguments dict_get {V} k d.
Arguments dict_mem {V} k d.
Arguments dict_set {V} k v d.
Arguments dict_pop {V} k d.
Arguments dict_keys {V} d.
Arguments dict_of_pairs {V} l.

(** ** The text of [json.dump(db, f, indent=2, ensure_ascii=False)] *)

Definition hex_digit (n : N) : ascii :=
  match n with
  | 0 => "0" | 1 => "1" | 2 => "2" | 3 => "3" | 4 => "4" | 5 => "5"
  | 6 => "6" | 7 => "7" | 8 => "8" | 9 => "9" | 10 => "a" | 11 => "b"
  | 12 => "c" | 13 => "d" | 14 => "e" | _ => "f"
  end%N%char.

(** [ESCAPE_DCT]: the quote, the backslash and the control characters. *)
Definition escape_char (c : ascii) : string :=
  match N_of_ascii c with
  | 34 => String backslash (str1 dquote)
  | 92 => String backslash (str1 backslash)
  | 8 => String backslash "b"
  | 12 => String backslash "f"
  | 10 => String backslash "n"
  | 13 => String backslash "r"
  | 9 => String backslash "t"
  | n => if (n <? 32)%N
         then String backslash
                (String "u" (String "0" (String "0"
                   (String (hex_digit (n / 16)) (str1 (hex_digit (n mod 16)))))))
         else str1 c
  end%N.

Fixpoint escape (s : string) : string :=
  match s with
  | EmptyString => EmptyString
  | String c s' => escape_char c ++ escape s'
  end.

Definition encode_basestring (s : string) : string :=
  String dquote (escape s ++ str1 dquote).

(** [int.__repr__] *)
Definition intstr (z : Z) : string := NilEmpty.string_of_int (Z.to_int z).

Fixpoint spaces (n : nat) : string :=
  match n with
  | O => EmptyString
  | S n' => String " " (spaces n')
  end.

(** ['\n' + _indent * _current_indent_level] with [_indent = '  '] *)
Definition newline_indent (lvl : nat) : string :=
  String newline (spaces (2 * lvl)).

Definition item_separator (lvl : nat) : string := "," ++ newline_indent lvl.

(** ** The scanners of [json.load] *)

Inductive pres (A : Type) : Type :=
| POk (a : A) (rest : string)
| PErr
| PFuel.

Arguments POk {A} a rest.
Arguments PErr {A}.
Arguments PFuel {A}.

Definition is_ws (c : ascii) : bool :=
  match N_of_ascii c with
  | 32 | 9 | 10 | 13 => true
  | _ => false
  end%N.

Fixpoint skip_ws (s : string) : string :=
  match s with
  | EmptyString => EmptyString
  | String c r => if is_ws c then skip_ws r else s
  end.

Definition is_digit (c : ascii) : bool :=
  let n := N_of_ascii c in (48 <=? n)%N && (n <=? 57)%N.

Definition hex_val (c : ascii) : option N :=
  let n := N_of_ascii c in
  if (48 <=? n)%N && (n <=? 57)%N then Some (n - 48)%N
  else if (97 <=? n)%N && (n <=? 102)%N then Some (n - 87)%N
  else if (65 <=? n)%N && (n <=? 70)%N then Some (n - 55)%N
  else None.

Definition hex4 (a b c d : ascii) : option N :=
  match hex_val a, hex_val b, hex_val c, hex_val d with
  | Some x, Some y, Some z, Some w => Some (((x * 16 + y) * 16 + z) * 16 + w)%N
  | _, _, _, _ => None
  end.

Definition byte_chr (n : N) : ascii := ascii_of_N n.

(** The bytes of [chr(cp)].  A lone surrogate, which Python can hold in a
    [str], is carried in the three-byte form. *)
Definition utf8_encode (cp : N) : string :=
  if (cp <? 128)%N then str1 (byte_chr cp)
  else if (cp <? 2048)%N then
    String (byte_chr (192 + cp / 64)) (str1 (byte_chr (128 + cp mod 64)))
  else if (cp <? 65536)%N then
    String (byte_chr (224 + cp / 4096))
      (String (byte_chr (128 + (cp / 64) mod 64))
         (str1 (byte_chr (128 + cp mod 64))))
  else
    String (byte_chr (240 + cp / 262144))
      (String (byte_chr (128 + (cp / 4096) mod 64))
         (String (byte_chr (128 + (cp / 64) mod 64))
            (str1 (byte_chr (128 + cp mod 64))))).

(** [BACKSLASH]: the one-letter escapes. *)
Definition unescape (e : ascii) : option ascii :=
  match N_of_ascii e with
  | 34 => Some dquote
  | 92 => Some backslash
  | 47 => Some "/"%char
  | 98 => Some (ascii_of_N 8)
  | 102 => Some (ascii_of_N 12)
  | 110 => Some (ascii_of_N 10)
  | 114 => Some (ascii_of_N 13)
  | 116 => Some (ascii_of_N 9)
  | _ => None
  end%N.

Definition is_high_surrogate (u : N) : bool := (55296 <=? u)%N && (u <=? 56319)%N.
Definition is_low_surrogate (u : N) : bool := (56320 <=? u)%N && (u <=? 57343)%N.

Definition prepend (p : string) (o : option (string * string)) :=
  match o with
  | Some (s, rest) => Some (p ++ s, rest)
  | None => None
  end.

(** [scanstring], entered after the opening quote, in strict mode: returns
    the decoded string and the text after the closing quote. *)
Fixpoint scanstring (s : string) : option (string * string) :=
  match s with
  | EmptyString => None
  | String c r =>
      if Ascii.eqb c dquote then Some (EmptyString, r)
      else if Ascii.eqb c backslash then
        match r with
        | EmptyString => None
        | String e r1 =>
            if Ascii.eqb e "u" then
              match r1 with
              | String h1 (String h2 (String h3 (String h4 r2))) =>
                  match hex4 h1 h2 h3 h4 with
                  | None => None
                  | Some uni =>
                      if is_high_surrogate uni then
                        match r2 with
                        | String b (String u (String l1 (String l2 (String l3 (String l4 r3))))) =>
                            if Ascii.eqb b backslash && Ascii.eqb u "u" then
                              match hex4 l1 l2 l3 l4 with
                              | None => None
                              | Some uni2 =>
                                  if is_low_surrogate uni2
                                  then prepend
                                         (utf8_encode (65536 + (uni - 55296) * 1024
                                                       + (uni2 - 56320))%N)
                                         (scanstring r3)
                                  else prepend (utf8_encode uni) (scanstring r2)
                              end
                            else prepend (utf8_encode uni) (scanstring r2)
                        | _ => prepend (utf8_encode uni) (scanstring r2)
                        end
                      else prepend (utf8_encode uni) (scanstring r2)
                  end
              | _ => None
              end
            else
              match unescape e with
              | Some ch => prepend (str1 ch) (scanstring r1)
              | None => None
              end
        end
      else if (N_of_ascii c <? 32)%N then None
      else prepend (str1 c) (scanstring r)
  end.

Fixpoint span_digits (s : string) : string * string :=
  match s with
  | EmptyString => (EmptyString, EmptyString)
  | String c r =>
      if is_digit c
      then let (d, rest) := span_digits r in (String c d, rest)
      else (EmptyString, s)
  end.

(** [NUMBER_RE], group 1: an optional minus sign, then either a single
    zero or a digit other than zero followed by any digits *)
Definition match_integer (s : string) : option (string * string) :=
  let (sign, s1) :=
    match s with
    | String c r => if Ascii.eqb c "-" then ("-", r) else (EmptyString, s)
    | EmptyString => (EmptyString, s)
    end in
  match s1 with
  | EmptyString => None
  | String c r =>
      if Ascii.eqb c "0" then Some (sign ++ "0", r)
      else if is_digit c
           then let (d, rest) := span_digits r in Some (sign ++ String c d, rest)
           else None
  end.

(** group 2, optional: a dot and one digit or more *)
Definition match_frac (s : string) : string * string :=
  match s with
  | String c r =>
      if Ascii.eqb c "." then
        match span_digits r with
        | (EmptyString, _) => (EmptyString, s)
        | (d, rest) => (String c d, rest)
        end
      else (EmptyString, s)
  | EmptyString => (EmptyString, s)
  end.

(** group 3, optional: e or E, an optional sign, one digit or more *)
Definition match_exp (s : string) : string * string :=
  match s with
  | String c r =>
      if Ascii.eqb c "e" || Ascii.eqb c "E" then
        let (sg, r1) :=
          match r with
          | String c2 r' =>
              if Ascii.eqb c2 "-" || Ascii.eqb c2 "+" then (str1 c2, r')
              else (EmptyString, r)
          | EmptyString => (EmptyString, r)
          end in
        match span_digits r1 with
        | (EmptyString, _) => (EmptyString, s)
        | (d, rest) => (String c (sg ++ d), rest)
        end
      else (EmptyString, s)
  | EmptyString => (EmptyString, s)
  end.

(** [int(integer)] on a match of group 1 *)
Definition int_of_literal (i : string) : Z :=
  match NilEmpty.int_of_string i with
  | Some d => Z.of_int d
  | None => 0%Z
  end.

Definition is_empty (s : string) : bool :=
  match s with EmptyString => true | _ => false end.

(** [s[idx:idx+len(p)] == p]; the text after [p] when it holds *)
Fixpoint strip_prefix (p s : string) : option string :=
  match p with
  | EmptyString => Some s
  | String a p' =>
      match s with
      | EmptyString => None
      | String b s' => if Ascii.eqb a b then strip_prefix p' s' else None
      end
  end.

(** ** Reading back what the encoder wrote: strings *)

Lemma scanstring_escape (s rest : string) :
  scanstring (escape s ++ String dquote rest) = Some (s, rest).
Proof.
  induction s as [|c s IH].
  - reflexivity.
  - cbn [escape]. rewrite append_assoc.
    destruct c as [[] [] [] [] [] [] [] []];
      cbn; rewrite IH; reflexivity.
Qed.

(** ** Extending the text to the right of a number *)

(** The characters that could extend a number literal to its right. *)
Definition number_stop (rest : string) : bool :=
  match rest with
  | EmptyString => true
  | String c _ =>
      negb (is_digit c || Ascii.eqb c "." || Ascii.eqb c "e" || Ascii.eqb c "E"
            || Ascii.eqb c "+" || Ascii.eqb c "-")
  end.

Lemma number_stop_inv c r :
  number_stop (String c r) = true ->
  is_digit c = false /\ Ascii.eqb c "." = false /\ Ascii.eqb c "e" = false
  /\ Ascii.eqb c "E" = false /\ Ascii.eqb c "+" = false /\ Ascii.eqb c "-" = false.
Proof.
  cbn [number_stop]. rewrite negb_true_iff, !orb_false_iff. tauto.
Qed.

(** The text that follows does not start with a digit. *)
Definition digit_stop (rest : string) : bool :=
  match rest with
  | EmptyString => true
  | String c _ => negb (is_digit c)
  end.

Lemma number_stop_digit (rest : string) :
  number_stop rest = true -> digit_stop rest = true.
Proof.
  destruct rest as [|c r]; [reflexivity|]. intros H.
  apply number_stop_inv in H as (Hd & _). cbn [digit_stop]. now rewrite Hd.
Qed.

Lemma span_digits_app (a rest : string) :
  digit_stop rest = true ->
  span_digits (a ++ rest) = (fst (span_digits a), snd (span_digits a) ++ rest).
Proof.
  intros Hr. induction a as [|c a IH]; cbn [append span_digits].
  - destruct rest as [|c r]; [reflexivity|].
    cbn [digit_stop] in Hr. apply negb_true_iff in Hr.
    cbn [span_digits]. now rewrite Hr.
  - destruct (is_digit c); [|reflexivity].
    rewrite IH. now destruct (span_digits a).
Qed.

Lemma eqb_zero_digit c : Ascii.eqb c "0" = true -> is_digit c = true.
Proof. intros H. apply Ascii.eqb_eq in H. now subst. Qed.

Lemma match_integer_app (a rest i r : string) :
  digit_stop rest = true ->
  match_integer a = Some (i, r) ->
  match_integer (a ++ rest) = Some (i, r ++ rest).
Proof.
  intros Hr. unfold match_integer.
  assert (Hbody : forall sg a1,
    match a1 with
    | EmptyString => None
    | String c r0 =>
        if Ascii.eqb c "0" then Some (sg ++ "0", r0)
        else if is_digit c
             then let (d, rest0) := span_digits r0 in Some (sg ++ String c d, rest0)
             else None
    end = Some (i, r) ->
    match a1 ++ rest with
    | EmptyString => None
    | String c r0 =>
        if Ascii.eqb c "0" then Some (sg ++ "0", r0)
        else if is_digit c
             then let (d, rest0) := span_digits r0 in Some (sg ++ String c d, rest0)
             else None
    end = Some (i, r ++ rest)).
  { intros sg [|c a1]; [discriminate|]. cbn [append].
    destruct (Ascii.eqb c "0"); [now intros [= <- <-]|].
    destruct (is_digit c); [|discriminate].
    rewrite span_digits_app by exact Hr.
    destruct (span_digits a1) as [d r0]. now intros [= <- <-]. }
  destruct a as [|c a]; [discriminate|]. cbn [append].
  destruct (Ascii.eqb c "-").
  - apply Hbody.
  - apply (Hbody EmptyString (String c a)).
Qed.

Lemma match_frac_app (a rest : string) :
  number_stop rest = true ->
  match_frac (a ++ rest) = (fst (match_frac a), snd (match_frac a) ++ rest).
Proof.
  intros Hr. unfold match_frac. destruct a as [|c a]; cbn [append].
  - destruct rest as [|c r]; [reflexivity|].
    apply number_stop_inv in Hr as (_ & Hd & _). now rewrite Hd.
  - destruct (Ascii.eqb c "."); [|reflexivity].
    rewrite span_digits_app by (apply number_stop_digit; exact Hr).
    destruct (span_digits a) as [[|x d] r0]; reflexivity.
Qed.

Lemma match_exp_app (a rest : string) :
  number_stop rest = true ->
  match_exp (a ++ rest) = (fst (match_exp a), snd (match_exp a) ++ rest).
Proof.
  intros Hr. unfold match_exp. destruct a as [|c a]; cbn [append].
  - destruct rest as [|c r]; [reflexivity|].
    apply number_stop_inv in Hr as (_ & _ & He & HE & _). now rewrite He, HE.
  - destruct (Ascii.eqb c "e" || Ascii.eqb c "E"); [|reflexivity].
    destruct a as [|c2 a]; cbn [append].
    + destruct rest as [|c0 r]; [reflexivity|].
      pose proof (number_stop_inv _ _ Hr) as (Hd & _ & _ & _ & Hp & Hm).
      rewrite Hm, Hp. cbn [orb span_digits]. now rewrite Hd.
    + destruct (Ascii.eqb c2 "-" || Ascii.eqb c2 "+").
      * rewrite span_digits_app by (apply number_stop_digit; exact Hr).
        destruct (span_digits a) as [[|x d] r0]; reflexivity.
      * change (String c2 (a ++ rest)) with (String c2 a ++ rest).
        rewrite (span_digits_app (String c2 a)) by (apply number_stop_digit; exact Hr).
        destruct (span_digits (String c2 a)) as [[|x d] r0]; reflexivity.
Qed.

(** Each scanner cuts its input in two: what it matched and what follows. *)
Lemma span_digits_split (s : string) :
  fst (span_digits s) ++ snd (span_digits s) = s.
Proof.
  induction s as [|c s IH]; cbn [span_digits]; [reflexivity|].
  destruct (is_digit c); [|reflexivity].
  destruct (span_digits s) as [d r]. cbn [fst snd append] in *. now rewrite IH.
Qed.

Lemma match_integer_split (s i r : string) :
  match_integer s = Some (i, r) -> i ++ r = s.
Proof.
  unfold match_integer.
  assert (Hbody : forall sg s1,
    match s1 with
    | EmptyString => None
    | String c r0 =>
        if Ascii.eqb c "0" then Some (sg ++ "0", r0)
        else if is_digit c
             then let (d, rest0) := span_digits r0 in Some (sg ++ String c d, rest0)
             else None
    end = Some (i, r) -> i ++ r = sg ++ s1).
  { intros sg [|c s1]; [discriminate|].
    destruct (Ascii.eqb_spec c "0") as [->|_].
    - intros [= <- <-]. now rewrite append_assoc.
    - destruct (is_digit c); [|discriminate].
      pose proof (span_digits_split s1) as Hs.
      destruct (span_digits s1) as [d r0]. cbn [fst snd] in Hs.
      intros [= <- <-]. rewrite append_assoc. cbn [append]. now rewrite Hs. }
  destruct s as [|c s]; [discriminate|].
  destruct (Ascii.eqb_spec c "-") as [->|_]; intros H.
  - exact (Hbody _ _ H).
  - exact (Hbody EmptyString (String c s) H).
Qed.

Lemma match_frac_split (s : string) :
  fst (match_frac s) ++ snd (match_frac s) = s.
Proof.
  unfold match_frac. destruct s as [|c s]; [reflexivity|].
  destruct (Ascii.eqb c "."); [|reflexivity].
  pose proof (span_digits_split s) as Hs.
  destruct (span_digits s) as [[|x d] r]; cbn [fst snd append] in *;
    [reflexivity | now rewrite Hs].
Qed.

Lemma match_exp_split (s : string) :
  fst (match_exp s) ++ snd (match_exp s) = s.
Proof.
  unfold match_exp. destruct s as [|c s]; [reflexivity|].
  destruct (Ascii.eqb c "e" || Ascii.eqb c "E"); [|reflexivity].
  destruct s as [|c2 s].
  - reflexivity.
  - destruct (Ascii.eqb c2 "-" || Ascii.eqb c2 "+").
    + pose proof (span_digits_split s) as Hs.
      destruct (span_digits s) as [[|x d] r]; cbn [fst snd append str1] in *;
        [reflexivity | now rewrite Hs].
    + pose proof (span_digits_split (String c2 s)) as Hs.
      destruct (span_digits (String c2 s)) as [[|x d] r]; cbn [fst snd append] in *;
        [reflexivity | now rewrite Hs].
Qed.

(** ** Reading back what the encoder wrote: integers *)

Lemma span_digits_uint (d : uint) :
  span_digits (NilEmpty.string_of_uint d) = (NilEmpty.string_of_uint d, EmptyString).
Proof.
  induction d; cbn [NilEmpty.string_of_uint span_digits]; try reflexivity;
    rewrite IHd; reflexivity.
Qed.

Lemma nzhead_head (d d' : uint) : nzhead d <> D0 d'.
Proof.
  induction d; cbn [nzhead]; try discriminate. exact IHd.
Qed.

(** [Pos.to_uint] writes no leading zero. *)
Lemma to_uint_head (p : positive) :
  match Pos.to_uint p with
  | Nil | D0 _ => False
  | _ => True
  end.
Proof.
  pose proof (DecimalPos.Unsigned.to_of (Pos.to_uint p)) as H.
  rewrite DecimalPos.Unsigned.of_to in H. cbn [N.to_uint] in H.
  pose proof (DecimalPos.Unsigned.to_uint_nonzero p) as Hz.
  pose proof (DecimalPos.Unsigned.to_uint_nonnil p) as Hn.
  destruct (Pos.to_uint p) as [|u|u|u|u|u|u|u|u|u|u]; try exact I.
  - now apply Hn.
  - unfold unorm in H. cbn [nzhead] in H.
    destruct (nzhead u) eqn:E; try discriminate.
    + apply Hz. exact H.
    + exact (nzhead_head u _ E).
Qed.

Lemma match_integer_digits (d : uint) :
  match d with Nil | D0 _ => False | _ => True end ->
  match_integer (NilEmpty.string_of_uint d)
  = Some (NilEmpty.string_of_uint d, EmptyString)
  /\ match_integer (String "-" (NilEmpty.string_of_uint d))
    = Some (String "-" (NilEmpty.string_of_uint d), EmptyString).
Proof.
  destruct d; intros H; try contradiction;
    unfold match_integer; cbn [NilEmpty.string_of_uint];
    cbn -[span_digits append]; rewrite span_digits_uint; split; reflexivity.
Qed.

Lemma match_integer_intstr (z : Z) :
  match_integer (intstr z) = Some (intstr z, EmptyString).
Proof.
  unfold intstr. destruct z as [|p|p]; cbn [Z.to_int NilEmpty.string_of_int].
  - reflexivity.
  - apply match_integer_digits, to_uint_head.
  - apply match_integer_digits, to_uint_head.
Qed.

Lemma int_of_literal_intstr (z : Z) : int_of_literal (intstr z) = z.
Proof.
  unfold int_of_literal, intstr. rewrite NilEmpty.isi. apply DecimalZ.of_to.
Qed.

(** ** How an encoded value begins *)

Definition value_start (s : string) : bool :=
  match s with
  | EmptyString => false
  | String c _ => negb (is_ws c) && negb (Ascii.eqb c "]")
  end.

Definition number_head (s : string) : bool :=
  match s with
  | EmptyString => false
  | String c _ => is_digit c || Ascii.eqb c "-"
  end.

Lemma match_integer_head (s : string) (p : string * string) :
  match_integer s = Some p -> number_head s = true.
Proof.
  unfold match_integer. destruct s as [|c s]; [discriminate|]. cbn [number_head].
  destruct (Ascii.eqb c "-") eqn:E.
  - intros _. now rewrite orb_true_r.
  - destruct (Ascii.eqb c "0") eqn:E0.
    + intros _. now rewrite (eqb_zero_digit _ E0).
    + destruct (is_digit c); [reflexivity | discriminate].
Qed.

Lemma number_head_start (s : string) :
  number_head s = true -> value_start s = true.
Proof.
  destruct s as [|c s]; [discriminate|]. cbn [number_head value_start].
  destruct c as [[] [] [] [] [] [] [] []]; cbn; intros H;
    try discriminate H; reflexivity.
Qed.

Lemma number_head_app (s rest : string) :
  number_head s = true -> number_head (s ++ rest) = true.
Proof. destruct s; [discriminate | exact (fun H => H)]. Qed.

Lemma value_start_skip_ws (s : string) : value_start s = true -> skip_ws s = s.
Proof.
  destruct s as [|c s]; [discriminate|]. cbn [value_start skip_ws].
  destruct (is_ws c); [discriminate | reflexivity].
Qed.

Lemma skip_ws_spaces (n : nat) (t : string) : skip_ws (spaces n ++ t) = skip_ws t.
Proof. induction n as [|n IH]; [reflexivity | exact IH]. Qed.

Lemma skip_ws_newline_indent (lvl : nat) (t : string) :
  skip_ws (newline_indent lvl ++ t) = skip_ws t.
Proof. unfold newline_indent. cbn [append]. apply skip_ws_spaces. Qed.

Lemma number_stop_newline_indent (lvl : nat) (t : string) :
  number_stop (newline_indent lvl ++ t) = true.
Proof. reflexivity. Qed.

(** ** Every scanner consumes its input *)

Ltac break_in H :=
  repeat match type of H with
         | context [match ?x with _ => _ end] => destruct x eqn:?; try discriminate H
         end.

Lemma skip_ws_length (s : string) : String.length (skip_ws s) <= String.length s.
Proof.
  induction s as [|c s IH]; cbn [skip_ws String.length]; [lia|].
  destruct (is_ws c); cbn [String.length]; lia.
Qed.

Lemma scanstring_consumes_bounded (n : nat) :
  forall s str r,
    String.length s <= n ->
    scanstring s = Some (str, r) -> String.length r < String.length s.
Proof.
  induction n as [|n IH]; intros s str r Hn H.
  - destruct s; [discriminate | cbn [String.length] in Hn; lia].
  - destruct s as [|c s]; [discriminate|].
    cbn [scanstring] in H. unfold prepend in H.
    break_in H; injection H as <- <-; subst; cbn [String.length] in *;
      try lia;
      match goal with
      | Hs : scanstring ?x = Some (_, ?r) |- _ =>
          let Hle := fresh in
          let Hlt := fresh in
          assert (Hle : String.length x <= n) by (cbn [String.length]; lia);
          pose proof (IH _ _ _ Hle Hs) as Hlt;
          cbn [String.length] in Hlt; lia
      end.
Qed.

Lemma scanstring_consumes (s str r : string) :
  scanstring s = Some (str, r) -> String.length r < String.length s.
Proof. exact (scanstring_consumes_bounded (String.length s) s str r (le_n _)). Qed.

Lemma strip_prefix_length (p s r : string) :
  strip_prefix p s = Some r -> String.length s = String.length p + String.length r.
Proof.
  revert s. induction p as [|a p IH]; intros s H.
  - injection H as <-. reflexivity.
  - destruct s as [|b s]; [discriminate|]. cbn [strip_prefix] in H.
    destruct (Ascii.eqb a b); [|discriminate].
    cbn [String.length]. now rewrite (IH _ H).
Qed.

Lemma match_integer_consumes (s i r : string) :
  match_integer s = Some (i, r) -> String.length r < String.length s.
Proof.
  intros H. pose proof (match_integer_split _ _ _ H) as Hs.
  assert (Hi : 1 <= String.length i).
  { unfold match_integer in H. break_in H; injection H as <- _;
      subst; rewrite ?length_append; cbn [String.length]; lia. }
  rewrite <- Hs, length_append. lia.
Qed.

(** ** Floats

    The program stores [os.path.getmtime] results, which are binary64 floats,
    and [json] prints and reads them.  The finite floats are kept abstract:
    the interface gives [float.__repr__] and the conversion [float(s)] that
    [json.load] applies to a number literal with a fraction or an exponent. *)
Inductive pyfloat (F : Type) : Type :=
| FFinite (x : F)
| FInf
| FNegInf
| FNaN.

Arguments FFinite {F} x.
Arguments FInf {F}.
Arguments FNegInf {F}.
Arguments FNaN {F}.

Class PyFloat : Type := {
  float : Type;
  float_repr : float -> string;
  float_of_literal : string -> pyfloat float
}.

(** What Python promises of [repr] on a finite float: it is a number literal
    of JSON with a fraction or an exponent, which [NUMBER_RE] matches whole,
    and [float] reads it back as the same float. *)
Definition float_literal (s : string) : bool :=
  match match_integer s with
  | Some (_, r1) =>
      let (f, r2) := match_frac r1 in
      let (e, r3) := match_exp r2 in
      is_empty r3 && negb (is_empty f && is_empty e)
  | None => false
  end.

Class PyFloatLaws (PF : PyFloat) : Prop := {
  float_repr_literal : forall x : float, float_literal (float_repr x) = true;
  float_repr_round_trip : forall x : float, float_of_literal (float_repr x) = FFinite x
}.

(** ** The hash interface of [hashlib.new(algo)] *)
Class Hashlib : Type := {
  hash_state : Type;
  hash_new : hash_state;
  hash_update : hash_state -> list Byte.byte -> hash_state;
  hash_hexdigest : hash_state -> string
}.

Section Monitor.

Context {PF : PyFloat} {HL : Hashlib}.

(** ** Values

    The values [json.load] can return.  [JNull] is [None]. *)
#[warnings="-register-all"]
Inductive json : Type :=
| JNull
| JBool (b : bool)
| JInt (z : Z)
| JFloat (f : pyfloat float)
| JStr (s : string)
| JArr (l : list json)
| JObj (m : list (string * json)).

(** Induction over values, with the hypotheses for the nested lists. *)
Lemma json_induction (P : json -> Prop) :
  P JNull ->
  (forall b, P (JBool b)) ->
  (forall z, P (JInt z)) ->
  (forall f, P (JFloat f)) ->
  (forall s, P (JStr s)) ->
  (forall l, Forall P l -> P (JArr l)) ->
  (forall m, Forall (fun kv => P (snd kv)) m -> P (JObj m)) ->
  forall v, P v.
Proof.
  intros Hn Hb Hi Hf Hs Ha Ho.
  fix IH 1. intros [ | b | z | f | s | l | m ].
  - exact Hn.
  - apply Hb.
  - apply Hi.
  - apply Hf.
  - apply Hs.
  - apply Ha. induction l as [|x l IHl]; constructor; [apply IH | exact IHl].
  - apply Ho. induction m as [|[k x] m IHm]; constructor; [apply IH | exact IHm].
Qed.

(** A value is well formed when every dict in it holds each key once. *)
#[warnings="-register-all"]
Inductive wf : json -> Prop :=
| wf_null : wf JNull
| wf_bool b : wf (JBool b)
| wf_int z : wf (JInt z)
| wf_float f : wf (JFloat f)
| wf_str s : wf (JStr s)
| wf_arr l : Forall wf l -> wf (JArr l)
| wf_obj m : NoDup (dict_keys m) -> Forall (fun kv => wf (snd kv)) m -> wf (JObj m).

(** Truth value of a Python object. *)
Definition truthy (v : json) : bool :=
  match v with
  | JNull => false
  | JBool b => b
  | JInt z => negb (Z.eqb z 0)
  | JFloat _ => true
  | JStr s => negb (String.eqb s EmptyString)
  | JArr l => match l with [] => false | _ => true end
  | JObj m => match m with [] => false | _ => true end
  end.

(** ** [json.dump]: values *)

Definition floatstr (f : pyfloat float) : string :=
  match f with
  | FFinite x => float_repr x
  | FInf => "Infinity"
  | FNegInf => "-Infinity"
  | FNaN => "NaN"
  end.

Fixpoint iterencode (lvl : nat) (v : json) : string :=
  match v with
  | JNull => "null"
  | JBool true => "true"
  | JBool false => "false"
  | JInt z => intstr z
  | JFloat f => floatstr f
  | JStr s => encode_basestring s
  | JArr l =>
      match l with
      | [] => "[]"
      | _ => "[" ++ newline_indent (S lvl)
             ++ String.concat (item_separator (S lvl)) (map (iterencode (S lvl)) l)
             ++ newline_indent lvl ++ "]"
      end
  | JObj m =>
      match m with
      | [] => "{}"
      | _ => "{" ++ newline_indent (S lvl)
             ++ String.concat (item_separator (S lvl))
                  (map (fun kv => encode_basestring (fst kv) ++ ": "
                                  ++ iterencode (S lvl) (snd kv)) m)
             ++ newline_indent lvl ++ "}"
      end
  end.

Definition json_dumps (v : json) : string := iterencode 0 v.

(** ** [json.load]: values *)

(** A number: an [int] when the match has neither fraction nor exponent,
    a [float] otherwise. *)
Definition match_number (s : string) : option (json * string) :=
  match match_integer s with
  | None => None
  | Some (i, r1) =>
      let (f, r2) := match_frac r1 in
      let (e, r3) := match_exp r2 in
      if is_empty f && is_empty e
      then Some (JInt (int_of_literal i), r3)
      else Some (JFloat (float_of_literal (i ++ f ++ e)), r3)
  end.

(** What [scan_once] does when no string, object or array starts here. *)
Definition scan_atom (s : string) : pres json :=
  match strip_prefix "null" s with Some r => POk JNull r | None =>
  match strip_prefix "true" s with Some r => POk (JBool true) r | None =>
  match strip_prefix "false" s with Some r => POk (JBool false) r | None =>
  match match_number s with Some (v, r) => POk v r | None =>
  match strip_prefix "NaN" s with Some r => POk (JFloat FNaN) r | None =>
  match strip_prefix "Infinity" s with Some r => POk (JFloat FInf) r | None =>
  match strip_prefix "-Infinity" s with Some r => POk (JFloat FNegInf) r | None =>
  PErr
  end end end end end end end.

(** [scan_once], [JSONObject] and [JSONArray].  The recursion of the decoder
    is bounded by [fuel]; [json_loads] below gives it enough. *)
Fixpoint scan_once (fuel : nat) (s : string) : pres json :=
  match fuel with
  | O => PFuel
  | S fuel' =>
      match s with
      | EmptyString => PErr
      | String c r =>
          if Ascii.eqb c dquote then
            match scanstring r with
            | Some (str, rest) => POk (JStr str) rest
            | None => PErr
            end
          else if Ascii.eqb c "{" then
            match skip_ws r with
            | String c1 r1 =>
                if Ascii.eqb c1 "}" then POk (JObj []) r1
                else if Ascii.eqb c1 dquote then object_items fuel' r1 []
                else PErr
            | EmptyString => PErr
            end
          else if Ascii.eqb c "[" then
            match skip_ws r with
            | String c1 r1 =>
                if Ascii.eqb c1 "]" then POk (JArr []) r1
                else array_items fuel' (String c1 r1) []
            | EmptyString => PErr
            end
          else scan_atom s
      end
  end

(** the pairs of an object, entered after the opening quote of a key;
    [acc] is the dict built from the pairs read so far *)
with object_items (fuel : nat) (s : string) (acc : list (string * json)) : pres json :=
  match fuel with
  | O => PFuel
  | S fuel' =>
      match scanstring s with
      | None => PErr
      | Some (key, r) =>
          match skip_ws r with
          | String c r1 =>
              if Ascii.eqb c ":" then
                match scan_once fuel' (skip_ws r1) with
                | POk v r2 =>
                    let acc' := dict_set key v acc in
                    match skip_ws r2 with
                    | String c2 r3 =>
                        if Ascii.eqb c2 "}" then POk (JObj acc') r3
                        else if Ascii.eqb c2 "," then
                          match skip_ws r3 with
                          | String c3 r4 =>
                              if Ascii.eqb c3 dquote
                              then object_items fuel' r4 acc'
                              else PErr
                          | EmptyString => PErr
                          end
                        else PErr
                    | EmptyString => PErr
                    end
                | PErr => PErr
                | PFuel => PFuel
                end
              else PErr
          | EmptyString => PErr
          end
      end
  end

(** the items of an array; [acc] holds the items read so far, last first *)
with array_items (fuel : nat) (s : string) (acc : list json) : pres json :=
  match fuel with
  | O => PFuel
  | S fuel' =>
      match scan_once fuel' s with
      | POk v r =>
          match skip_ws r with
          | String c r1 =>
              if Ascii.eqb c "]" then POk (JArr (List.rev (v :: acc))) r1
              else if Ascii.eqb c "," then array_items fuel' (skip_ws r1) (v :: acc)
              else PErr
          | EmptyString => PErr
          end
      | PErr => PErr
      | PFuel => PFuel
      end
  end.

(** Fuel for a text: no run of the decoder on [s] needs more (see
    [scan_once_fuel] below). *)
Definition loads_fuel (s : string) : nat := S (2 * String.length s).

(** [json.loads]: one value, white space allowed around it, nothing else.
    [PErr] is [JSONDecodeError]. *)

Definition json_loads (s : string) : pres json :=
  let s0 := skip_ws s in
  match scan_once (loads_fuel s) s0 with
  | POk v rest => if is_empty (skip_ws rest) then POk v EmptyString else PErr
  | PErr => PErr
  | PFuel => PFuel
  end.

(** ** The decoder returns well-formed values *)

Ltac break_hyp H :=
  repeat match type of H with
         | context [match ?x with _ => _ end] => destruct x eqn:?; try discriminate H
         end.

Lemma match_number_wf (s : string) (v : json) (r : string) :
  match_number s = Some (v, r) -> wf v.
Proof.
  unfold match_number. intros H. break_hyp H; inversion H; subst; constructor.
Qed.

Lemma scan_atom_wf (s : string) (v : json) (r : string) :
  scan_atom s = POk v r -> wf v.
Proof.
  unfold scan_atom. intros H.
  destruct (strip_prefix "null" s); [inversion H; constructor|].
  destruct (strip_prefix "true" s); [inversion H; constructor|].
  destruct (strip_prefix "false" s); [inversion H; constructor|].
  destruct (match_number s) as [[x r0]|] eqn:Hn.
  { inversion H; subst. exact (match_number_wf _ _ _ Hn). }
  break_hyp H; inversion H; subst; constructor.
Qed.

Lemma decoder_wf (fuel : nat) :
  (forall s v r, scan_once fuel s = POk v r -> wf v)
  /\ (forall s acc v r,
        NoDup (dict_keys acc) -> Forall (fun kv => wf (snd kv)) acc ->
        object_items fuel s acc = POk v r -> wf v)
  /\ (forall s acc v r,
        Forall wf acc -> array_items fuel s acc = POk v r -> wf v).
Proof.
  induction fuel as [|fuel (IH1 & IH2 & IH3)]; repeat split;
    try (intros; discriminate).
  - intros s v r H. cbn [scan_once] in H.
    destruct s as [|c s]; [discriminate|].
    destruct (Ascii.eqb c dquote).
    { break_hyp H. inversion H; subst. constructor. }
    destruct (Ascii.eqb c "{").
    { break_hyp H.
      - inversion H; subst. constructor; constructor.
      - exact (IH2 _ [] _ _ (NoDup_nil _) (Forall_nil _) H). }
    destruct (Ascii.eqb c "[").
    { break_hyp H.
      - inversion H; subst. constructor. constructor.
      - exact (IH3 _ [] _ _ (Forall_nil _) H). }
    eapply scan_atom_wf; exact H.
  - intros s acc v r Hnd Hacc H. cbn [object_items] in H.
    destruct (scanstring s) as [[key r0]|]; [|discriminate].
    destruct (skip_ws r0) as [|c r1]; [discriminate|].
    destruct (Ascii.eqb c ":"); [|discriminate].
    destruct (scan_once fuel (skip_ws r1)) as [x r2| |] eqn:Hx; try discriminate.
    apply IH1 in Hx.
    assert (Hnd' : NoDup (dict_keys (dict_set key x acc)))
      by now apply dict_set_nodup.
    assert (Hacc' : Forall (fun kv => wf (snd kv)) (dict_set key x acc))
      by (apply dict_set_Forall; [intros; exact Hx | exact Hacc]).
    cbv zeta in H.
    destruct (skip_ws r2) as [|c2 r3]; [discriminate|].
    destruct (Ascii.eqb c2 "}").
    { inversion H; subst. now constructor. }
    destruct (Ascii.eqb c2 ","); [|discriminate].
    destruct (skip_ws r3) as [|c3 r4]; [discriminate|].
    destruct (Ascii.eqb c3 dquote); [|discriminate].
    eapply IH2; eassumption.
  - intros s acc v r Hacc H. cbn [array_items] in H.
    destruct (scan_once fuel s) as [x r0| |] eqn:Hx; try discriminate.
    apply IH1 in Hx.
    destruct (skip_ws r0) as [|c r1]; [discriminate|].
    destruct (Ascii.eqb c "]").
    { injection H as <- _. constructor. cbn [List.rev].
      apply Forall_app. split; [now apply Forall_rev | now repeat constructor]. }
    destruct (Ascii.eqb c ","); [|discriminate].
    eapply IH3; [|exact H]. now constructor.
Qed.

Lemma json_loads_wf (s : string) (v : json) (r : string) :
  json_loads s = POk v r -> wf v.
Proof.
  unfold json_loads. intros H.
  destruct (scan_once (loads_fuel s) (skip_ws s)) as [x r0| |] eqn:Hx;
    try discriminate.
  destruct (is_empty (skip_ws r0)); [|discriminate].
  inversion H; subst. exact (proj1 (decoder_wf _) _ _ _ Hx).
Qed.

(** ** The decoder has fuel enough *)

Lemma match_number_consumes (s : string) (v : json) (r : string) :
  match_number s = Some (v, r) -> String.length r < String.length s.
Proof.
  unfold match_number. intros H.
  destruct (match_integer s) as [[i r1]|] eqn:Hi; [|discriminate].
  apply match_integer_consumes in Hi.
  pose proof (match_frac_split r1) as Hf. pose proof (f_equal String.length Hf) as Hf'.
  destruct (match_frac r1) as [f r2]. cbn [fst snd] in Hf'.
  pose proof (match_exp_split r2) as He. pose proof (f_equal String.length He) as He'.
  destruct (match_exp r2) as [e r3]. cbn [fst snd] in He'.
  rewrite length_append in Hf', He'.
  destruct (is_empty f && is_empty e); injection H as _ <-; lia.
Qed.

Lemma scan_atom_consumes (s : string) (v : json) (r : string) :
  scan_atom s = POk v r -> String.length r < String.length s.
Proof.
  unfold scan_atom. intros H.
  destruct (strip_prefix "null" s) eqn:E1;
    [injection H as _ <-; apply strip_prefix_length in E1; cbn in E1; lia|].
  destruct (strip_prefix "true" s) eqn:E2;
    [injection H as _ <-; apply strip_prefix_length in E2; cbn in E2; lia|].
  destruct (strip_prefix "false" s) eqn:E3;
    [injection H as _ <-; apply strip_prefix_length in E3; cbn in E3; lia|].
  destruct (match_number s) as [[x r0]|] eqn:E4;
    [injection H as _ <-; exact (match_number_consumes _ _ _ E4)|].
  destruct (strip_prefix "NaN" s) eqn:E5;
    [injection H as _ <-; apply strip_prefix_length in E5; cbn in E5; lia|].
  destruct (strip_prefix "Infinity" s) eqn:E6;
    [injection H as _ <-; apply strip_prefix_length in E6; cbn in E6; lia|].
  destruct (strip_prefix "-Infinity" s) eqn:E7;
    [injection H as _ <-; apply strip_prefix_length in E7; cbn in E7; lia|].
  discriminate.
Qed.

Lemma scan_atom_fuel (s : string) : scan_atom s <> PFuel.
Proof.
  unfold scan_atom.
  repeat match goal with
         | |- context [match ?x with _ => _ end] => destruct x as [[]|] || destruct x
         end; discriminate.
Qed.

(** What the decoder returns starts after what it read. *)
Lemma decoder_consumes (fuel : nat) :
  (forall s v r, scan_once fuel s = POk v r -> String.length r < String.length s)
  /\ (forall s acc v r,
        object_items fuel s acc = POk v r -> String.length r < String.length s)
  /\ (forall s acc v r,
        array_items fuel s acc = POk v r -> String.length r < String.length s).
Proof.
  induction fuel as [|fuel (IH1 & IH2 & IH3)]; repeat split;
    try (intros; discriminate).
  - intros s v r H. cbn [scan_once] in H.
    destruct s as [|c s]; [discriminate|]. cbn [String.length].
    destruct (Ascii.eqb c dquote).
    { destruct (scanstring s) as [[str rest]|] eqn:Hs; [|discriminate].
      injection H as _ <-. apply scanstring_consumes in Hs. lia. }
    destruct (Ascii.eqb c "{").
    { pose proof (skip_ws_length s) as Hw.
      destruct (skip_ws s) as [|c1 r1]; [discriminate|]. cbn [String.length] in Hw.
      destruct (Ascii.eqb c1 "}"); [injection H as _ <-; lia|].
      destruct (Ascii.eqb c1 dquote); [|discriminate].
      apply IH2 in H. lia. }
    destruct (Ascii.eqb c "[").
    { pose proof (skip_ws_length s) as Hw.
      destruct (skip_ws s) as [|c1 r1]; [discriminate|]. cbn [String.length] in Hw.
      destruct (Ascii.eqb c1 "]"); [injection H as _ <-; lia|].
      apply IH3 in H. cbn [String.length] in H. lia. }
    apply scan_atom_consumes in H. cbn [String.length] in H. exact H.
  - intros s acc v r H. cbn [object_items] in H.
    destruct (scanstring s) as [[key r0]|] eqn:Hs; [|discriminate].
    apply scanstring_consumes in Hs.
    pose proof (skip_ws_length r0) as Hw0.
    destruct (skip_ws r0) as [|c r1]; [discriminate|]. cbn [String.length] in Hw0.
    destruct (Ascii.eqb c ":"); [|discriminate].
    pose proof (skip_ws_length r1) as Hw1.
    destruct (scan_once fuel (skip_ws r1)) as [x r2| |] eqn:Hx; try discriminate.
    apply IH1 in Hx. cbv zeta in H.
    pose proof (skip_ws_length r2) as Hw2.
    destruct (skip_ws r2) as [|c2 r3]; [discriminate|]. cbn [String.length] in Hw2.
    destruct (Ascii.eqb c2 "}"); [injection H as _ <-; lia|].
    destruct (Ascii.eqb c2 ","); [|discriminate].
    pose proof (skip_ws_length r3) as Hw3.
    destruct (skip_ws r3) as [|c3 r4]; [discriminate|]. cbn [String.length] in Hw3.
    destruct (Ascii.eqb c3 dquote); [|discriminate].
    apply IH2 in H. lia.
  - intros s acc v r H. cbn [array_items] in H.
    destruct (scan_once fuel s) as [x r0| |] eqn:Hx; try discriminate.
    apply IH1 in Hx.
    pose proof (skip_ws_length r0) as Hw0.
    destruct (skip_ws r0) as [|c r1]; [discriminate|]. cbn [String.length] in Hw0.
    destruct (Ascii.eqb c "]"); [injection H as _ <-; lia|].
    destruct (Ascii.eqb c ","); [|discriminate].
    pose proof (skip_ws_length r1) as Hw1.
    apply IH3 in H. lia.
Qed.

(** With twice the length of the text as fuel, the decoder never stops for
    want of fuel. *)
Lemma scan_once_fuel (fuel : nat) :
  (forall s, 2 * String.length s < fuel -> scan_once fuel s <> PFuel)
  /\ (forall s acc, 2 * String.length s < fuel -> object_items fuel s acc <> PFuel)
  /\ (forall s acc, 2 * String.length s + 1 < fuel -> array_items fuel s acc <> PFuel).
Proof.
  induction fuel as [|fuel (IH1 & IH2 & IH3)]; repeat split; try (intros; lia).
  - intros s Hf. cbn [scan_once].
    destruct s as [|c s]; [discriminate|]. cbn [String.length] in Hf.
    destruct (Ascii.eqb c dquote).
    { destruct (scanstring s) as [[str rest]|]; discriminate. }
    destruct (Ascii.eqb c "{").
    { pose proof (skip_ws_length s) as Hw.
      destruct (skip_ws s) as [|c1 r1]; [discriminate|]. cbn [String.length] in Hw.
      destruct (Ascii.eqb c1 "}"); [discriminate|].
      destruct (Ascii.eqb c1 dquote); [|discriminate].
      apply IH2. lia. }
    destruct (Ascii.eqb c "[").
    { pose proof (skip_ws_length s) as Hw.
      destruct (skip_ws s) as [|c1 r1]; [discriminate|]. cbn [String.length] in Hw.
      destruct (Ascii.eqb c1 "]"); [discriminate|].
      apply IH3. cbn [String.length]. lia. }
    apply scan_atom_fuel.
  - intros s acc Hf. cbn [object_items].
    destruct (scanstring s) as [[key r0]|] eqn:Hs; [|discriminate].
    apply scanstring_consumes in Hs.
    pose proof (skip_ws_length r0) as Hw0.
    destruct (skip_ws r0) as [|c r1]; [discriminate|]. cbn [String.length] in Hw0.
    destruct (Ascii.eqb c ":"); [|discriminate].
    pose proof (skip_ws_length r1) as Hw1.
    pose proof (IH1 (skip_ws r1) ltac:(lia)) as Hnf.
    destruct (scan_once fuel (skip_ws r1)) as [x r2| |] eqn:Hx;
      [|discriminate|contradiction].
    apply (proj1 (decoder_consumes fuel)) in Hx. cbv zeta.
    pose proof (skip_ws_length r2) as Hw2.
    destruct (skip_ws r2) as [|c2 r3]; [discriminate|]. cbn [String.length] in Hw2.
    destruct (Ascii.eqb c2 "}"); [discriminate|].
    destruct (Ascii.eqb c2 ","); [|discriminate].
    pose proof (skip_ws_length r3) as Hw3.
    destruct (skip_ws r3) as [|c3 r4]; [discriminate|]. cbn [String.length] in Hw3.
    destruct (Ascii.eqb c3 dquote); [|discriminate].
    apply IH2. lia.
  - intros s acc Hf. cbn [array_items].
    pose proof (IH1 s ltac:(lia)) as Hnf.
    destruct (scan_once fuel s) as [x r0| |] eqn:Hx; [|discriminate|contradiction].
    apply (proj1 (decoder_consumes fuel)) in Hx.
    pose proof (skip_ws_length r0) as Hw0.
    destruct (skip_ws r0) as [|c r1]; [discriminate|]. cbn [String.length] in Hw0.
    destruct (Ascii.eqb c "]"); [discriminate|].
    destruct (Ascii.eqb c ","); [|discriminate].
    pose proof (skip_ws_length r1) as Hw1.
    apply IH3. lia.
Qed.

(** [json_loads] returns a value or fails to decode. *)
Lemma json_loads_total (s : string) : json_loads s <> PFuel.
Proof.
  unfold json_loads.
  pose proof (proj1 (scan_once_fuel (loads_fuel s)) (skip_ws s)) as H.
  pose proof (skip_ws_length s) as Hw.
  destruct (scan_once (loads_fuel s) (skip_ws s)) as [v r| |].
  - destruct (is_empty (skip_ws r)); discriminate.
  - discriminate.
  - exfalso. apply H; [unfold loads_fuel; lia | reflexivity].
Qed.

(** ** Reading back what the encoder wrote *)

Lemma scan_once_string (s rest : string) (fuel : nat) :
  scan_once (S fuel) (encode_basestring s ++ rest) = POk (JStr s) rest.
Proof.
  unfold encode_basestring. cbn [append scan_once].
  rewrite append_assoc. cbn [str1 append].
  replace (Ascii.eqb dquote dquote) with true by reflexivity.
  now rewrite scanstring_escape.
Qed.

Lemma match_number_app (a rest : string) (v : json) (r : string) :
  number_stop rest = true ->
  match_number a = Some (v, r) ->
  match_number (a ++ rest) = Some (v, r ++ rest).
Proof.
  intros Hr. unfold match_number.
  destruct (match_integer a) as [[i r1]|] eqn:Hi; [|discriminate].
  rewrite (match_integer_app _ _ _ _ (number_stop_digit _ Hr) Hi).
  rewrite match_frac_app by exact Hr.
  destruct (match_frac r1) as [f r2]. cbn [fst snd].
  rewrite match_exp_app by exact Hr.
  destruct (match_exp r2) as [e r3]. cbn [fst snd].
  destruct (is_empty f && is_empty e); now intros [= <- <-].
Qed.

Lemma match_number_intstr (z : Z) (rest : string) :
  number_stop rest = true ->
  match_number (intstr z ++ rest) = Some (JInt z, rest).
Proof.
  intros Hr.
  apply (match_number_app (intstr z) rest (JInt z) EmptyString Hr).
  unfold match_number. rewrite match_integer_intstr. cbn.
  now rewrite int_of_literal_intstr.
Qed.

Section FloatLaws.

Context {PFL : PyFloatLaws PF}.

Lemma match_number_float (x : float) (rest : string) :
  number_stop rest = true ->
  match_number (float_repr x ++ rest) = Some (JFloat (FFinite x), rest).
Proof.
  intros Hr.
  apply (match_number_app (float_repr x) rest (JFloat (FFinite x)) EmptyString Hr).
  pose proof (float_repr_literal x) as Hl. unfold float_literal in Hl.
  unfold match_number.
  destruct (match_integer (float_repr x)) as [[i r1]|] eqn:Hi; [|discriminate].
  destruct (match_frac r1) as [f r2] eqn:Hf.
  destruct (match_exp r2) as [e r3] eqn:He.
  apply andb_true_iff in Hl as [Hr3 Hfe].
  destruct r3; [|discriminate].
  apply negb_true_iff in Hfe. rewrite Hfe.
  assert (Hwhole : i ++ f ++ e = float_repr x).
  { rewrite <- (match_integer_split _ _ _ Hi).
    pose proof (match_frac_split r1) as H1. rewrite Hf in H1.
    pose proof (match_exp_split r2) as H2. rewrite He in H2.
    cbn [fst snd] in H1, H2. rewrite append_nil_r in H2. now subst. }
  now rewrite Hwhole, float_repr_round_trip.
Qed.

Lemma scan_once_number (fuel : nat) (s : string) (v : json) (r : string) :
  match_number s = Some (v, r) -> scan_once (S fuel) s = POk v r.
Proof.
  intros H.
  assert (Hh : number_head s = true).
  { unfold match_number in H.
    destruct (match_integer s) as [p|] eqn:E; [|discriminate].
    exact (match_integer_head _ _ E). }
  destruct s as [|c s]; [discriminate|]. cbn [number_head] in Hh.
  cbn [scan_once].
  destruct c as [[] [] [] [] [] [] [] []]; try discriminate Hh;
    unfold scan_atom; cbn -[match_number]; rewrite H; reflexivity.
Qed.

Lemma iterencode_start_basic (lvl : nat) (v : json) (rest : string) :
  match v with JInt _ | JFloat (FFinite _) => False | _ => True end ->
  value_start (iterencode lvl v ++ rest) = true.
Proof.
  destruct v as [ | [] | z | [x| | | ] | s | [|y l] | [|kv m] ];
    intros H; try contradiction; reflexivity.
Qed.

Lemma iterencode_start_int (lvl : nat) (z : Z) (rest : string) :
  value_start (iterencode lvl (JInt z) ++ rest) = true.
Proof.
  apply number_head_start, number_head_app.
  exact (match_integer_head _ _ (match_integer_intstr z)).
Qed.

Lemma iterencode_start (lvl : nat) (v : json) (rest : string) :
  value_start (iterencode lvl v ++ rest) = true.
Proof.
  destruct v as [ | b | z | [x| | | ] | s | l | m ];
    try (apply iterencode_start_basic; exact I).
  - apply iterencode_start_int.
  - cbn [iterencode floatstr]. apply number_head_start, number_head_app.
    pose proof (float_repr_literal x) as Hl. unfold float_literal in Hl.
    destruct (match_integer (float_repr x)) as [p|] eqn:E; [|discriminate].
    exact (match_integer_head _ _ E).
Qed.

(** [v], written at any depth and followed by any text that does not extend
    a number, is read back as [v], the decoder stopping where [v] ends. *)
Definition reads_back (v : json) : Prop :=
  forall lvl rest fuel,
    number_stop rest = true ->
    2 * String.length (iterencode lvl v ++ rest) < fuel ->
    scan_once fuel (iterencode lvl v ++ rest) = POk v rest.

Lemma concat_cons2 (sep a b : string) (l : list string) :
  String.concat sep (a :: b :: l) = a ++ sep ++ String.concat sep (b :: l).
Proof. reflexivity. Qed.

Lemma array_items_more (fuel : nat) (s t : string) (v : json) (acc : list json) :
  scan_once fuel s = POk v (String "," t) ->
  array_items (S fuel) s acc = array_items fuel (skip_ws t) (v :: acc).
Proof. intros H. cbn [array_items]. rewrite H. reflexivity. Qed.

Lemma array_items_last (fuel lvl : nat) (s t : string) (v : json) (acc : list json) :
  scan_once fuel s = POk v (newline_indent lvl ++ String "]" t) ->
  array_items (S fuel) s acc = POk (JArr (List.rev (v :: acc))) t.
Proof.
  intros H. cbn [array_items]. rewrite H, skip_ws_newline_indent. reflexivity.
Qed.

Lemma array_items_encode (lvl : nat) (l : list json) :
  Forall reads_back l ->
  forall x acc rest fuel,
    reads_back x ->
    2 * String.length
          (String.concat (item_separator (S lvl)) (map (iterencode (S lvl)) (x :: l))
           ++ newline_indent lvl ++ String "]" rest) + 1 < fuel ->
    array_items fuel
      (String.concat (item_separator (S lvl)) (map (iterencode (S lvl)) (x :: l))
       ++ newline_indent lvl ++ String "]" rest) acc
    = POk (JArr (List.rev acc ++ x :: l)) rest.
Proof.
  induction 1 as [|y l Hy HF IH]; intros x acc rest fuel Hx Hfuel.
  - cbn [map String.concat] in *.
    destruct fuel as [|fuel]; [lia|].
    rewrite (array_items_last fuel lvl _ rest x).
    + reflexivity.
    + apply Hx; [reflexivity | lia].
  - change (map (iterencode (S lvl)) (x :: y :: l))
      with (iterencode (S lvl) x :: iterencode (S lvl) y :: map (iterencode (S lvl)) l) in *.
    rewrite concat_cons2 in *.
    change (iterencode (S lvl) y :: map (iterencode (S lvl)) l)
      with (map (iterencode (S lvl)) (y :: l)) in *.
    rewrite !append_assoc in *.
    unfold item_separator at 1 in Hfuel. unfold item_separator at 1.
    rewrite !append_assoc in *.
    change ("," ++ ?t) with (String "," t) in *.
    destruct fuel as [|fuel]; [lia|].
    rewrite length_append in Hfuel. cbn [String.length] in Hfuel.
    rewrite length_append in Hfuel.
    erewrite array_items_more.
    2:{ apply Hx; [reflexivity|].
        rewrite length_append. cbn [String.length]. rewrite length_append. lia. }
    rewrite skip_ws_newline_indent, value_start_skip_ws.
    2:{ destruct l; cbn [map String.concat]; [|rewrite append_assoc];
        apply iterencode_start. }
    rewrite IH; [| exact Hy | lia].
    cbn [List.rev]. now rewrite <- app_assoc.
Qed.

(** The text of the pairs of an object after its first pair. *)
Fixpoint items_text (lvl : nat) (m : list (string * json)) (close : string) : string :=
  match m with
  | [] => close
  | (k, x) :: m' =>
      String "," (newline_indent (S lvl)
                  ++ encode_basestring k ++ ": " ++ iterencode (S lvl) x
                  ++ items_text lvl m' close)
  end.

Lemma concat_items_text (lvl : nat) (m : list (string * json)) (close : string) :
  forall k x,
    String.concat (item_separator (S lvl))
      (map (fun kv => encode_basestring (fst kv) ++ ": " ++ iterencode (S lvl) (snd kv))
           ((k, x) :: m)) ++ close
    = encode_basestring k ++ ": " ++ iterencode (S lvl) x ++ items_text lvl m close.
Proof.
  induction m as [|[k' x'] m IH]; intros k x.
  - cbn [map String.concat fst snd items_text]. now rewrite !append_assoc.
  - specialize (IH k' x').
    set (f := fun kv : string * json =>
                encode_basestring (fst kv) ++ ": " ++ iterencode (S lvl) (snd kv)) in *.
    change (map f ((k, x) :: (k', x') :: m))
      with (f (k, x) :: f (k', x') :: map f m).
    rewrite concat_cons2.
    change (f (k', x') :: map f m) with (map f ((k', x') :: m)).
    rewrite !append_assoc, IH.
    subst f. cbn [fst snd items_text]. unfold item_separator.
    rewrite !append_assoc. reflexivity.
Qed.

Lemma object_items_more (fuel : nat) (k s t t' : string) (v : json)
      (acc : list (string * json)) :
  value_start s = true ->
  scan_once fuel s = POk v (String "," t) ->
  skip_ws t = String dquote t' ->
  object_items (S fuel) (escape k ++ String dquote (String ":" (String " " s))) acc
  = object_items fuel t' (dict_set k v acc).
Proof.
  intros Hs H Ht. cbn [object_items]. rewrite scanstring_escape.
  cbn [skip_ws is_ws N_of_ascii]. cbn -[scan_once object_items skip_ws].
  cbn [skip_ws]. cbn -[scan_once object_items skip_ws].
  rewrite (value_start_skip_ws _ Hs), H.
  change (skip_ws (String "," t)) with (String "," t).
  cbn -[scan_once object_items skip_ws]. rewrite Ht. reflexivity.
Qed.

Lemma object_items_last (fuel lvl : nat) (k s t : string) (v : json)
      (acc : list (string * json)) :
  value_start s = true ->
  scan_once fuel s = POk v (newline_indent lvl ++ String "}" t) ->
  object_items (S fuel) (escape k ++ String dquote (String ":" (String " " s))) acc
  = POk (JObj (dict_set k v acc)) t.
Proof.
  intros Hs H. cbn [object_items]. rewrite scanstring_escape.
  cbn [skip_ws is_ws N_of_ascii]. cbn -[scan_once object_items skip_ws].
  cbn [skip_ws]. cbn -[scan_once object_items skip_ws].
  rewrite (value_start_skip_ws _ Hs), H, skip_ws_newline_indent.
  reflexivity.
Qed.

Lemma object_items_encode (lvl : nat) (rest : string) (m : list (string * json)) :
  Forall (fun kv => reads_back (snd kv)) m ->
  forall k x acc fuel,
    reads_back x ->
    NoDup (dict_keys (acc ++ (k, x) :: m)%list) ->
    2 * String.length
          (escape k ++ String dquote
             (String ":" (String " " (iterencode (S lvl) x
                ++ items_text lvl m (newline_indent lvl ++ String "}" rest)))))
    < fuel ->
    object_items fuel
      (escape k ++ String dquote
         (String ":" (String " " (iterencode (S lvl) x
            ++ items_text lvl m (newline_indent lvl ++ String "}" rest))))) acc
    = POk (JObj (acc ++ (k, x) :: m)%list) rest.
Proof.
  induction 1 as [|[k' x'] m Hy HF IH]; intros k x acc fuel Hx Hnd Hfuel;
    (destruct fuel as [|fuel]; [lia|]);
    rewrite length_append in Hfuel; cbn [String.length] in Hfuel;
    rewrite length_append in Hfuel;
    assert (Hfresh : ~ In k (dict_keys acc))
      by (unfold dict_keys in *; rewrite map_app in Hnd;
          apply NoDup_remove_2 in Hnd; intros Hin; apply Hnd;
          apply in_or_app; now left).
  - cbn [items_text] in *.
    rewrite (object_items_last fuel lvl k _ rest x).
    + now rewrite dict_set_fresh.
    + apply iterencode_start.
    + apply Hx; [reflexivity | rewrite length_append; lia].
  - cbn [items_text snd] in *. cbn [String.length] in Hfuel.
    rewrite !length_append in Hfuel. unfold encode_basestring in *.
    cbn [append String.length] in Hfuel. rewrite !length_append in Hfuel.
    cbn [String.length] in Hfuel.
    erewrite object_items_more.
    2:{ apply iterencode_start. }
    2:{ apply Hx; [reflexivity|].
        rewrite length_append. cbn [String.length]. rewrite !length_append.
        cbn [append String.length]. rewrite !length_append.
        cbn [String.length]. lia. }
    2:{ rewrite skip_ws_newline_indent. cbn [append]. reflexivity. }
    rewrite dict_set_fresh by exact Hfresh.
    rewrite !append_assoc. cbn [append str1].
    rewrite IH.
    + now rewrite <- app_assoc.
    + exact Hy.
    + now rewrite <- app_assoc.
    + rewrite length_append. cbn [String.length]. rewrite length_append. lia.
Qed.

Lemma scan_once_open_array (fuel lvl : nat) (t : string) :
  value_start t = true ->
  scan_once (S fuel) (String "[" (newline_indent lvl ++ t)) = array_items fuel t [].
Proof.
  intros Ht. cbn [scan_once].
  change (Ascii.eqb "[" dquote) with false.
  change (Ascii.eqb "[" "{") with false.
  change (Ascii.eqb "[" "[") with true. cbv iota.
  rewrite skip_ws_newline_indent, (value_start_skip_ws _ Ht).
  destruct t as [|c r]; [discriminate|]. cbn [value_start] in Ht.
  apply andb_true_iff in Ht as [_ Ht]. apply negb_true_iff in Ht.
  now rewrite Ht.
Qed.

Lemma scan_once_open_object (fuel lvl : nat) (t : string) :
  scan_once (S fuel) (String "{" (newline_indent lvl ++ String dquote t))
  = object_items fuel t [].
Proof.
  cbn [scan_once].
  change (Ascii.eqb "{" dquote) with false.
  change (Ascii.eqb "{" "{") with true. cbv iota.
  rewrite skip_ws_newline_indent. reflexivity.
Qed.

(** Every well-formed value is read back from its text. *)
Lemma scan_once_iterencode (v : json) : wf v -> reads_back v.
Proof.
  induction v as [ | b | z | f | s | l IHl | m IHm ] using json_induction;
    intros Hwf lvl rest fuel Hr Hfuel;
    (destruct fuel as [|fuel]; [lia|]).
  - reflexivity.
  - destruct b; reflexivity.
  - apply scan_once_number, match_number_intstr, Hr.
  - destruct f as [x| | | ]; try reflexivity.
    apply scan_once_number, match_number_float, Hr.
  - apply scan_once_string.
  - inversion Hwf as [ | | | | | l' Hl | ]; subst.
    assert (HF : Forall reads_back l).
    { rewrite Forall_forall in *. auto. }
    destruct l as [|x l]; [reflexivity|].
    inversion HF as [|? ? Hx HF']; subst.
    cbn [iterencode] in *. rewrite !append_assoc in *.
    change ("[" ++ ?t) with (String "[" t) in *.
    change ("]" ++ ?t) with (String "]" t) in *.
    cbn [String.length] in Hfuel. rewrite length_append in Hfuel.
    assert (Hnl : 1 <= String.length (newline_indent (S lvl))) by (cbn; lia).
    rewrite scan_once_open_array.
    + rewrite array_items_encode; [reflexivity | exact HF' | exact Hx | lia].
    + destruct l; cbn [map String.concat]; [|rewrite append_assoc];
        apply iterencode_start.
  - inversion Hwf as [ | | | | | | m' Hnd Hm ]; subst.
    assert (HF : Forall (fun kv => reads_back (snd kv)) m).
    { rewrite Forall_forall in *. auto. }
    destruct m as [|[k x] m]; [reflexivity|].
    inversion HF as [|? ? Hx HF']; subst. cbn [snd] in Hx.
    cbn [iterencode] in *. rewrite !append_assoc in *.
    change ("{" ++ ?t) with (String "{" t) in *.
    change ("}" ++ ?t) with (String "}" t) in *.
    rewrite concat_items_text in *.
    unfold encode_basestring in *. cbn [append] in *.
    rewrite !append_assoc in *. cbn [append str1] in *.
    cbn [String.length] in Hfuel. rewrite length_append in Hfuel.
    cbn [String.length] in Hfuel.
    rewrite scan_once_open_object.
    rewrite (object_items_encode lvl rest m HF' k x []); [reflexivity | exact Hx | exact Hnd | lia].
Qed.

(** The text [json.dump] writes for a well-formed value is read back by
    [json.load] as that value. *)
Lemma json_round_trip (v : json) :
  wf v -> json_loads (json_dumps v) = POk v EmptyString.
Proof.
  intros Hwf. unfold json_loads, json_dumps.
  pose proof (iterencode_start 0 v EmptyString) as Hs.
  rewrite append_nil_r in Hs. rewrite (value_start_skip_ws _ Hs).
  pose proof (scan_once_iterencode v Hwf 0 EmptyString
                (loads_fuel (iterencode 0 v)) eq_refl) as H.
  rewrite append_nil_r in H. rewrite H; [reflexivity|].
  unfold loads_fuel. lia.
Qed.

End FloatLaws.

(** ** The environment and the state of the program

    One check cycle asks the operating system a fixed set of questions; the
    answers are collected in an [env].  What the program itself owns and
    changes is its [state]: the baseline file, the log and the notifications
    handed to [send_email].  Lines printed on the standard output are not
    kept. *)

(** One file met by [os.walk]: [os.path.join(root, fn)], its path relative to
    the monitored directory, [os.path.getmtime] and [os.path.getsize]. *)
Record walk_entry : Type := {
  we_full : string;
  we_rel : string;
  we_mtime : float;
  we_size : Z
}.

(** A text file as [open(path, "r", encoding="utf-8")] and [read] find it:
    missing, holding a text, or present with [open] or [read] raising. *)
Inductive file : Type :=
| Absent
| Text (s : string)
| Denied (e : exn).

Record env : Type := {
  e_isdir : bool;                            (* os.path.isdir(dirpath) *)
  e_walk : list walk_entry;                  (* the files os.walk(dirpath) yields *)
  e_read : string -> res (list Byte.byte);   (* open(path, "rb") and its reads *)
  e_now : string;                            (* datetime.now().strftime(...) *)
  e_db_write : option exn;                   (* open(hash_db_path, "w") failing *)
  e_smtp_file : file;                        (* the file of --smtp-config *)
  e_smtp_ok : bool                           (* the SMTP session going through *)
}.

Inductive level : Type := INFO | WARNING | ALERT.

(** A call of [logger.info], [logger.warning] or [logger.alert]. *)
Record log_record : Type := {
  lg_level : level;
  lg_msg : string;
  lg_file : option string
}.

(** A call of [send_email]. *)
Record mail : Type := {
  ml_cfg : json;
  ml_subject : string;
  ml_body : string;
  ml_to : json
}.

Record state : Type := {
  s_db : file;
  s_log : list log_record;
  s_mail : list mail
}.

(** Computations that read and change the state and may raise. *)
Definition M (A : Type) : Type := state -> res A * state.

Definition ret {A : Type} (a : A) : M A := fun st => (Ok a, st).

Definition raise {A : Type} (e : exn) : M A := fun st => (Raise e, st).

Definition lift {A : Type} (r : res A) : M A := fun st => (r, st).

Definition bind {A B : Type} (m : M A) (k : A -> M B) : M B :=
  fun st =>
    match m st with
    | (Ok a, st') => k a st'
    | (Raise e, st') => (Raise e, st')
    end.

Notation "x <- m ;; k" := (bind m (fun x => k))
  (at level 61, m at next level, right associativity).
Notation "m ;; k" := (bind m (fun _ => k))
  (at level 61, right associativity).

(** [for a in l: s = body(a, s)] *)
Fixpoint for_each {A S : Type} (l : list A) (body : A -> S -> M S) (s : S) : M S :=
  match l with
  | [] => ret s
  | a :: l' => s' <- body a s ;; for_each l' body s'
  end.

(** *** The logger *)

(** The log keeps the calls of the logger with their arguments. *)
Definition log (lvl : level) (message : string) (filename : option string) : M unit :=
  fun st =>
    (Ok tt, {| s_db := s_db st;
               s_log := s_log st
                        ++ [{| lg_level := lvl; lg_msg := message; lg_file := filename |}];
               s_mail := s_mail st |}).

Definition level_name (lvl : level) : string :=
  match lvl with
  | INFO => "INFO"
  | WARNING => "WARNING"
  | ALERT => "ALERT"
  end.

(** The line the logger writes at time [ts]; [if filename:] takes the empty
    string for no file name. *)
Definition format_record (ts : string) (r : log_record) : string :=
  match lg_file r with
  | None | Some EmptyString =>
      "[" ++ ts ++ "] " ++ level_name (lg_level r) ++ ": " ++ lg_msg r
  | Some f =>
      "[" ++ ts ++ "] " ++ level_name (lg_level r) ++ ": File " ++ f ++ " " ++ lg_msg r
  end.

Definition logger_info := log INFO.
Definition logger_warning := log WARNING.
Definition logger_alert := log ALERT.

(** *** [hash_file] *)

(** [for chunk in iter(lambda: f.read(4096), b""): h.update(chunk)] on the
    bytes that remain to be read.  The loop ends at the first empty read;
    [fuel] bounds it and [S (length data)] is enough ([read_chunks_fuel]). *)
Fixpoint read_chunks (fuel : nat) (h : hash_state) (data : list Byte.byte) : hash_state :=
  match fuel with
  | O => h
  | S fuel' =>
      match firstn 4096 data with
      | [] => h
      | chunk => read_chunks fuel' (hash_update h chunk) (skipn 4096 data)
      end
  end.

Definition hash_file (E : env) (path : string) : res string :=
  match e_read E path with
  | Raise e => Raise e
  | Ok data => Ok (hash_hexdigest (read_chunks (S (List.length data)) hash_new data))
  end.

(** *** [load_hash_db] and [save_hash_db] *)

Definition os_path_exists (f : file) : bool :=
  match f with
  | Absent => false
  | _ => true
  end.

(** [json.load(f)]: reading may raise, decoding may raise [JSONDecodeError]. *)
Definition json_load (f : file) : res json :=
  match f with
  | Absent => Raise (mk_exn FileNotFoundError "No such file or directory")
  | Denied e => Raise e
  | Text s =>
      match json_loads s with
      | POk v _ => Ok v
      | PErr => Raise (mk_exn JSONDecodeError "Expecting value")
      | PFuel => Raise (mk_exn RecursionError "maximum recursion depth exceeded")
      end
  end.

Definition load_hash_db (f : file) : res json :=
  if os_path_exists f then
    match json_load f with
    | Ok v => Ok v
    | Raise e =>
        match exn_cls e with
        | JSONDecodeError => Ok (JObj [])
        | _ => Raise e
        end
    end
  else Ok (JObj []).

(** Writing replaces the file by a text file holding the dump. *)
Definition save_hash_db (E : env) (db : json) : M unit :=
  fun st =>
    match e_db_write E with
    | Some e => (Raise e, st)
    | None => (Ok tt, {| s_db := Text (json_dumps db);
                         s_log := s_log st;
                         s_mail := s_mail st |})
    end.

(** *** [scan_directory] *)

Record meta : Type := {
  m_path : string;
  m_mtime : float;
  m_size : Z
}.

(** [os.walk] yields nothing when [dirpath] is not a directory. *)
Definition os_walk (E : env) : list walk_entry :=
  if e_isdir E then e_walk E else [].

Definition scan_directory (E : env) : dict meta :=
  fold_left
    (fun files we =>
       dict_set (we_rel we)
                {| m_path := we_full we; m_mtime := we_mtime we; m_size := we_size we |}
                files)
    (os_walk E) [].

(** *** Operations on values whose type is only known at run time

    [load_hash_db] returns whatever [json.load] read: the check cycle applies
    [in], item assignment, [.keys()] and [.get] to it, and these raise on the
    values that do not support them. *)

Definition py_eq_str (v : json) (s : string) : bool :=
  match v with
  | JStr s' => String.eqb s' s
  | _ => false
  end.

(** [rel in db] *)
Definition py_contains (db : json) (rel : string) : res bool :=
  match db with
  | JObj m => Ok (dict_mem rel m)
  | JArr l => Ok (existsb (fun x => py_eq_str x rel) l)
  | JStr s => Ok (str_contains rel s)
  | _ => Raise (mk_exn TypeError "argument is not iterable")
  end.

(** [db[rel] = v] *)
Definition py_setitem (db : json) (rel : string) (v : json) : res json :=
  match db with
  | JObj m => Ok (JObj (dict_set rel v m))
  | JArr _ => Raise (mk_exn TypeError "list indices must be integers or slices, not str")
  | _ => Raise (mk_exn TypeError "object does not support item assignment")
  end.

(** [db.keys()] *)
Definition py_keys (db : json) : res (dict json) :=
  match db with
  | JObj m => Ok m
  | _ => Raise (mk_exn AttributeError "object has no attribute 'keys'")
  end.

(** [v.get(k)] *)
Definition py_get (v : json) (k : string) : res json :=
  match v with
  | JObj m => Ok (match dict_get k m with Some x => x | None => JNull end)
  | _ => Raise (mk_exn AttributeError "object has no attribute 'get'")
  end.

(** [repr] of the values that are not strings is left to the interpreter. *)
Class PyRepr : Type := { py_repr : json -> string }.

Context {PR : PyRepr}.

(** [str(v)], as an f-string formats a value. *)
Definition py_str (v : json) : string :=
  match v with
  | JStr s => s
  | _ => py_repr v
  end.

(** *** [send_email] *)

(** Every step of the SMTP session sits in a [try] whose handler returns
    [False]; the environment tells whether the session goes through. *)
Definition send_email (E : env) (smtp_cfg : json) (subject body : string)
           (to_addr : json) : M bool :=
  fun st =>
    let st' := {| s_db := s_db st;
                  s_log := s_log st;
                  s_mail := s_mail st ++ [{| ml_cfg := smtp_cfg; ml_subject := subject;
                                             ml_body := body; ml_to := to_addr |}] |} in
    if negb (truthy smtp_cfg) then (Ok true, st')
    else match py_get smtp_cfg "enabled" with
         | Raise e => (Raise e, st')
         | Ok enabled => if negb (truthy enabled) then (Ok true, st')
                         else (Ok (e_smtp_ok E), st')
         end.

(** *** [perform_check] *)

Definition entry_of (h : string) (mt : meta) : json :=
  JObj [("hash", JStr h); ("mtime", JFloat (FFinite (m_mtime mt))); ("size", JInt (m_size mt))].

(** The body of the first loop: a file of the snapshot that is not in the
    baseline. *)
Definition new_file_step (E : env) (auto_update : bool) (item : string * meta)
           (s : json * option string) : M (json * option string) :=
  let (rel, mt) := item in
  let (db, last_anomaly) := s in
  present <- lift (py_contains db rel) ;;
  if present then ret (db, last_anomaly)
  else
    logger_alert "detected as unknown." (Some rel) ;;
    let last_anomaly := Some (e_now E) in
    current_hash <- lift (hash_file E (m_path mt)) ;;
    if auto_update then
      db' <- lift (py_setitem db rel (entry_of current_hash mt)) ;;
      logger_info "added to baseline (auto-update)." (Some rel) ;;
      ret (db', last_anomaly)
    else ret (db, last_anomaly).

(** The body of the second loop, over [deleted]. *)
Definition deleted_step (E : env) (auto_update : bool) (f : string)
           (s : dict json * option string) : M (dict json * option string) :=
  let (db, _) := s in
  logger_alert "deleted from monitored folder." (Some f) ;;
  let last_anomaly := Some (e_now E) in
  if auto_update then
    logger_info "removed from baseline (auto-update)." (Some f) ;;
    ret (dict_pop f db, last_anomaly)
  else ret (db, last_anomaly).

Definition alert_subject (rel : string) : string :=
  "[ALERT] Integrity failed: " ++ rel.

Definition alert_body (rel : string) (baseline_h : json) (cur_h : string) : string :=
  "File " ++ rel ++ " changed." ++ str1 newline
  ++ "Baseline hash: " ++ py_str baseline_h ++ str1 newline
  ++ "Current hash: " ++ cur_h.

(** The local variables of the third loop. *)
Record counters : Type := {
  c_db : dict json;
  c_safe : nat;
  c_corrupted : nat;
  c_last : option string
}.

(** The body of the third loop: a file of the snapshot that is in the
    baseline. *)
Definition modified_step (E : env) (smtp_cfg : option json) (auto_update : bool)
           (item : string * meta) (s : counters) : M counters :=
  let (rel, mt) := item in
  match dict_get rel (c_db s) with
  | None => ret s
  | Some entry =>
      match hash_file E (m_path mt) with
      | Raise e =>
          logger_alert ("could not be read: " ++ exn_msg e) (Some rel) ;;
          ret {| c_db := c_db s; c_safe := c_safe s;
                 c_corrupted := S (c_corrupted s); c_last := Some (e_now E) |}
      | Ok cur_h =>
          baseline_h <- lift (py_get entry "hash") ;;
          if py_eq_str baseline_h cur_h then
            logger_info "verified OK." (Some rel) ;;
            ret {| c_db := c_db s; c_safe := S (c_safe s);
                   c_corrupted := c_corrupted s; c_last := c_last s |}
          else
            logger_warning "integrity failed!" (Some rel) ;;
            let cfg := match smtp_cfg with
                       | Some c => if truthy c then c else JObj []
                       | None => JObj []
                       end in
            to_addr <- lift (match smtp_cfg with
                             | Some c => if truthy c then py_get c "to_addr"
                                         else Ok (JStr "admin@example.com")
                             | None => Ok (JStr "admin@example.com")
                             end) ;;
            send_email E cfg (alert_subject rel) (alert_body rel baseline_h cur_h) to_addr ;;
            if auto_update then
              entry' <- lift (match entry with
                              | JObj e =>
                                  Ok (JObj (dict_set "size" (JInt (m_size mt))
                                             (dict_set "mtime" (JFloat (FFinite (m_mtime mt)))
                                                (dict_set "hash" (JStr cur_h) e))))
                              | _ => Raise (mk_exn TypeError
                                              "object does not support item assignment")
                              end) ;;
              logger_info "baseline updated after modification (auto-update)." (Some rel) ;;
              ret {| c_db := dict_set rel entry' (c_db s); c_safe := c_safe s;
                     c_corrupted := S (c_corrupted s); c_last := Some (e_now E) |}
            else
              ret {| c_db := c_db s; c_safe := c_safe s;
                     c_corrupted := S (c_corrupted s); c_last := Some (e_now E) |}
      end
  end.

(** [deleted = [f for f in db.keys() if f not in current]] *)
Definition deleted_of (db : dict json) (current : dict meta) : list string :=
  filter (fun f => negb (dict_mem f current)) (dict_keys db).

Definition perform_check (E : env) (dirpath : string) (smtp_cfg : option json)
           (auto_update : bool) : M (nat * nat * option string) :=
  if negb (e_isdir E)
  then raise (mk_exn FileNotFoundError ("Directory " ++ dirpath ++ " not found"))
  else
    let current := scan_directory E in
    db <- (fun st => (load_hash_db (s_db st), st)) ;;
    s1 <- for_each current (new_file_step E auto_update) (db, None) ;;
    m <- lift (py_keys (fst s1)) ;;
    s2 <- for_each (deleted_of m current) (deleted_step E auto_update) (m, snd s1) ;;
    s3 <- for_each current (modified_step E smtp_cfg auto_update)
            {| c_db := fst s2; c_safe := 0; c_corrupted := 0; c_last := snd s2 |} ;;
    save_hash_db E (JObj (c_db s3)) ;;
    ret (c_safe s3, c_corrupted s3, c_last s3).

(** *** [main] *)

Record args : Type := {
  a_dir : string;
  a_watch : bool;
  a_interval : Z;
  a_auto_update : bool;
  a_smtp_config : option string
}.

(** How a run ends: the process exits with a code, or the watcher is still
    looping when the ticks that were given are used up. *)
Inductive status : Type :=
| Exited (code : Z)
| Running.

(** The body of the loop that builds a first baseline. *)
Definition baseline_step (E : env) (item : string * meta) (db : dict json) : M (dict json) :=
  let (rel, mt) := item in
  match hash_file E (m_path mt) with
  | Ok h =>
      logger_info "added to baseline." (Some rel) ;;
      ret (dict_set rel (entry_of h mt) db)
  | Raise e =>
      logger_warning ("failed to hash during baseline creation: " ++ exn_msg e) (Some rel) ;;
      ret db
  end.

(** [main] up to the choice between a single check and the watcher: the first
    baseline when there is no baseline file, then the SMTP configuration. *)
Definition main_setup (a : args) (E : env) : M (option json) :=
  exists_db <- (fun st => (Ok (os_path_exists (s_db st)), st)) ;;
  (if negb exists_db then
     logger_info "Baseline DB not found. Creating new baseline from current files." None ;;
     db <- for_each (scan_directory E) (baseline_step E) [] ;;
     save_hash_db E (JObj db)
   else ret tt) ;;
  match a_smtp_config a with
  | None => ret None
  | Some path =>
      if String.eqb path EmptyString then ret None
      else if os_path_exists (e_smtp_file E) then
        cfg <- lift (json_load (e_smtp_file E)) ;;
        ret (Some cfg)
      else
        logger_warning "SMTP config file not found, email alerts will be simulated." None ;;
        ret None
  end.

(** One turn of the watcher: the environment of the turn, and whether the user
    interrupts the program during it. *)
Record tick : Type := {
  t_env : env;
  t_interrupt : bool
}.

(** One turn of [while True]: a check whose exceptions are logged, then the
    sleep.  An interrupt leaves the loop through the outer handler;
    [time.sleep] raises [ValueError] on a negative interval, which no handler
    of [main] catches. *)
Definition watch_turn (a : args) (smtp_cfg : option json) (t : tick) (st : state)
  : status * state :=
  let st1 :=
    match perform_check (t_env t) (a_dir a) smtp_cfg (a_auto_update a) st with
    | (Ok _, st') => st'
    | (Raise e, st') => snd (logger_alert ("Watcher error: " ++ exn_msg e) None st')
    end in
  if t_interrupt t
  then (Exited 0, snd (logger_info "Watcher stopped by user. Exiting." None st1))
  else if (a_interval a <? 0)%Z then (Exited 1, st1)
  else (Running, st1).

Fixpoint watch_loop (a : args) (smtp_cfg : option json) (ticks : list tick) (st : state)
  : status * state :=
  match ticks with
  | [] => (Running, st)
  | t :: ticks' =>
      match watch_turn a smtp_cfg t st with
      | (Running, st') => watch_loop a smtp_cfg ticks' st'
      | exited => exited
      end
  end.

(** An exception that leaves [main] ends the process with code 1, as
    [sys.exit(1)] does. *)
Definition main (a : args) (E : env) (ticks : list tick) (st : state) : status * state :=
  match main_setup a E st with
  | (Raise _, st0) => (Exited 1, st0)
  | (Ok smtp_cfg, st0) =>
      if negb (a_watch a) then
        match perform_check E (a_dir a) smtp_cfg (a_auto_update a) st0 with
        | (Ok _, st1) => (Exited 0, st1)
        | (Raise _, st1) => (Exited 1, st1)
        end
      else
        watch_loop a smtp_cfg ticks
          (snd (logger_info ("Starting watcher on " ++ a_dir a ++ ", interval "
                             ++ intstr (a_interval a) ++ "s.") None st0))
  end.

(** ** The three sets of the diff

    The paths on which each of the three loops acts, for a snapshot and a
    baseline: the first loop tests [rel not in db] on the keys of the
    snapshot, the second runs over [deleted_of], the third tests [rel in db]
    on the keys of the snapshot. *)



Definition in_both (db : dict json) (current : dict meta) : list string :=
  filter (fun rel => dict_mem rel db) (dict_keys current).


(** ** The baseline store *)



(** ** The hasher *)

(** The loop over the chunks never ends for want of fuel. *)
Lemma read_chunks_fuel (fuel fuel' : nat) (h : hash_state) (data : list Byte.byte) :
  List.length data < fuel -> List.length data < fuel' ->
  read_chunks fuel h data = read_chunks fuel' h data.
Proof.
  revert fuel' h data.
  induction fuel as [|fuel IH]; intros fuel' h data H1 H2; [lia|].
  destruct fuel' as [|fuel']; [lia|]. cbn [read_chunks].
  destruct data as [|b data]; [reflexivity|].
  change (firstn 4096 (b :: data)) with (b :: firstn 4095 data).
  change (skipn 4096 (b :: data)) with (skipn 4095 data).
  apply IH; cbn [List.length] in *;
    pose proof (length_skipn 4095 data); lia.
Qed.

(** With the law of [hashlib] that feeding two chunks in turn is feeding
    their concatenation, the digest is the digest of the whole content. *)
Lemma read_chunks_whole
      (Hcat : forall h a b, hash_update (hash_update h a) b = hash_update h (a ++ b)%list)
      (fuel : nat) (h : hash_state) (data : list Byte.byte) :
  List.length data < fuel ->
  data <> [] ->
  read_chunks fuel h data = hash_update h data.
Proof.
  revert h data. induction fuel as [|fuel IH]; intros h data Hf Hne; [lia|].
  cbn [read_chunks].
  destruct data as [|b data]; [contradiction|].
  change (firstn 4096 (b :: data)) with (b :: firstn 4095 data).
  change (skipn 4096 (b :: data)) with (skipn 4095 data).
  destruct (skipn 4095 data) as [|b' rest] eqn:Hs.
  - destruct fuel; cbn [read_chunks firstn];
      rewrite <- (firstn_skipn 4095 data) at 2; rewrite Hs, List.app_nil_r; reflexivity.
  - rewrite IH.
    + rewrite Hcat. cbn [List.app]. rewrite <- Hs, firstn_skipn. reflexivity.
    + rewrite <- Hs. pose proof (length_skipn 4095 data).
      cbn [List.length] in Hf. lia.
    + discriminate.
Qed.

(** C8. [hash_file] is a function of the bytes of the file: two runs that
    find the same bytes return the same digest, and a run does not change the
    state of the program. *)
Theorem hash_file_deterministic (E1 E2 : env) (path : string) (st : state) :
  e_read E1 path = e_read E2 path ->
  hash_file E1 path = hash_file E2 path
  /\ snd (lift (hash_file E1 path) st) = st.
Proof.
  intros H. unfold hash_file. rewrite H. split; reflexivity.
Qed.

(** ** A missing directory *)

Lemma perform_check_no_dir (E : env) (dirpath : string) (cfg : option json)
      (auto_update : bool) (st : state) :
  e_isdir E = false ->
  perform_check E dirpath cfg auto_update st
  = (Raise (mk_exn FileNotFoundError ("Directory " ++ dirpath ++ " not found")), st).
Proof.
  intros H. unfold perform_check. rewrite H. reflexivity.
Qed.




(** ** Reasoning about computations *)

(** From a state satisfying [P], [m] returns a value and a state related by
    [Q], or raises in a state satisfying [R]. *)
Definition hoare {A : Type} (P : state -> Prop) (m : M A)
           (Q : A -> state -> Prop) (R : state -> Prop) : Prop :=
  forall st, P st ->
    match m st with
    | (Ok a, st') => Q a st'
    | (Raise _, st') => R st'
    end.

Lemma hoare_bind {A B : Type} (P : state -> Prop) (m : M A) (k : A -> M B)
      (Q : A -> state -> Prop) (Q' : B -> state -> Prop) (R : state -> Prop) :
  hoare P m Q R ->
  (forall a, hoare (Q a) (k a) Q' R) ->
  hoare P (bind m k) Q' R.
Proof.
  intros Hm Hk st HP. unfold bind. specialize (Hm st HP).
  destruct (m st) as [[a|e] st']; [|exact Hm]. exact (Hk a st' Hm).
Qed.

Lemma hoare_for_each {A S : Type} (I : S -> state -> Prop) (R : state -> Prop)
      (body : A -> S -> M S) (l : list A) :
  (forall a s, In a l -> hoare (I s) (body a s) I R) ->
  forall s, hoare (I s) (for_each l body s) I R.
Proof.
  induction l as [|a l IH]; intros Hbody s.
  - intros st HI. exact HI.
  - cbn [for_each]. eapply hoare_bind.
    + apply Hbody. now left.
    + intros s'. apply IH. intros a' s0 Hin. apply Hbody. now right.
Qed.


(** Unfolds the computations of a step down to the states they build. *)
Ltac run_step :=
  unfold bind, lift, ret, raise, logger_info, logger_warning, logger_alert, log,
    send_email in *;
  cbn [fst snd s_db s_log s_mail c_db c_safe c_corrupted c_last] in *.

(** Case analysis on the tests of the goal, innermost first. *)
Ltac break_goal :=
  repeat (cbv beta;
          match goal with
          | |- context [match ?x with _ => _ end] =>
              lazymatch x with
              | context [match _ with _ => _ end] => fail
              | _ => destruct x eqn:?
              end
          end).

(** ** What a check cycle leaves of the baseline file *)




Lemma hoare_pre {A : Type} (P P' : state -> Prop) (m : M A)
      (Q : A -> state -> Prop) (R : state -> Prop) :
  (forall st, P st -> P' st) -> hoare P' m Q R -> hoare P m Q R.
Proof. intros HP Hm st Hst. exact (Hm st (HP st Hst)). Qed.




Lemma load_hash_db_wf (f : file) (db : json) : load_hash_db f = Ok db -> wf db.
Proof.
  unfold load_hash_db, json_load.
  destruct f as [|s|e]; cbn [os_path_exists].
  - intros [= <-]. constructor; constructor.
  - destruct (json_loads s) as [v r| |] eqn:Hl; cbn [exn_cls].
    + intros [= <-]. exact (json_loads_wf _ _ _ Hl).
    + intros [= <-]. constructor; constructor.
    + discriminate.
  - destruct (exn_cls e); try discriminate.
    intros [= <-]. constructor; constructor.
Qed.

Section Persistence.

Context {PFL : PyFloatLaws PF}.

(** What [save_hash_db] wrote, [load_hash_db] reads back. *)
Lemma load_dumped (db : json) :
  wf db -> load_hash_db (Text (json_dumps db)) = Ok db.
Proof.
  intros Hwf. unfold load_hash_db, json_load. cbn [os_path_exists].
  now rewrite (json_round_trip db Hwf).
Qed.



(** The baseline as the specification types it. *)
Record baseline_entry : Type := {
  be_hash : string;
  be_mtime : float;
  be_size : Z
}.

Definition json_of_entry (e : baseline_entry) : json :=
  JObj [("hash", JStr (be_hash e)); ("mtime", JFloat (FFinite (be_mtime e)));
        ("size", JInt (be_size e))].

Definition json_of_baseline (B : dict baseline_entry) : json :=
  JObj (map (fun kv => (fst kv, json_of_entry (snd kv))) B).

Lemma json_of_baseline_wf (B : dict baseline_entry) :
  NoDup (dict_keys B) -> wf (json_of_baseline B).
Proof.
  intros Hnd. constructor.
  - unfold dict_keys in *. rewrite map_map. exact Hnd.
  - apply Forall_map, Forall_forall. intros [k e] _. cbn [snd].
    constructor.
    + repeat constructor; cbn; intuition discriminate.
    + repeat constructor.
Qed.


End Persistence.

(** ** Classification events

    The specification names five outcomes; the program tells them apart by
    the level and the message of the log record. *)
Inductive outcome : Type := NewFile | DeletedFile | Verified | Corrupted | Unreadable.

Definition outcome_eqb (a b : outcome) : bool :=
  match a, b with
  | NewFile, NewFile | DeletedFile, DeletedFile | Verified, Verified
  | Corrupted, Corrupted | Unreadable, Unreadable => true
  | _, _ => false
  end.

Definition outcome_of (r : log_record) : option outcome :=
  match lg_level r with
  | ALERT =>
      if String.eqb (lg_msg r) "detected as unknown." then Some NewFile
      else if String.eqb (lg_msg r) "deleted from monitored folder." then Some DeletedFile
      else if String.prefix "could not be read: " (lg_msg r) then Some Unreadable
      else None
  | INFO => if String.eqb (lg_msg r) "verified OK." then Some Verified else None
  | WARNING => if String.eqb (lg_msg r) "integrity failed!" then Some Corrupted else None
  end.

(** [r] is the event [o] for the path [rel]. *)
Definition is_event (rel : string) (o : outcome) (r : log_record) : bool :=
  match lg_file r, outcome_of r with
  | Some f, Some o' => String.eqb f rel && outcome_eqb o' o
  | _, _ => false
  end.


Definition count {A : Type} (f : A -> bool) (l : list A) : nat :=
  List.length (filter f l).

Lemma count_snoc {A : Type} (f : A -> bool) (l : list A) (a : A) :
  count f (l ++ [a])%list = count f l + (if f a then 1 else 0).
Proof.
  unfold count. rewrite filter_app, List.length_app. cbn [filter].
  destruct (f a); reflexivity.
Qed.





Lemma prefix_app (d b : string) : String.prefix d (d ++ b) = true.
Proof.
  induction d as [|c d IH]; cbn [String.prefix append]; [now destruct b|].
  destruct (ascii_dec c c); [exact IH | contradiction].
Qed.

Lemma str_contains_app (d a b : string) : str_contains d (a ++ d ++ b) = true.
Proof.
  induction a as [|c a IH]; cbn [append].
  - destruct (d ++ b) eqn:E; cbn [str_contains]; rewrite <- E, prefix_app; reflexivity.
  - cbn [str_contains]. rewrite IH. apply orb_true_r.
Qed.


(** The snapshot is a dict: each relative path is a key once. *)
Lemma scan_directory_nodup (E : env) : NoDup (dict_keys (scan_directory E)).
Proof.
  unfold scan_directory.
  assert (H : forall l (acc : dict meta), NoDup (dict_keys acc) ->
            NoDup (dict_keys
                     (fold_left
                        (fun files we =>
                           dict_set (we_rel we)
                                    {| m_path := we_full we; m_mtime := we_mtime we;
                                       m_size := we_size we |} files) l acc))).
  { induction l as [|we l IH]; intros acc Hacc; cbn [fold_left]; [exact Hacc|].
    apply IH. now apply dict_set_nodup. }
  apply H. constructor.
Qed.









(** ** A modified file is reported once *)

Section CorruptedOnce.

Variables (E : env) (cfg : option json) (auto_update : bool).
Variable rel : string.
Variables (N0 B0 : nat) (M0 : list mail).









End CorruptedOnce.

(** ** The log and the notifications only grow *)

Definition extends (L0 : list log_record) (M0 : list mail) (st : state) : Prop :=
  exists nl nm, s_log st = (L0 ++ nl)%list /\ s_mail st = (M0 ++ nm)%list.

Ltac extends_solve :=
  match goal with
  | H : extends _ _ _ |- _ =>
      destruct H as (?nl & ?nm & ?Hl & ?Hm);
      unfold extends; cbn [s_log s_mail];
      rewrite ?Hl, ?Hm, <- ?List.app_assoc; do 2 eexists; split; reflexivity
  end.

Lemma new_file_step_extends (E : env) (au : bool) (L0 : list log_record)
      (M0 : list mail) (item : string * meta) (s : json * option string) :
  hoare (extends L0 M0) (new_file_step E au item s)
        (fun _ => extends L0 M0) (fun _ => True).
Proof.
  intros st H. destruct item as [r mt], s as [db last].
  unfold new_file_step. run_step. break_goal; try exact I; extends_solve.
Qed.

Lemma deleted_step_extends (E : env) (au : bool) (L0 : list log_record)
      (M0 : list mail) (f : string) (s : dict json * option string) :
  hoare (extends L0 M0) (deleted_step E au f s)
        (fun _ => extends L0 M0) (fun _ => True).
Proof.
  intros st H. destruct s as [db last].
  unfold deleted_step. run_step. break_goal; try exact I; extends_solve.
Qed.

Lemma modified_step_extends (E : env) (cfg : option json) (au : bool)
      (L0 : list log_record) (M0 : list mail) (item : string * meta) (s : counters) :
  hoare (extends L0 M0) (modified_step E cfg au item s)
        (fun _ => extends L0 M0) (fun _ => True).
Proof.
  intros st H. destruct item as [r mt].
  unfold modified_step. run_step. break_goal; try exact I; extends_solve.
Qed.

Lemma perform_check_extends (E : env) (dirpath : string) (cfg : option json) (au : bool)
      (L0 : list log_record) (M0 : list mail) :
  hoare (extends L0 M0) (perform_check E dirpath cfg au)
        (fun _ => extends L0 M0) (fun _ => True).
Proof.
  unfold perform_check. destruct (e_isdir E); cbn [negb]; [|intros st _; exact I].
  apply hoare_bind with (Q := fun _ => extends L0 M0).
  { intros st H. destruct (load_hash_db (s_db st)); [exact H | exact I]. }
  intros db. apply hoare_bind with (Q := fun _ => extends L0 M0).
  { apply (hoare_for_each (fun _ => extends L0 M0)).
    intros. apply new_file_step_extends. }
  intros s1. apply hoare_bind with (Q := fun _ => extends L0 M0).
  { intros st H. unfold lift. destruct (py_keys (fst s1)); [exact H | exact I]. }
  intros m. apply hoare_bind with (Q := fun _ => extends L0 M0).
  { apply (hoare_for_each (fun _ => extends L0 M0)).
    intros. apply deleted_step_extends. }
  intros s2. apply hoare_bind with (Q := fun _ => extends L0 M0).
  { apply (hoare_for_each (fun _ => extends L0 M0)).
    intros. apply modified_step_extends. }
  intros s3 st H. unfold bind, save_hash_db, ret.
  destruct (e_db_write E); [exact I|]. extends_solve.
Qed.

Lemma count_app {A : Type} (f : A -> bool) (l1 l2 : list A) :
  count f (l1 ++ l2)%list = count f l1 + count f l2.
Proof. unfold count. now rewrite filter_app, List.length_app. Qed.



(** ** A file that cannot be read *)

(** In the third loop the read is guarded: for a path of the baseline whose
    file cannot be read, the step logs [Unreadable], adds one to [corrupted],
    leaves the baseline as it is and returns, so that the loop goes on. *)
Lemma modified_step_unreadable (E : env) (cfg : option json) (auto_update : bool)
      (rel : string) (mt : meta) (entry : json) (ex : exn) (s : counters) (st : state) :
  dict_get rel (c_db s) = Some entry ->
  hash_file E (m_path mt) = Raise ex ->
  modified_step E cfg auto_update (rel, mt) s st
  = (Ok {| c_db := c_db s; c_safe := c_safe s;
           c_corrupted := S (c_corrupted s); c_last := Some (e_now E) |},
     {| s_db := s_db st;
        s_log := s_log st ++ [{| lg_level := ALERT;
                                 lg_msg := "could not be read: " ++ exn_msg ex;
                                 lg_file := Some rel |}];
        s_mail := s_mail st |}).
Proof.
  intros Hget Hread. unfold modified_step. rewrite Hget, Hread. reflexivity.
Qed.

(** In the first loop it is not: the exception of [hash_file] leaves the
    step, and with it the loop and the cycle. *)
Lemma new_file_step_unreadable (E : env) (auto_update : bool) (rel : string) (mt : meta)
      (m : dict json) (last : option string) (ex : exn) (st : state) :
  dict_mem rel m = false ->
  hash_file E (m_path mt) = Raise ex ->
  new_file_step E auto_update (rel, mt) (JObj m, last) st
  = (Raise ex,
     {| s_db := s_db st;
        s_log := s_log st ++ [{| lg_level := ALERT;
                                 lg_msg := "detected as unknown.";
                                 lg_file := Some rel |}];
        s_mail := s_mail st |}).
Proof.
  intros Hmem Hread. unfold new_file_step. run_step. cbn [py_contains].
  rewrite Hmem, Hread. reflexivity.
Qed.

(** ** The watcher *)


(** ** The SMTP configuration *)

(** X2. The file named by [--smtp-config] is read with no handler around
    [json.load]: when it exists and cannot be read or decoded, [main] ends
    with the exception before any check, and with a baseline file in place it
    has changed nothing. *)
Theorem main_bad_smtp_config (a : args) (E : env) (ticks : list tick) (st : state)
        (path : string) (e : exn) :
  a_smtp_config a = Some path ->
  String.eqb path EmptyString = false ->
  os_path_exists (e_smtp_file E) = true ->
  json_load (e_smtp_file E) = Raise e ->
  fst (main a E ticks st) = Exited 1
  /\ (os_path_exists (s_db st) = true -> snd (main a E ticks st) = st).
Proof.
  intros Hp Hne Hex Hload.
  assert (Hs : exists e' st', main_setup a E st = (Raise e', st')
                              /\ (os_path_exists (s_db st) = true -> st' = st)).
  { unfold main_setup. rewrite Hp, Hne, Hex, Hload.
    unfold bind at 1. unfold bind at 1.
    destruct (os_path_exists (s_db st)); cbn [negb].
    - unfold ret, lift. do 2 eexists. split; [reflexivity | reflexivity].
    - match goal with
      | |- context [match ?m st with _ => _ end] => destruct (m st) as [[u|e'] st1]
      end.
      + unfold lift. do 2 eexists. split; [reflexivity | discriminate].
      + do 2 eexists. split; [reflexivity | discriminate]. }
  destruct Hs as (e' & st' & Hs & Hst). unfold main. rewrite Hs. cbn [fst snd].
  split; [reflexivity | exact Hst].
Qed.


(** ** Loops with an invariant over the items already visited *)

Lemma hoare_for_each_prefix {A S : Type} (I : list A -> S -> state -> Prop)
      (R : state -> Prop) (body : A -> S -> M S) (l : list A) :
  (forall l1 a l2 s, l = (l1 ++ a :: l2)%list ->
     hoare (I l1 s) (body a s) (I (l1 ++ [a])%list) R) ->
  forall s, hoare (I [] s) (for_each l body s) (I l) R.
Proof.
  intros Hbody.
  assert (H : forall rest done s, l = (done ++ rest)%list ->
            hoare (I done s) (for_each rest body s) (I l) R).
  { induction rest as [|a rest IH]; intros done s Hl.
    - rewrite List.app_nil_r in Hl. subst done. intros st HI. exact HI.
    - cbn [for_each]. eapply hoare_bind.
      + apply (Hbody done a rest s Hl).
      + intros s'. apply IH. rewrite <- List.app_assoc. exact Hl. }
  intros s. apply (H l [] s). reflexivity.
Qed.

(** The rule of [perform_check]: one invariant for each of its three loops,
    each over the items the loop has visited, and what links them. *)
Section CheckRule.

Variables (E : env) (dirpath : string) (cfg : option json) (au : bool).
Variables (P R : state -> Prop).
Variable I1 : json -> list (string * meta) -> json * option string -> state -> Prop.
Variable I2 : dict json -> list string -> dict json * option string -> state -> Prop.
Variable I3 : dict json -> list (string * meta) -> counters -> state -> Prop.
Variable Q : nat * nat * option string -> state -> Prop.

Hypothesis H_nodir : e_isdir E = false -> forall st, P st -> R st.
Hypothesis H_load :
  e_isdir E = true ->
  forall st, P st ->
    match load_hash_db (s_db st) with
    | Ok db => I1 db [] (db, None) st
    | Raise _ => R st
    end.
Hypothesis H_new :
  forall db0 l1 item l2 s,
    scan_directory E = (l1 ++ item :: l2)%list ->
    hoare (I1 db0 l1 s) (new_file_step E au item s) (I1 db0 (l1 ++ [item])%list) R.
Hypothesis H_keys :
  forall db0 s1 st,
    I1 db0 (scan_directory E) s1 st ->
    match py_keys (fst s1) with
    | Ok m => I2 m [] (m, snd s1) st
    | Raise _ => R st
    end.
Hypothesis H_del :
  forall m l1 f l2 s,
    deleted_of m (scan_directory E) = (l1 ++ f :: l2)%list ->
    hoare (I2 m l1 s) (deleted_step E au f s) (I2 m (l1 ++ [f])%list) R.
Hypothesis H_mid :
  forall m s2 st,
    I2 m (deleted_of m (scan_directory E)) s2 st ->
    I3 (fst s2) []
       {| c_db := fst s2; c_safe := 0; c_corrupted := 0; c_last := snd s2 |} st.
Hypothesis H_mod :
  forall m l1 item l2 s,
    scan_directory E = (l1 ++ item :: l2)%list ->
    hoare (I3 m l1 s) (modified_step E cfg au item s) (I3 m (l1 ++ [item])%list) R.
Hypothesis H_save :
  forall m s3 st,
    I3 m (scan_directory E) s3 st ->
    match e_db_write E with
    | Some _ => R st
    | None => Q (c_safe s3, c_corrupted s3, c_last s3)
                {| s_db := Text (json_dumps (JObj (c_db s3)));
                   s_log := s_log st; s_mail := s_mail st |}
    end.

Lemma hoare_perform_check : hoare P (perform_check E dirpath cfg au) Q R.
Proof.
  unfold perform_check. destruct (e_isdir E) eqn:Hd; cbn [negb].
  2: { intros st HP. exact (H_nodir eq_refl st HP). }
  apply hoare_bind with (Q := fun db st => I1 db [] (db, None) st).
  { intros st HP. specialize (H_load eq_refl st HP).
    destruct (load_hash_db (s_db st)); exact H_load. }
  intros db.
  apply hoare_bind with (Q := fun s1 st => I1 db (scan_directory E) s1 st).
  { apply (hoare_for_each_prefix (I1 db)). intros l1 a l2 s Hl.
    exact (H_new db l1 a l2 s Hl). }
  intros s1.
  apply hoare_bind with (Q := fun m st => I2 m [] (m, snd s1) st).
  { intros st HI. unfold lift. specialize (H_keys db s1 st HI).
    destruct (py_keys (fst s1)); exact H_keys. }
  intros m.
  apply hoare_bind
    with (Q := fun s2 st => I2 m (deleted_of m (scan_directory E)) s2 st).
  { apply (hoare_for_each_prefix (I2 m)). intros l1 a l2 s Hl.
    exact (H_del m l1 a l2 s Hl). }
  intros s2.
  apply hoare_bind with (Q := fun s3 st => I3 (fst s2) (scan_directory E) s3 st).
  { eapply hoare_pre; [|apply (hoare_for_each_prefix (I3 (fst s2)))].
    - intros st HI. exact (H_mid m s2 st HI).
    - intros l1 a l2 s Hl. exact (H_mod (fst s2) l1 a l2 s Hl). }
  intros s3 st HI. unfold bind, save_hash_db, ret.
  specialize (H_save (fst s2) s3 st HI).
  destruct (e_db_write E); exact H_save.
Qed.

End CheckRule.

(** ** What a cycle returns and what it logs *)

Definition has_outcome (o : outcome) (r : log_record) : bool :=
  match outcome_of r with
  | Some o' => outcome_eqb o' o
  | None => false
  end.

(** The events after which the program sets [last_anomaly]. *)
Definition is_anomaly (r : log_record) : bool :=
  match outcome_of r with
  | Some Verified | None => false
  | Some _ => true
  end.

(** The records of the check cycle and their outcomes. *)
Lemma outcome_unknown (f : option string) :
  outcome_of {| lg_level := ALERT; lg_msg := "detected as unknown."; lg_file := f |}
  = Some NewFile.
Proof. reflexivity. Qed.

Lemma outcome_added (f : option string) :
  outcome_of {| lg_level := INFO; lg_msg := "added to baseline (auto-update).";
                lg_file := f |} = None.
Proof. reflexivity. Qed.

Lemma outcome_deleted (f : option string) :
  outcome_of {| lg_level := ALERT; lg_msg := "deleted from monitored folder.";
                lg_file := f |} = Some DeletedFile.
Proof. reflexivity. Qed.

Lemma outcome_removed (f : option string) :
  outcome_of {| lg_level := INFO; lg_msg := "removed from baseline (auto-update).";
                lg_file := f |} = None.
Proof. reflexivity. Qed.

Lemma outcome_unreadable (msg : string) (f : option string) :
  outcome_of {| lg_level := ALERT; lg_msg := "could not be read: " ++ msg; lg_file := f |}
  = Some Unreadable.
Proof.
  unfold outcome_of. cbn [lg_level lg_msg].
  change (String.eqb ("could not be read: " ++ msg) "detected as unknown.") with false.
  change (String.eqb ("could not be read: " ++ msg) "deleted from monitored folder.")
    with false.
  now rewrite prefix_app.
Qed.

Lemma outcome_verified (f : option string) :
  outcome_of {| lg_level := INFO; lg_msg := "verified OK."; lg_file := f |}
  = Some Verified.
Proof. reflexivity. Qed.

Lemma outcome_failed (f : option string) :
  outcome_of {| lg_level := WARNING; lg_msg := "integrity failed!"; lg_file := f |}
  = Some Corrupted.
Proof. reflexivity. Qed.

Lemma outcome_updated (f : option string) :
  outcome_of {| lg_level := INFO;
                lg_msg := "baseline updated after modification (auto-update).";
                lg_file := f |} = None.
Proof. reflexivity. Qed.

Ltac outcomes :=
  rewrite ?outcome_unknown, ?outcome_added, ?outcome_deleted, ?outcome_removed,
    ?outcome_unreadable, ?outcome_verified, ?outcome_failed, ?outcome_updated.

Section Summary.

Variables (E : env) (cfg : option json) (au : bool).
Variables (V0 C0 U0 A0 : nat).

(** The log holds [safe] more [Verified] events than at the start of the
    cycle, [corrupted] more [Corrupted] and [Unreadable] events, and [last]
    is set exactly when it holds more anomalies. *)
Definition summary (safe corrupted : nat) (last : option string) (st : state) : Prop :=
  count (has_outcome Verified) (s_log st) = V0 + safe
  /\ count (has_outcome Corrupted) (s_log st) + count (has_outcome Unreadable) (s_log st)
     = C0 + U0 + corrupted
  /\ A0 <= count is_anomaly (s_log st)
  /\ last = if (count is_anomaly (s_log st) =? A0)%nat then None else Some (e_now E).

Ltac summary_solve :=
  match goal with
  | H : summary _ _ _ _ |- _ => destruct H as (?HV & ?HC & ?HA & ?HL)
  end;
  unfold summary; cbn [s_log s_mail c_safe c_corrupted c_last fst snd] in *;
  rewrite ?count_snoc; unfold has_outcome, is_anomaly in *; outcomes;
  cbn [outcome_eqb]; rewrite ?Nat.add_0_r;
  repeat split; try lia; try assumption;
  match goal with
  | |- context [Nat.eqb ?a ?b] => destruct (Nat.eqb_spec a b); [lia | reflexivity]
  end.

Lemma new_file_step_summary (item : string * meta) (s : json * option string) :
  hoare (summary 0 0 (snd s)) (new_file_step E au item s)
        (fun s' => summary 0 0 (snd s')) (fun _ => True).
Proof.
  intros st H. destruct item as [r mt], s as [db last].
  unfold new_file_step. run_step. break_goal; try exact I; summary_solve.
Qed.

Lemma deleted_step_summary (f : string) (s : dict json * option string) :
  hoare (summary 0 0 (snd s)) (deleted_step E au f s)
        (fun s' => summary 0 0 (snd s')) (fun _ => True).
Proof.
  intros st H. destruct s as [db last].
  unfold deleted_step. run_step. break_goal; try exact I; summary_solve.
Qed.

Lemma modified_step_summary (item : string * meta) (s : counters) :
  hoare (summary (c_safe s) (c_corrupted s) (c_last s))
        (modified_step E cfg au item s)
        (fun s' => summary (c_safe s') (c_corrupted s') (c_last s')) (fun _ => True).
Proof.
  intros st H. destruct item as [r mt].
  unfold modified_step. run_step. break_goal; try exact I; summary_solve.
Qed.

Lemma perform_check_summary (dirpath : string) :
  hoare (summary 0 0 None) (perform_check E dirpath cfg au)
        (fun r => summary (fst (fst r)) (snd (fst r)) (snd r)) (fun _ => True).
Proof.
  apply hoare_perform_check
    with (I1 := fun _ _ s => summary 0 0 (snd s))
         (I2 := fun _ _ s => summary 0 0 (snd s))
         (I3 := fun _ _ s => summary (c_safe s) (c_corrupted s) (c_last s)).
  - intros; exact I.
  - intros _ st H. destruct (load_hash_db (s_db st)); [exact H | exact I].
  - intros. apply new_file_step_summary.
  - intros db0 s1 st H. destruct (py_keys (fst s1)); [exact H | exact I].
  - intros. apply deleted_step_summary.
  - intros m s2 st H. exact H.
  - intros. apply modified_step_summary.
  - intros m s3 st H. destruct (e_db_write E); [exact I | exact H].
Qed.

End Summary.

(** What has been logged since [l0]. *)
Lemma summary_start (E : env) (st : state) :
  summary E (count (has_outcome Verified) (s_log st))
          (count (has_outcome Corrupted) (s_log st))
          (count (has_outcome Unreadable) (s_log st))
          (count is_anomaly (s_log st)) 0 0 None st.
Proof.
  unfold summary. rewrite Nat.eqb_refl. repeat split; lia.
Qed.

Lemma perform_check_new_log (E : env) (dirpath : string) (cfg : option json) (au : bool)
      (st st' : state) (r : nat * nat * option string) :
  perform_check E dirpath cfg au st = (Ok r, st') ->
  exists new_log, s_log st' = (s_log st ++ new_log)%list.
Proof.
  intros Hrun.
  pose proof (perform_check_extends E dirpath cfg au (s_log st) (s_mail st) st) as Hext.
  rewrite Hrun in Hext. destruct Hext as (nl & nm & Hl & Hm).
  { exists [], []. now rewrite !List.app_nil_r. }
  now exists nl.
Qed.

(** X3. The counts a cycle returns are the counts of the events it logged:
    [safe] is the number of [Verified] events, [corrupted] the number of
    [Corrupted] and [Unreadable] events. *)
Theorem cycle_counts_events (E : env) (dirpath : string) (cfg : option json) (au : bool)
        (st st' : state) (safe corrupted : nat) (last : option string) :
  perform_check E dirpath cfg au st = (Ok (safe, corrupted, last), st') ->
  exists new_log,
    s_log st' = (s_log st ++ new_log)%list
    /\ safe = count (has_outcome Verified) new_log
    /\ corrupted = count (has_outcome Corrupted) new_log
                   + count (has_outcome Unreadable) new_log.
Proof.
  intros Hrun.
  destruct (perform_check_new_log _ _ _ _ _ _ _ Hrun) as (nl & Hl).
  pose proof (perform_check_summary E cfg au _ _ _ _ dirpath st (summary_start E st)) as H.
  rewrite Hrun in H. destruct H as (HV & HC & _). cbn [fst snd] in HV, HC.
  rewrite Hl, count_app in HV.
  rewrite Hl, (count_app (has_outcome Corrupted)), (count_app (has_outcome Unreadable)) in HC.
  exists nl. repeat split; [exact Hl | lia | lia].
Qed.

(** X4. The time of the last anomaly a cycle returns is [None] when the cycle
    logged no new, deleted, corrupted or unreadable file, and the time of the
    cycle otherwise. *)
Theorem cycle_last_anomaly (E : env) (dirpath : string) (cfg : option json) (au : bool)
        (st st' : state) (safe corrupted : nat) (last : option string) :
  perform_check E dirpath cfg au st = (Ok (safe, corrupted, last), st') ->
  exists new_log,
    s_log st' = (s_log st ++ new_log)%list
    /\ last = if (count is_anomaly new_log =? 0)%nat then None else Some (e_now E).
Proof.
  intros Hrun.
  destruct (perform_check_new_log _ _ _ _ _ _ _ Hrun) as (nl & Hl).
  pose proof (perform_check_summary E cfg au _ _ _ _ dirpath st (summary_start E st)) as H.
  rewrite Hrun in H. destruct H as (_ & _ & _ & Hlast). cbn [fst snd] in Hlast.
  rewrite Hl, count_app in Hlast.
  exists nl. split; [exact Hl|]. rewrite Hlast.
  destruct (Nat.eqb_spec (count is_anomaly nl) 0) as [->|Hne].
  - now rewrite Nat.add_0_r, Nat.eqb_refl.
  - destruct (Nat.eqb_spec (count is_anomaly (s_log st) + count is_anomaly nl)
                (count is_anomaly (s_log st))); [lia | reflexivity].
Qed.


(** ** Counting the files of a cycle *)

Lemma filter_map_length {A B : Type} (f : B -> bool) (g : A -> B) (l : list A) :
  List.length (filter f (map g l)) = List.length (filter (fun x => f (g x)) l).
Proof.
  induction l as [|a l IH]; cbn [map filter]; [reflexivity|].
  destruct (f (g a)); cbn [List.length]; now rewrite IH.
Qed.

Lemma in_split_middle {A : Type} (l l1 l2 : list A) (a : A) :
  l = (l1 ++ a :: l2)%list -> In a l.
Proof. intros ->. apply in_elt. Qed.

(** A cycle without [--auto-update] on a baseline that is a dict: the
    baseline in memory is the loaded one to the end, and each file of the
    snapshot that is in it adds one to [safe] or to [corrupted]. *)
Lemma perform_check_plain (E : env) (dirpath : string) (cfg : option json)
      (d0 : file) (m : dict json) :
  load_hash_db d0 = Ok (JObj m) ->
  hoare (fun st => s_db st = d0) (perform_check E dirpath cfg false)
        (fun r st' => s_db st' = Text (json_dumps (JObj m))
                      /\ fst (fst r) + snd (fst r)
                         = List.length (in_both m (scan_directory E)))
        (fun _ => True).
Proof.
  intros Hload.
  apply hoare_perform_check
    with (I1 := fun _ _ s _ => fst s = JObj m)
         (I2 := fun m' _ s _ => fst s = m)
         (I3 := fun _ l s _ =>
                  c_db s = m
                  /\ c_safe s + c_corrupted s
                     = List.length (filter (fun it : string * meta => dict_mem (fst it) m) l)).
  - intros; exact I.
  - intros _ st <-. now rewrite Hload.
  - intros db0 l1 [rel mt] l2 [db last] _ st Hs. cbn [fst] in Hs. subst db.
    unfold new_file_step. run_step. break_goal; try exact I; reflexivity.
  - intros db0 s1 st Hs. rewrite Hs. reflexivity.
  - intros m' l1 f l2 [db last] _ st Hs. cbn [fst] in Hs. subst db.
    unfold deleted_step. run_step. reflexivity.
  - intros m' s2 st Hs. cbn [c_db c_safe c_corrupted]. split; [exact Hs | reflexivity].
  - intros m' l1 [rel mt] l2 s _ st [Hdb Hn].
    unfold modified_step. run_step. rewrite Hdb.
    assert (Hf : forall b,
               dict_mem rel m = b ->
               List.length (filter (fun it : string * meta => dict_mem (fst it) m)
                              (l1 ++ [(rel, mt)])%list)
               = List.length (filter (fun it : string * meta => dict_mem (fst it) m) l1)
                 + (if b then 1 else 0)).
    { intros b Hb. rewrite filter_app, List.length_app. cbn [filter fst]. rewrite Hb.
      destruct b; reflexivity. }
    unfold dict_mem in Hf at 1.
    destruct (dict_get rel m) as [entry|] eqn:Hget.
    + specialize (Hf true eq_refl).
      break_goal; try exact I; cbn [c_db c_safe c_corrupted];
        (split; [reflexivity | rewrite Hf; cbn [Nat.add]; lia]).
    + specialize (Hf false eq_refl). split; [exact Hdb | rewrite Hf; lia].
  - intros m' s3 st [Hdb Hn]. destruct (e_db_write E); [exact I|].
    cbn [s_db fst snd]. rewrite Hdb. split; [reflexivity|].
    rewrite Hn. unfold in_both, dict_keys. now rewrite filter_map_length.
Qed.

(** X5. Without [--auto-update], [safe] and [corrupted] add up to the number
    of files that are both in the directory and in the baseline. *)
Theorem cycle_counts_in_both (E : env) (dirpath : string) (cfg : option json)
        (st st' : state) (m : dict json) (safe corrupted : nat) (last : option string) :
  load_hash_db (s_db st) = Ok (JObj m) ->
  perform_check E dirpath cfg false st = (Ok (safe, corrupted, last), st') ->
  safe + corrupted = List.length (in_both m (scan_directory E)).
Proof.
  intros Hload Hrun.
  pose proof (perform_check_plain E dirpath cfg (s_db st) m Hload st eq_refl) as H.
  rewrite Hrun in H. exact (proj2 H).
Qed.

(** With [--auto-update], when the third loop starts every file of the
    snapshot is in the baseline, the new ones included: each of them adds one
    to [safe] or to [corrupted]. *)
Lemma perform_check_all_counted (E : env) (dirpath : string) (cfg : option json) :
  hoare (fun _ => True) (perform_check E dirpath cfg true)
        (fun r _ => fst (fst r) + snd (fst r) = List.length (scan_directory E))
        (fun _ => True).
Proof.
  apply hoare_perform_check
    with (I1 := fun _ l s _ =>
                  forall m1, fst s = JObj m1 ->
                             forall it : string * meta, In it l -> dict_mem (fst it) m1 = true)
         (I2 := fun _ _ s _ =>
                  forall it : string * meta,
                    In it (scan_directory E) -> dict_mem (fst it) (fst s) = true)
         (I3 := fun _ l s _ =>
                  (forall it : string * meta,
                      In it (scan_directory E) -> dict_mem (fst it) (c_db s) = true)
                  /\ c_safe s + c_corrupted s = List.length l).
  - intros; exact I.
  - intros _ st _. destruct (load_hash_db (s_db st)); [|exact I]. intros m1 _ it [].
  - intros db0 l1 [rel mt] l2 [db last] _ st Hs. cbn [fst] in Hs.
    unfold new_file_step. run_step.
    destruct db as [ | | | | | |m0]; cbn [py_contains py_setitem];
      break_goal; try exact I; cbn [fst]; intros m1 Hm1; try discriminate Hm1.
    + injection Hm1 as <-. intros it Hin. apply in_app_or in Hin as [Hin|[<-|[]]].
      * now apply (Hs m0).
      * exact Heqb.
    + injection Hm1 as <-. intros it Hin. rewrite dict_mem_set.
      apply in_app_or in Hin as [Hin|[<-|[]]].
      * rewrite (Hs m0 eq_refl it Hin). apply orb_true_r.
      * cbn [fst]. now rewrite String.eqb_refl.
  - intros db0 s1 st Hs. destruct (fst s1) eqn:Hdb; cbn [py_keys]; try exact I.
    cbn [fst]. exact (Hs _ eq_refl).
  - intros m' l1 f l2 [db last] Hl st Hs. cbn [fst] in Hs.
    apply in_split_middle in Hl. unfold deleted_of in Hl.
    apply filter_In in Hl as [_ Hf]. apply negb_true_iff, dict_mem_false in Hf.
    unfold deleted_step. run_step. cbn [fst]. intros it Hin.
    unfold dict_mem. rewrite dict_get_pop_other; [exact (Hs it Hin)|].
    intros Heq. apply Hf. rewrite <- Heq. unfold dict_keys. now apply in_map.
  - intros m' s2 st Hs. cbn [c_db c_safe c_corrupted]. split; [exact Hs | reflexivity].
  - intros m' l1 [rel mt] l2 s Hl st [Hdb Hn].
    apply in_split_middle in Hl. pose proof (Hdb _ Hl) as Hrel. cbn [fst] in Hrel.
    unfold dict_mem in Hrel.
    unfold modified_step. run_step.
    destruct (dict_get rel (c_db s)) as [entry|]; [|discriminate].
    rewrite List.length_app. cbn [List.length].
    break_goal; try exact I; cbn [c_db c_safe c_corrupted];
      (split; [|lia]); try exact Hdb.
    all: intros it Hin; rewrite dict_mem_set, (Hdb it Hin); apply orb_true_r.
  - intros m' s3 st [Hdb Hn]. destruct (e_db_write E); [exact I|]. exact Hn.
Qed.

(** X6. With [--auto-update], a cycle that runs to its end counts every file
    of the directory as safe or as corrupted, a file it has just reported as
    unknown included. *)
Theorem cycle_counts_auto_update (E : env) (dirpath : string) (cfg : option json)
        (st st' : state) (safe corrupted : nat) (last : option string) :
  perform_check E dirpath cfg true st = (Ok (safe, corrupted, last), st') ->
  safe + corrupted = List.length (scan_directory E).
Proof.
  intros Hrun.
  pose proof (perform_check_all_counted E dirpath cfg st I) as H.
  rewrite Hrun in H. exact H.
Qed.

(** ** A baseline that is not a dict *)

Definition is_dict (v : json) : bool :=
  match v with
  | JObj _ => true
  | _ => false
  end.

Lemma perform_check_non_dict (E : env) (dirpath : string) (cfg : option json) (au : bool)
      (d0 : file) (M0 : list mail) (v : json) :
  load_hash_db d0 = Ok v ->
  is_dict v = false ->
  hoare (fun st => s_db st = d0 /\ s_mail st = M0)
        (perform_check E dirpath cfg au)
        (fun _ _ => False)
        (fun st' => s_db st' = d0 /\ s_mail st' = M0).
Proof.
  intros Hload Hv.
  apply hoare_perform_check
    with (I1 := fun _ _ s st => (s_db st = d0 /\ s_mail st = M0) /\ is_dict (fst s) = false)
         (I2 := fun _ _ _ _ => False)
         (I3 := fun _ _ _ _ => False).
  - intros _ st H. exact H.
  - intros _ st [Hd Hm]. rewrite Hd, Hload. auto.
  - intros db0 l1 [rel mt] l2 [db last] _ st [Hst Hs]. cbn [fst] in Hs.
    unfold new_file_step. run_step.
    destruct db; try discriminate Hs; cbn [py_contains py_setitem];
      break_goal; cbn [fst s_db s_mail]; auto.
  - intros db0 s1 st [Hst Hs]. destruct (fst s1); try discriminate Hs; exact Hst.
  - intros m l1 f l2 s _ st [].
  - intros m s2 st [].
  - intros m l1 item l2 s _ st [].
  - intros m s3 st [].
Qed.

(** X7. When the baseline file holds a JSON value that is not an object, the
    cycle raises, whatever the directory holds, and leaves the file as it is:
    unlike a file that cannot be decoded, it is not replaced by a fresh
    baseline. No notification is sent. *)
Theorem non_dict_baseline_fails (E : env) (dirpath : string) (cfg : option json)
        (au : bool) (st : state) (v : json) :
  load_hash_db (s_db st) = Ok v ->
  is_dict v = false ->
  exists e st',
    perform_check E dirpath cfg au st = (Raise e, st')
    /\ s_db st' = s_db st /\ s_mail st' = s_mail st.
Proof.
  intros Hload Hv.
  pose proof (perform_check_non_dict E dirpath cfg au (s_db st) (s_mail st) v Hload Hv
                st (conj eq_refl eq_refl)) as H.
  destruct (perform_check E dirpath cfg au st) as [[r|e] st']; [contradiction|].
  now exists e, st'.
Qed.

(** A cycle that returns has read a dict from the baseline file. *)
Lemma perform_check_ok_dict (E : env) (dirpath : string) (cfg : option json) (au : bool)
      (st st' : state) (r : nat * nat * option string) :
  perform_check E dirpath cfg au st = (Ok r, st') ->
  exists m, load_hash_db (s_db st) = Ok (JObj m).
Proof.
  intros Hrun. destruct (load_hash_db (s_db st)) as [v|e] eqn:Hload.
  - destruct v as [ | | | | | |m]; try (now exists m);
      (pose proof (perform_check_non_dict E dirpath cfg au (s_db st) (s_mail st) _
                     Hload eq_refl st (conj eq_refl eq_refl)) as H;
       rewrite Hrun in H; contradiction).
  - unfold perform_check in Hrun. destruct (e_isdir E); cbn [negb] in Hrun.
    + unfold bind at 1 in Hrun. rewrite Hload in Hrun. discriminate.
    + discriminate.
Qed.


(** ** One classification for each path, without [--auto-update] *)

(** [r] is a classification event for the path [rel]. *)
Definition classified (rel : string) (r : log_record) : bool :=
  match lg_file r, outcome_of r with
  | Some f, Some _ => String.eqb f rel
  | _, _ => false
  end.

Lemma filter_split_length {A : Type} (p q : A -> bool) (l : list A) :
  List.length (filter (fun x => p x && negb (q x)) l)
  + List.length (filter (fun x => p x && q x) l)
  = List.length (filter p l).
Proof.
  induction l as [|a l IH]; cbn [filter]; [reflexivity|].
  destruct (p a), (q a); cbn [andb negb List.length]; lia.
Qed.

(** A key is met once in a list of distinct keys. *)
Lemma count_key_nodup (rel : string) (l : list string) :
  NoDup l ->
  List.length (filter (fun k => String.eqb k rel) l)
  = if existsb (fun k => String.eqb k rel) l then 1 else 0.
Proof.
  induction 1 as [|k l Hk Hnd IH]; cbn [filter existsb]; [reflexivity|].
  destruct (String.eqb_spec k rel) as [->|Hne]; cbn [orb List.length]; [|exact IH].
  assert (H : filter (fun k => String.eqb k rel) l = []).
  { clear IH Hnd. induction l as [|k' l IHl]; cbn [filter]; [reflexivity|].
    destruct (String.eqb_spec k' rel) as [->|Hne].
    - exfalso. apply Hk. now left.
    - apply IHl. intros Hin. apply Hk. now right. }
  now rewrite H.
Qed.

Lemma existsb_key_mem {V : Type} (rel : string) (d : dict V) :
  existsb (fun k => String.eqb k rel) (dict_keys d) = dict_mem rel d.
Proof.
  unfold dict_mem. induction d as [|[k v] d IH]; cbn [dict_keys map existsb dict_get fst];
    [reflexivity|].
  rewrite (String.eqb_sym k rel). destruct (String.eqb rel k); [reflexivity | exact IH].
Qed.

Section ClassifiedOnce.

Variables (E : env) (cfg : option json) (m : dict json) (rel : string) (N0 : nat).

Let new_paths (l : list (string * meta)) : nat :=
  List.length (filter (fun it => String.eqb (fst it) rel && negb (dict_mem (fst it) m)) l).

Let deleted_paths (l : list string) : nat :=
  List.length (filter (fun f => String.eqb f rel) l).

Let common_paths (l : list (string * meta)) : nat :=
  List.length (filter (fun it => String.eqb (fst it) rel && dict_mem (fst it) m) l).

Lemma classified_at (r : string) (lvl : level) (msg : string) (o : outcome) :
  outcome_of {| lg_level := lvl; lg_msg := msg; lg_file := Some r |} = Some o ->
  classified rel {| lg_level := lvl; lg_msg := msg; lg_file := Some r |}
  = String.eqb r rel.
Proof. intros H. unfold classified. now rewrite H. Qed.

Lemma classified_none (r : string) (lvl : level) (msg : string) :
  outcome_of {| lg_level := lvl; lg_msg := msg; lg_file := Some r |} = None ->
  classified rel {| lg_level := lvl; lg_msg := msg; lg_file := Some r |} = false.
Proof. intros H. unfold classified. now rewrite H. Qed.

Ltac classify :=
  cbn [s_log c_db fst snd];
  rewrite ?count_snoc;
  rewrite ?(classified_at _ _ _ _ (outcome_unknown _)),
    ?(classified_at _ _ _ _ (outcome_deleted _)),
    ?(classified_at _ _ _ _ (outcome_unreadable _ _)),
    ?(classified_at _ _ _ _ (outcome_verified _)),
    ?(classified_at _ _ _ _ (outcome_failed _)),
    ?(classified_none _ _ _ (outcome_added _)),
    ?(classified_none _ _ _ (outcome_removed _)),
    ?(classified_none _ _ _ (outcome_updated _)).

Lemma perform_check_classified (dirpath : string) (d0 : file) :
  load_hash_db d0 = Ok (JObj m) ->
  hoare (fun st => s_db st = d0 /\ count (classified rel) (s_log st) = N0)
        (perform_check E dirpath cfg false)
        (fun _ st' => count (classified rel) (s_log st')
                      = N0 + new_paths (scan_directory E)
                        + deleted_paths (deleted_of m (scan_directory E))
                        + common_paths (scan_directory E))
        (fun _ => True).
Proof.
  intros Hload.
  apply hoare_perform_check
    with (I1 := fun _ l s st =>
                  fst s = JObj m
                  /\ count (classified rel) (s_log st) = N0 + new_paths l)
         (I2 := fun m' l s st =>
                  m' = m /\ fst s = m
                  /\ count (classified rel) (s_log st)
                     = N0 + new_paths (scan_directory E) + deleted_paths l)
         (I3 := fun _ l s st =>
                  c_db s = m
                  /\ count (classified rel) (s_log st)
                     = N0 + new_paths (scan_directory E)
                       + deleted_paths (deleted_of m (scan_directory E))
                       + common_paths l).
  - intros; exact I.
  - intros _ st [<- Hn]. rewrite Hload. cbn [fst]. split; [reflexivity|].
    rewrite Hn. unfold new_paths. cbn [filter List.length]. lia.
  - intros db0 l1 [r mt] l2 [db last] _ st [Hs Hn]. cbn [fst] in Hs. subst db.
    assert (Hf : new_paths (l1 ++ [(r, mt)])%list
                 = new_paths l1
                   + (if String.eqb r rel && negb (dict_mem r m) then 1 else 0)).
    { unfold new_paths. rewrite filter_app, List.length_app. cbn [filter fst].
      destruct (String.eqb r rel && negb (dict_mem r m)); reflexivity. }
    unfold new_file_step. run_step. cbn [py_contains].
    destruct (dict_mem r m) eqn:Hmem; rewrite Hf, andb_comm; cbn [negb andb].
    + split; [reflexivity | lia].
    + break_goal; try exact I; classify;
        (split; [reflexivity|]); destruct (String.eqb r rel) eqn:?; try congruence; lia.
  - intros db0 s1 st [Hs Hn]. rewrite Hs. cbn [py_keys fst].
    split; [reflexivity|]. split; [reflexivity|].
    rewrite Hn. unfold deleted_paths. cbn [filter List.length]. lia.
  - intros m' l1 f l2 [db last] _ st (-> & Hs & Hn). cbn [fst] in Hs. subst db.
    assert (Hf : deleted_paths (l1 ++ [f])%list
                 = deleted_paths l1 + (if String.eqb f rel then 1 else 0)).
    { unfold deleted_paths. rewrite filter_app, List.length_app. cbn [filter].
      destruct (String.eqb f rel); reflexivity. }
    unfold deleted_step. run_step. classify.
    repeat split. rewrite Hf. destruct (String.eqb f rel) eqn:?; try congruence; lia.
  - intros m' s2 st (-> & Hs & Hn). cbn [c_db]. split; [exact Hs|].
    rewrite Hn. unfold common_paths. cbn [filter List.length]. lia.
  - intros m' l1 [r mt] l2 s _ st [Hdb Hn].
    assert (Hf : common_paths (l1 ++ [(r, mt)])%list
                 = common_paths l1
                   + (if String.eqb r rel && dict_mem r m then 1 else 0)).
    { unfold common_paths. rewrite filter_app, List.length_app. cbn [filter fst].
      destruct (String.eqb r rel && dict_mem r m); reflexivity. }
    unfold modified_step. run_step. rewrite Hdb. unfold dict_mem in Hf.
    destruct (dict_get r m) as [entry|] eqn:Hget; rewrite Hf, andb_comm; cbn [andb].
    + break_goal; try exact I; classify;
        (split; [reflexivity|]); destruct (String.eqb r rel) eqn:?; try congruence; lia.
    + split; [exact Hdb | lia].
  - intros m' s3 st [Hdb Hn]. destruct (e_db_write E); [exact I|]. exact Hn.
Qed.

(** The three numbers add up to one for a path of the snapshot or of the
    baseline, and to none for another path. *)
Lemma paths_partition :
  NoDup (dict_keys m) ->
  new_paths (scan_directory E) + deleted_paths (deleted_of m (scan_directory E))
  + common_paths (scan_directory E)
  = if dict_mem rel (scan_directory E) || dict_mem rel m then 1 else 0.
Proof.
  intros Hm. pose proof (scan_directory_nodup E) as Hc.
  remember (scan_directory E) as current eqn:Hcur. clear Hcur.
  assert (H1 : new_paths current + common_paths current
               = if dict_mem rel current then 1 else 0).
  { unfold new_paths, common_paths.
    rewrite (filter_split_length (fun it : string * meta => String.eqb (fst it) rel)
               (fun it => dict_mem (fst it) m)).
    rewrite <- (filter_map_length (fun k => String.eqb k rel) fst).
    change (map fst current) with (dict_keys current).
    now rewrite (count_key_nodup rel _ Hc), existsb_key_mem. }
  assert (H2 : deleted_paths (deleted_of m current)
               = if dict_mem rel m && negb (dict_mem rel current) then 1 else 0).
  { unfold deleted_paths, deleted_of.
    rewrite count_key_nodup by (apply NoDup_filter; exact Hm).
    destruct (existsb _ _) eqn:Hex.
    - apply existsb_exists in Hex as (k & Hin & Hk). apply String.eqb_eq in Hk. subst k.
      apply filter_In in Hin as [Hin Hnot]. apply dict_mem_In in Hin.
      now rewrite Hin, Hnot.
    - destruct (dict_mem rel m) eqn:Hmem; [|reflexivity].
      destruct (dict_mem rel current) eqn:Hmc; [reflexivity|]. exfalso.
      assert (Hin : existsb (fun k => String.eqb k rel)
                      (filter (fun f => negb (dict_mem f current)) (dict_keys m)) = true).
      { apply existsb_exists. exists rel. split; [|apply String.eqb_refl].
        apply filter_In. split; [now apply dict_mem_In | now rewrite Hmc]. }
      congruence. }
  destruct (dict_mem rel current), (dict_mem rel m); cbn [orb andb negb] in *; lia.
Qed.

End ClassifiedOnce.

(** X8. Without [--auto-update], a cycle that runs to its end logs for every
    path exactly one classification event when the path is in the directory or
    in the baseline, and none otherwise. *)
Theorem classified_once_without_auto_update
        (E : env) (dirpath : string) (cfg : option json) (st st' : state)
        (m : dict json) (r : nat * nat * option string) :
  load_hash_db (s_db st) = Ok (JObj m) ->
  perform_check E dirpath cfg false st = (Ok r, st') ->
  exists new_log,
    s_log st' = (s_log st ++ new_log)%list
    /\ forall rel,
         count (classified rel) new_log
         = if dict_mem rel (scan_directory E) || dict_mem rel m then 1 else 0.
Proof.
  intros Hload Hrun.
  destruct (perform_check_new_log _ _ _ _ _ _ _ Hrun) as (nl & Hl).
  exists nl. split; [exact Hl|]. intros rel.
  pose proof (perform_check_classified E cfg m rel (count (classified rel) (s_log st))
                dirpath (s_db st) Hload st (conj eq_refl eq_refl)) as H.
  rewrite Hrun in H. rewrite Hl, count_app in H.
  pose proof (load_hash_db_wf _ _ Hload) as Hwf. inversion Hwf as [ | | | | | |? Hnd _]; subst.
  pose proof (paths_partition E m rel Hnd) as Hp. cbv zeta in Hp. lia.
Qed.


(** ** The snapshot *)

Definition meta_of (we : walk_entry) : meta :=
  {| m_path := we_full we; m_mtime := we_mtime we; m_size := we_size we |}.

Lemma scan_directory_fold (l : list walk_entry) (acc : dict meta) :
  let r := fold_left (fun files we => dict_set (we_rel we) (meta_of we) files) l acc in
  (forall we, In we l -> dict_mem (we_rel we) r = true)
  /\ (forall k, dict_mem k acc = true -> dict_mem k r = true)
  /\ (forall rel mt, dict_get rel r = Some mt ->
        dict_get rel acc = Some mt
        \/ exists we, In we l /\ we_rel we = rel /\ mt = meta_of we).
Proof.
  revert acc. induction l as [|we l IH]; intros acc; cbn [fold_left].
  - repeat split; [intros we [] | auto | auto].
  - destruct (IH (dict_set (we_rel we) (meta_of we) acc)) as (H1 & H2 & H3).
    cbv zeta. repeat split.
    + intros we' [<-|Hin]; [|now apply H1].
      apply H2. rewrite dict_mem_set, String.eqb_refl. reflexivity.
    + intros k Hk. apply H2. rewrite dict_mem_set, Hk. apply orb_true_r.
    + intros rel mt Hget. destruct (H3 rel mt Hget) as [Hacc|(we' & Hin & Hrel & Hmt)].
      * destruct (String.eqb_spec rel (we_rel we)) as [->|Hne].
        -- rewrite dict_get_set_same in Hacc. injection Hacc as <-.
           right. exists we. split; [now left | split; reflexivity].
        -- rewrite dict_get_set_other in Hacc by exact Hne. now left.
      * right. exists we'. split; [now right | split; assumption].
Qed.

Lemma scan_directory_meta_of (E : env) :
  scan_directory E
  = fold_left (fun files we => dict_set (we_rel we) (meta_of we) files) (os_walk E) [].
Proof. reflexivity. Qed.


(** ** The digest of a file *)

(** X10. With the two laws of a [hashlib] object, that feeding two chunks in
    turn is feeding their concatenation and that feeding nothing changes
    nothing, the digest [hash_file] returns is the digest of the whole content
    of the file, whatever its length: reading by chunks of 4096 bytes loses
    and repeats no byte. *)
Theorem hash_file_whole (E : env) (path : string) (data : list Byte.byte) :
  (forall h a b, hash_update (hash_update h a) b = hash_update h (a ++ b)%list) ->
  (forall h, hash_update h [] = h) ->
  e_read E path = Ok data ->
  hash_file E path = Ok (hash_hexdigest (hash_update hash_new data)).
Proof.
  intros Hcat Hnil Hread. unfold hash_file. rewrite Hread. f_equal. f_equal.
  destruct data as [|b data].
  - cbn [read_chunks firstn]. now rewrite Hnil.
  - apply (read_chunks_whole Hcat); [lia | discriminate].
Qed.

(** ** A first run on a missing directory *)

Definition baseline_missing : log_record :=
  {| lg_level := INFO;
     lg_msg := "Baseline DB not found. Creating new baseline from current files.";
     lg_file := None |}.

(** X11. With no baseline file and no directory to monitor, [main] walks
    nothing, writes an empty baseline and only then fails on the directory: a
    run without [--watch] exits with code 1 and leaves a baseline file that
    holds [{}]. *)
Theorem first_run_missing_directory (a : args) (E : env) (ticks : list tick) (st : state) :
  s_db st = Absent ->
  e_isdir E = false ->
  e_db_write E = None ->
  a_smtp_config a = None ->
  a_watch a = false ->
  main a E ticks st
  = (Exited 1,
     {| s_db := Text "{}";
        s_log := s_log st ++ [baseline_missing];
        s_mail := s_mail st |}).
Proof.
  intros Hdb Hdir Hw Hsmtp Hwatch.
  unfold main, main_setup. rewrite Hsmtp, Hwatch.
  unfold scan_directory, os_walk. rewrite Hdir. cbn [fold_left for_each].
  unfold bind, ret, logger_info, log, save_hash_db. rewrite Hdb, Hw.
  cbn [os_path_exists negb s_db s_log s_mail].
  rewrite perform_check_no_dir by exact Hdir. reflexivity.
Qed.


(** ** A baseline that describes the directory *)

(** The record of a [Verified] event. *)
Definition verified_record (rel : string) : log_record :=
  {| lg_level := INFO; lg_msg := "verified OK."; lg_file := Some rel |}.

(** The baseline [m] is up to date with the directory: its keys are the
    files of the snapshot, and the entry of each file that can be read is a
    dict whose hash is the digest of the file. *)
Definition up_to_date (E : env) (m : dict json) : Prop :=
  (forall rel, dict_mem rel m = dict_mem rel (scan_directory E))
  /\ (forall rel mt h,
        In (rel, mt) (scan_directory E) ->
        hash_file E (m_path mt) = Ok h ->
        exists e, dict_get rel m = Some (JObj e) /\ dict_get "hash" e = Some (JStr h)).

Definition readable (E : env) : Prop :=
  forall rel mt, In (rel, mt) (scan_directory E) -> exists h, hash_file E (m_path mt) = Ok h.

Lemma dict_get_of_in {V : Type} (k : string) (v : V) (d : dict V) :
  NoDup (dict_keys d) -> In (k, v) d -> dict_get k d = Some v.
Proof.
  induction d as [|[k' v'] d IH]; simpl; [tauto|].
  intros Hnd [H|H].
  - injection H as -> ->. now rewrite String.eqb_refl.
  - inversion Hnd as [|? ? Hk Hd]; subst.
    destruct (String.eqb_spec k k') as [->|Hne]; [|exact (IH Hd H)].
    exfalso. apply Hk. change k' with (fst (k', v)). now apply in_map.
Qed.

(** The files of the snapshot can be read when the walked files can. *)
Lemma readable_of_walk (E : env) :
  (forall we, In we (os_walk E) -> exists h, hash_file E (we_full we) = Ok h) ->
  readable E.
Proof.
  intros H rel mt Hin.
  apply dict_get_of_in in Hin; [|apply scan_directory_nodup].
  rewrite scan_directory_meta_of in Hin.
  destruct (scan_directory_fold (os_walk E) []) as (_ & _ & H3).
  destruct (H3 rel mt Hin) as [Hacc|(we & Hwe & _ & ->)]; [discriminate|].
  exact (H we Hwe).
Qed.

Lemma in_dict_mem {V : Type} (k : string) (v : V) (d : dict V) :
  In (k, v) d -> dict_mem k d = true.
Proof.
  intros H. apply dict_mem_In. unfold dict_keys.
  change k with (fst (k, v)). now apply in_map.
Qed.

(** The first loop on a baseline that holds every file of the snapshot. *)
Lemma new_file_loop_known (E : env) (au : bool) (m : dict json) (last : option string)
      (l : list (string * meta)) (st : state) :
  (forall it, In it l -> dict_mem (fst it) m = true) ->
  for_each l (new_file_step E au) (JObj m, last) st = (Ok (JObj m, last), st).
Proof.
  induction l as [|[rel mt] l IH]; intros H; [reflexivity|].
  cbn [for_each]. unfold bind at 1. unfold new_file_step at 1. run_step.
  cbn [py_contains].
  pose proof (H (rel, mt) (or_introl eq_refl)) as Hm. cbn [fst] in Hm. rewrite Hm.
  apply IH. intros it Hin. apply H. now right.
Qed.

(** The third loop on files whose digest is the one of the baseline. *)
Lemma modified_loop_verified (E : env) (cfg : option json) (au : bool) (m : dict json)
      (l : list (string * meta)) :
  (forall rel mt, In (rel, mt) l ->
     exists e h, dict_get rel m = Some (JObj e)
                 /\ dict_get "hash" e = Some (JStr h)
                 /\ hash_file E (m_path mt) = Ok h) ->
  forall (safe : nat) (st : state),
    for_each l (modified_step E cfg au)
      {| c_db := m; c_safe := safe; c_corrupted := 0; c_last := None |} st
    = (Ok {| c_db := m; c_safe := safe + List.length l; c_corrupted := 0; c_last := None |},
       {| s_db := s_db st;
          s_log := s_log st ++ map (fun it => verified_record (fst it)) l;
          s_mail := s_mail st |}).
Proof.
  induction l as [|[rel mt] l IH]; intros H safe st.
  - cbn [for_each map List.length]. rewrite Nat.add_0_r, List.app_nil_r. now destruct st.
  - destruct (H rel mt (or_introl eq_refl)) as (e & h & Hget & Hhash & Hdig).
    cbn [for_each]. unfold bind at 1. unfold modified_step at 1. cbn [c_db].
    rewrite Hget, Hdig. run_step. cbn [py_get]. rewrite Hhash. cbn [py_eq_str].
    rewrite String.eqb_refl.
    rewrite IH by (intros rel' mt' Hin; apply H; now right).
    cbn [s_db s_log s_mail map List.length fst]. unfold verified_record at 2.
    rewrite <- List.app_assoc. cbn [List.app].
    now replace (S safe + List.length l) with (safe + S (List.length l)) by lia.
Qed.

Lemma deleted_of_nil (E : env) (m : dict json) :
  (forall rel, dict_mem rel m = dict_mem rel (scan_directory E)) ->
  deleted_of m (scan_directory E) = [].
Proof.
  intros H. unfold deleted_of.
  assert (Hall : forall l, (forall k, In k l -> dict_mem k m = true) ->
                   filter (fun f => negb (dict_mem f (scan_directory E))) l = []).
  { induction l as [|k l IH]; intros Hl; cbn [filter]; [reflexivity|].
    rewrite <- H, (Hl k (or_introl eq_refl)). cbn [negb].
    apply IH. intros k' Hin. apply Hl. now right. }
  apply Hall. intros k Hin. now apply dict_mem_In.
Qed.

(** A cycle on a baseline that is up to date with a directory whose files
    can all be read verifies every file and reports nothing else. *)
Lemma perform_check_clean (E : env) (dirpath : string) (cfg : option json) (au : bool)
      (m : dict json) (st : state) :
  e_isdir E = true ->
  e_db_write E = None ->
  load_hash_db (s_db st) = Ok (JObj m) ->
  up_to_date E m ->
  readable E ->
  perform_check E dirpath cfg au st
  = (Ok (List.length (scan_directory E), 0, None),
     {| s_db := Text (json_dumps (JObj m));
        s_log := s_log st ++ map (fun it => verified_record (fst it)) (scan_directory E);
        s_mail := s_mail st |}).
Proof.
  intros Hdir Hw Hload [Hkeys Hhash] Hread.
  unfold perform_check. rewrite Hdir. cbn [negb].
  unfold bind at 1. rewrite Hload.
  unfold bind at 1. rewrite new_file_loop_known.
  2: { intros [rel mt] Hin. cbn [fst]. rewrite Hkeys. exact (in_dict_mem _ _ _ Hin). }
  unfold bind at 1. unfold lift. cbn [fst snd py_keys].
  rewrite (deleted_of_nil E m Hkeys). unfold bind at 1. cbn [for_each]. unfold ret at 1.
  cbn [fst snd]. unfold bind at 1.
  rewrite (modified_loop_verified E cfg au m).
  2: { intros rel mt Hin. destruct (Hread rel mt Hin) as (h & Hh).
       destruct (Hhash rel mt h Hin Hh) as (e & He & Hd). now exists e, h. }
  unfold bind, save_hash_db, ret. rewrite Hw. reflexivity.
Qed.


(** ** Removing a key *)

Lemma dict_keys_pop {V : Type} (k f : string) (d : dict V) :
  In k (dict_keys (dict_pop f d)) -> In k (dict_keys d).
Proof.
  induction d as [|[k' v'] d IH]; simpl; [auto|].
  destruct (String.eqb f k'); simpl.
  - intros H. now right.
  - intros [H|H]; [now left | right; exact (IH H)].
Qed.

Lemma dict_mem_pop {V : Type} (k f : string) (d : dict V) :
  dict_mem k (dict_pop f d) = true -> dict_mem k d = true.
Proof. rewrite !dict_mem_In. apply dict_keys_pop. Qed.

Lemma dict_pop_nodup {V : Type} (f : string) (d : dict V) :
  NoDup (dict_keys d) -> NoDup (dict_keys (dict_pop f d)).
Proof.
  induction d as [|[k' v'] d IH]; simpl; [auto|].
  intros H. inversion H as [|? ? Hk Hd]; subst.
  destruct (String.eqb f k'); simpl; [exact Hd|].
  constructor; [|exact (IH Hd)]. intros Hin. apply Hk. exact (dict_keys_pop _ _ _ Hin).
Qed.

Lemma dict_mem_pop_same {V : Type} (f : string) (d : dict V) :
  NoDup (dict_keys d) -> dict_mem f (dict_pop f d) = false.
Proof.
  intros Hnd. apply dict_mem_false.
  induction d as [|[k' v'] d IH]; simpl; [auto|].
  simpl in Hnd. inversion Hnd as [|? ? Hk Hd]; subst.
  destruct (String.eqb_spec f k') as [->|Hne]; [exact Hk|].
  simpl. intros [H|H]; [congruence | exact (IH Hd H)].
Qed.

Lemma dict_pop_Forall {V : Type} (P : string * V -> Prop) (f : string) (d : dict V) :
  Forall P d -> Forall P (dict_pop f d).
Proof.
  induction 1 as [|[k' v'] d Hx Hd IH]; cbn [dict_pop]; [constructor|].
  destruct (String.eqb f k'); [exact Hd | now constructor].
Qed.

Lemma dict_get_Forall {V : Type} (P : string * V -> Prop) (k : string) (v : V)
      (d : dict V) :
  Forall P d -> dict_get k d = Some v -> P (k, v).
Proof.
  induction 1 as [|[k' v'] d Hx Hd IH]; cbn [dict_get]; [discriminate|].
  destruct (String.eqb_spec k k') as [->|Hne]; [|exact IH].
  intros [= <-]. exact Hx.
Qed.

(** ** Well-formed baselines *)

Lemma wf_set (k : string) (v : json) (m : dict json) :
  wf (JObj m) -> wf v -> wf (JObj (dict_set k v m)).
Proof.
  intros Hm Hv. inversion Hm as [ | | | | | |? Hnd Hall]; subst. constructor.
  - now apply dict_set_nodup.
  - apply dict_set_Forall; [intros; exact Hv | exact Hall].
Qed.

Lemma wf_pop (f : string) (m : dict json) : wf (JObj m) -> wf (JObj (dict_pop f m)).
Proof.
  intros Hm. inversion Hm as [ | | | | | |? Hnd Hall]; subst. constructor.
  - now apply dict_pop_nodup.
  - now apply dict_pop_Forall.
Qed.

Lemma wf_get (k : string) (v : json) (m : dict json) :
  wf (JObj m) -> dict_get k m = Some v -> wf v.
Proof.
  intros Hm Hget. inversion Hm as [ | | | | | |? Hnd Hall]; subst.
  exact (dict_get_Forall (fun kv => wf (snd kv)) k v m Hall Hget).
Qed.

Lemma wf_entry_of (h : string) (mt : meta) : wf (entry_of h mt).
Proof.
  constructor.
  - repeat constructor; cbn; intuition discriminate.
  - repeat constructor.
Qed.

(** ** What [--auto-update] leaves in the baseline file *)

Lemma perform_check_heals (E : env) (dirpath : string) (cfg : option json) :
  hoare (fun _ => True) (perform_check E dirpath cfg true)
        (fun _ st' => exists m, s_db st' = Text (json_dumps (JObj m))
                                /\ wf (JObj m) /\ up_to_date E m)
        (fun _ => True).
Proof.
  pose proof (scan_directory_nodup E) as Hnd.
  apply hoare_perform_check
    with (I1 := fun _ l s _ =>
                  wf (fst s)
                  /\ forall m1, fst s = JObj m1 ->
                       forall it : string * meta, In it l -> dict_mem (fst it) m1 = true)
         (I2 := fun m' l s _ =>
                  wf (JObj (fst s))
                  /\ (forall it : string * meta,
                         In it (scan_directory E) -> dict_mem (fst it) (fst s) = true)
                  /\ (forall f, In f l -> dict_mem f (fst s) = false)
                  /\ (forall k, dict_mem k (fst s) = true -> dict_mem k m' = true))
         (I3 := fun _ l s _ =>
                  wf (JObj (c_db s))
                  /\ (forall k, dict_mem k (c_db s) = dict_mem k (scan_directory E))
                  /\ (forall rel mt h,
                         In (rel, mt) l -> hash_file E (m_path mt) = Ok h ->
                         exists e, dict_get rel (c_db s) = Some (JObj e)
                                   /\ dict_get "hash" e = Some (JStr h))).
  - intros; exact I.
  - intros _ st _. destruct (load_hash_db (s_db st)) eqn:Hload; [|exact I].
    split; [exact (load_hash_db_wf _ _ Hload)|]. intros m1 _ it [].
  - intros db0 l1 [rel mt] l2 [db last] _ st [Hwf Hs]. cbn [fst] in Hwf, Hs.
    unfold new_file_step. run_step.
    destruct db as [ | | | | | |m0]; cbn [py_contains py_setitem];
      break_goal; try exact I; cbn [fst];
      (split; [first [exact Hwf | apply wf_set; [exact Hwf | apply wf_entry_of]]|]);
      intros m1 Hm1; try discriminate Hm1.
    + injection Hm1 as <-. intros it Hin. apply in_app_or in Hin as [Hin|[<-|[]]].
      * now apply (Hs m0).
      * exact Heqb.
    + injection Hm1 as <-. intros it Hin. rewrite dict_mem_set.
      apply in_app_or in Hin as [Hin|[<-|[]]].
      * rewrite (Hs m0 eq_refl it Hin). apply orb_true_r.
      * cbn [fst]. now rewrite String.eqb_refl.
  - intros db0 s1 st [Hwf Hs]. destruct (fst s1) eqn:Hdb; cbn [py_keys]; try exact I.
    cbn [fst snd]. split; [exact Hwf|]. split; [exact (Hs _ eq_refl)|].
    split; [intros f [] | auto].
  - intros m' l1 f l2 [db last] Hl st (Hwf & Hcur & Hdel & Hsub). cbn [fst] in *.
    apply in_split_middle in Hl. unfold deleted_of in Hl.
    apply filter_In in Hl as [_ Hf]. apply negb_true_iff, dict_mem_false in Hf.
    unfold deleted_step. run_step. cbn [fst].
    split; [now apply wf_pop|]. split; [|split].
    + intros it Hin. unfold dict_mem. rewrite dict_get_pop_other; [exact (Hcur it Hin)|].
      intros Heq. apply Hf. rewrite <- Heq. unfold dict_keys. now apply in_map.
    + intros f' Hin. apply in_app_or in Hin as [Hin|[<-|[]]].
      * destruct (dict_mem f' (dict_pop f db)) eqn:Hm; [|reflexivity].
        apply dict_mem_pop in Hm. now rewrite (Hdel f' Hin) in Hm.
      * apply dict_mem_pop_same. now inversion Hwf.
    + intros k Hk. apply Hsub. exact (dict_mem_pop _ _ _ Hk).
  - intros m' s2 st (Hwf & Hcur & Hdel & Hsub). cbn [c_db].
    split; [exact Hwf|]. split; [|intros rel mt h []].
    intros k. destruct (dict_mem k (scan_directory E)) eqn:Hk.
    + apply dict_mem_In in Hk. unfold dict_keys in Hk.
      apply in_map_iff in Hk as (it & <- & Hin). exact (Hcur it Hin).
    + destruct (dict_mem k (fst s2)) eqn:Hk2; [|reflexivity].
      rewrite <- (Hdel k); [symmetry; exact Hk2|].
      unfold deleted_of. apply filter_In. split.
      * apply dict_mem_In. exact (Hsub k Hk2).
      * now rewrite Hk.
  - intros m' l1 [rel mt] l2 s Hl st (Hwf & Hkeys & Hdone).
    assert (Hfresh : forall mt', ~ In (rel, mt') l1).
    { intros mt' Hin. rewrite Hl in Hnd. unfold dict_keys in Hnd.
      rewrite map_app in Hnd. cbn [map fst] in Hnd.
      apply NoDup_remove_2 in Hnd. apply Hnd, in_or_app. left.
      change rel with (fst (rel, mt')). now apply in_map. }
    assert (Hdone' : forall entry rel' mt' h,
               In (rel', mt') l1 -> hash_file E (m_path mt') = Ok h ->
               exists e, dict_get rel' (dict_set rel entry (c_db s)) = Some (JObj e)
                         /\ dict_get "hash" e = Some (JStr h)).
    { intros entry rel' mt' h Hin Hh. rewrite dict_get_set_other; [now apply (Hdone rel' mt')|].
      intros ->. exact (Hfresh mt' Hin). }
    unfold modified_step. run_step.
    destruct (dict_get rel (c_db s)) as [entry|] eqn:Hget.
    2: { exfalso. apply in_split_middle in Hl. apply in_dict_mem in Hl.
         rewrite <- Hkeys in Hl. unfold dict_mem in Hl. now rewrite Hget in Hl. }
    destruct (hash_file E (m_path mt)) as [cur_h|ex] eqn:Hdig.
    + destruct entry as [ | | | | | |e0]; cbn [py_get]; try exact I.
      pose proof (wf_get _ _ _ Hwf Hget) as Hwe.
      destruct (py_eq_str _ cur_h) eqn:Heq.
      * cbn [c_db]. split; [exact Hwf|]. split; [exact Hkeys|].
        intros rel' mt' h Hin Hh. apply in_app_or in Hin as [Hin|[[= <- <-]|[]]].
        -- now apply (Hdone rel' mt').
        -- exists e0. split; [exact Hget|].
           destruct (dict_get "hash" e0) as [[ | | | |s0| | ]|]; try discriminate Heq.
           cbn [py_eq_str] in Heq. apply String.eqb_eq in Heq. congruence.
      * break_goal; try exact I; cbn [c_db].
        all: split;
          [apply wf_set; [exact Hwf|];
           repeat (apply wf_set; [|constructor]); exact Hwe|].
        all: split;
          [intros k; rewrite dict_mem_set, Hkeys;
           destruct (String.eqb_spec k rel) as [->|Hne]; [|reflexivity];
           cbn [orb]; symmetry; apply in_split_middle in Hl;
           exact (in_dict_mem _ _ _ Hl)|].
        all: intros rel' mt' h Hin Hh;
          apply in_app_or in Hin as [Hin|[[= <- <-]|[]]];
          [now apply (Hdone' _ rel' mt')|].
        all: eexists; split; [apply dict_get_set_same|].
        all: rewrite !dict_get_set_other by (intros Hk; discriminate Hk).
        all: rewrite dict_get_set_same; congruence.
    + cbn [c_db]. split; [exact Hwf|]. split; [exact Hkeys|].
      intros rel' mt' h Hin Hh. apply in_app_or in Hin as [Hin|[[= <- <-]|[]]].
      * now apply (Hdone rel' mt').
      * congruence.
  - intros m' s3 st (Hwf & Hkeys & Hdone). destruct (e_db_write E); [exact I|].
    exists (c_db s3). cbn [s_db]. split; [reflexivity|]. split; [exact Hwf|].
    split; [exact Hkeys | exact Hdone].
Qed.

Lemma perform_check_ok_env (E : env) (dirpath : string) (cfg : option json) (au : bool)
      (st st' : state) (r : nat * nat * option string) :
  perform_check E dirpath cfg au st = (Ok r, st') ->
  e_isdir E = true /\ e_db_write E = None.
Proof.
  intros Hrun.
  assert (H : hoare (fun _ => True) (perform_check E dirpath cfg au)
                (fun _ _ => e_isdir E = true /\ e_db_write E = None) (fun _ => True)).
  { apply hoare_perform_check
      with (I1 := fun _ _ _ _ => e_isdir E = true)
           (I2 := fun _ _ _ _ => e_isdir E = true)
           (I3 := fun _ _ _ _ => e_isdir E = true).
    - intros; exact I.
    - intros Hd st0 _. destruct (load_hash_db (s_db st0)); [exact Hd | exact I].
    - intros db0 l1 item l2 s _ st0 Hd.
      destruct (new_file_step E au item s st0) as [[s'|e] st2]; [exact Hd | exact I].
    - intros db0 s1 st0 Hd. destruct (py_keys (fst s1)); [exact Hd | exact I].
    - intros m l1 f l2 s _ st0 Hd.
      destruct (deleted_step E au f s st0) as [[s'|e] st2]; [exact Hd | exact I].
    - intros m s2 st0 Hd. exact Hd.
    - intros m l1 item l2 s _ st0 Hd.
      destruct (modified_step E cfg au item s st0) as [[s'|e] st2]; [exact Hd | exact I].
    - intros m s3 st0 Hd. destruct (e_db_write E); [exact I | auto]. }
  specialize (H st I). rewrite Hrun in H. exact H.
Qed.

Section Convergence.

Context {PFL : PyFloatLaws PF}.

(** X12. After a cycle with [--auto-update] that ran to its end, on a
    directory whose files can all be read, the baseline is up to date: a
    second cycle on the same directory verifies every file, reports no
    anomaly, sends no notification and writes the baseline file back as it
    was. *)
Theorem auto_update_converges
        (E : env) (dirpath dirpath' : string) (cfg cfg' : option json) (au' : bool)
        (st st1 : state) (r1 : nat * nat * option string) :
  readable E ->
  perform_check E dirpath cfg true st = (Ok r1, st1) ->
  perform_check E dirpath' cfg' au' st1
  = (Ok (List.length (scan_directory E), 0, None),
     {| s_db := s_db st1;
        s_log := s_log st1 ++ map (fun it => verified_record (fst it)) (scan_directory E);
        s_mail := s_mail st1 |}).
Proof.
  intros Hread Hrun.
  destruct (perform_check_ok_env _ _ _ _ _ _ _ Hrun) as [Hdir Hw].
  pose proof (perform_check_heals E dirpath cfg st I) as H.
  rewrite Hrun in H. destruct H as (m & Hdb & Hwf & Hup).
  rewrite Hdb.
  apply perform_check_clean; try assumption.
  rewrite Hdb. now apply load_dumped.
Qed.

(** X13. Without [--auto-update], two cycles in a row write the same text in
    the baseline file, whatever the directory holds at each: once the program
    has written the file, a cycle leaves it byte for byte as it was. *)
Theorem check_twice_same_file
        (E1 E2 : env) (dirpath1 dirpath2 : string) (cfg1 cfg2 : option json)
        (st st1 st2 : state) (r1 r2 : nat * nat * option string) :
  perform_check E1 dirpath1 cfg1 false st = (Ok r1, st1) ->
  perform_check E2 dirpath2 cfg2 false st1 = (Ok r2, st2) ->
  s_db st2 = s_db st1.
Proof.
  intros Hrun1 Hrun2.
  destruct (perform_check_ok_dict _ _ _ _ _ _ _ Hrun1) as (m & Hload).
  pose proof (perform_check_plain E1 dirpath1 cfg1 (s_db st) m Hload st eq_refl) as H1.
  rewrite Hrun1 in H1. destruct H1 as [Hdb1 _].
  assert (Hload1 : load_hash_db (s_db st1) = Ok (JObj m)).
  { rewrite Hdb1. apply load_dumped. exact (load_hash_db_wf _ _ Hload). }
  pose proof (perform_check_plain E2 dirpath2 cfg2 (s_db st1) m Hload1 st1 eq_refl) as H2.
  rewrite Hrun2 in H2. destruct H2 as [Hdb2 _]. congruence.
Qed.


(** X25. After a cycle with [--auto-update] that ran to its end, the baseline
    file holds a dict whose keys are exactly the files of the directory (the
    new ones added, the deleted ones removed), and the entry of every file
    that can be read is a dict whose hash is the current digest of the file. *)
Theorem auto_update_syncs_baseline
        (E : env) (dirpath : string) (cfg : option json) (st st' : state)
        (r : nat * nat * option string) :
  perform_check E dirpath cfg true st = (Ok r, st') ->
  exists m, load_hash_db (s_db st') = Ok (JObj m) /\ up_to_date E m.
Proof.
  intros Hrun.
  pose proof (perform_check_heals E dirpath cfg st I) as H.
  rewrite Hrun in H. destruct H as (m & Hdb & Hwf & Hup).
  exists m. split; [|exact Hup]. rewrite Hdb. now apply load_dumped.
Qed.

End Convergence.


(** ** The first baseline *)










Section FirstRun.

Context {PFL : PyFloatLaws PF}.


End FirstRun.


(** ** Notifications *)



(** ** Stopping the watcher *)








End Monitor.

(** * The dashboard: a shallow embedding of [app.py]

    The dashboard reads the file the logger of the monitor writes.  Its two
    helpers are functions of the log file; the routes hand their results to
    the templates and to [jsonify]. *)

Section Dashboard.

Context {PF : PyFloat}.

(** ** Reading a text file by lines *)

Definition carriage_return : ascii := "013"%char.

(** [open(path, "r")] reads with universal newlines: the two characters CR
    LF and a lone CR are read as a single LF. *)
Fixpoint translate_newlines (s : string) : string :=
  match s with
  | EmptyString => EmptyString
  | String c r =>
      if Ascii.eqb c carriage_return then
        match r with
        | String c' r' =>
            if Ascii.eqb c' newline then String newline (translate_newlines r')
            else String newline (translate_newlines r)
        | EmptyString => str1 newline
        end
      else String c (translate_newlines r)
  end.

(** The lines of a text that has been read, each with its end of line; the
    last one has none when the text does not end with one. *)
Fixpoint lines_of (s : string) : list string :=
  match s with
  | EmptyString => []
  | String c r =>
      if Ascii.eqb c newline then str1 newline :: lines_of r
      else match lines_of r with
           | [] => [str1 c]
           | l :: ls => String c l :: ls
           end
  end.

(** [for line in f] and [f.readlines()] *)
Definition readlines (s : string) : list string := lines_of (translate_newlines s).

(** ** [str.strip], [str.split] *)

(** The characters [str.strip()] removes: the code points for which
    [str.isspace] holds, here as their UTF-8 bytes. *)
Definition whitespace : list string :=
  map utf8_encode
      [9; 10; 11; 12; 13; 28; 29; 30; 31; 32; 133; 160; 5760;
       8192; 8193; 8194; 8195; 8196; 8197; 8198; 8199; 8200; 8201; 8202;
       8232; 8233; 8239; 8287; 12288]%N.

(** The number of bytes of the white space character [s] starts with, [0]
    when it starts with none. *)
Definition space_length (s : string) : nat :=
  match find (fun w => String.prefix w s) whitespace with
  | Some w => String.length w
  | None => 0
  end.

(** [s.lstrip()], with [skip] bytes of a white space character left to drop *)
Fixpoint lstrip_from (skip : nat) (s : string) : string :=
  match s with
  | EmptyString => EmptyString
  | String c r =>
      match skip with
      | S k => lstrip_from k r
      | O =>
          match space_length s with
          | O => s
          | S k => lstrip_from k r
          end
      end
  end.

Definition lstrip (s : string) : string := lstrip_from 0 s.

(** [s.rstrip()]: the text up to the point from which only white space
    follows *)
Fixpoint rstrip (s : string) : string :=
  match s with
  | EmptyString => EmptyString
  | String c r => if is_empty (lstrip s) then EmptyString else String c (rstrip r)
  end.

(** [s.strip()] *)
Definition py_strip (s : string) : string := rstrip (lstrip s).

(** [s.split(sep)[0]] for a separator of one character *)
Fixpoint before (sep : ascii) (s : string) : string :=
  match s with
  | EmptyString => EmptyString
  | String c r => if Ascii.eqb c sep then EmptyString else String c (before sep r)
  end.

Fixpoint lstrip_char (ch : ascii) (s : string) : string :=
  match s with
  | EmptyString => EmptyString
  | String c r => if Ascii.eqb c ch then lstrip_char ch r else s
  end.

Fixpoint rstrip_char (ch : ascii) (s : string) : string :=
  match s with
  | EmptyString => EmptyString
  | String c r =>
      match rstrip_char ch r with
      | EmptyString => if Ascii.eqb c ch then EmptyString else str1 c
      | r' => String c r'
      end
  end.

(** [s.strip(ch)] for a set of one character *)
Definition strip_char (ch : ascii) (s : string) : string :=
  rstrip_char ch (lstrip_char ch s).

(** ** [parse_log_for_stats] *)

(** [line.split(']')[0].strip('[')] *)
Definition timestamp_of (line : string) : string := strip_char "[" (before "]" line).

(** The body of the loop over the lines. *)
Definition parse_log_step (s : nat * nat * option string) (line : string)
  : nat * nat * option string :=
  let '(safe, corrupted, last_anom) := s in
  let line := py_strip line in
  if is_empty line then s
  else if str_contains "INFO:" line && str_contains "verified OK" line
       then (S safe, corrupted, last_anom)
  else if str_contains "WARNING:" line && str_contains "integrity failed" line
       then (safe, S corrupted, Some (timestamp_of line))
  else if str_contains "ALERT:" line
       then (safe, S corrupted, Some (timestamp_of line))
  else s.

Definition parse_log_for_stats (logfile : file) : res (nat * nat * option string) :=
  match logfile with
  | Absent => Ok (0, 0, None)
  | Denied e => Raise e
  | Text s => Ok (fold_left parse_log_step (readlines s) (0, 0, None))
  end.

(** ** [tail_file] *)

(** [l[start:]] *)
Definition slice_from {A : Type} (start : Z) (l : list A) : list A :=
  let len := Z.of_nat (List.length l) in
  let i := if (start <? 0)%Z then Z.max (len + start) 0 else Z.min start len in
  skipn (Z.to_nat i) l.

Definition tail_file (logfile : file) (n : Z) : res (list string) :=
  match logfile with
  | Absent => Ok ["(log file not found)"]
  | Denied e => Raise e
  | Text s => Ok (slice_from (- n) (readlines s))
  end.

(** ** The route [/status] *)

(** The dict handed to [jsonify]. *)
Definition status_route (logfile : file) : res json :=
  match parse_log_for_stats logfile with
  | Raise e => Raise e
  | Ok (safe, corrupted, last) =>
      Ok (JObj [("safe", JInt (Z.of_nat safe));
                ("corrupted", JInt (Z.of_nat corrupted));
                ("last_anomaly", match last with
                                 | Some ts => JStr ts
                                 | None => JNull
                                 end)])
  end.

(** ** The counts of the dashboard *)

(** [last_anom] is set exactly when [corrupted] is not zero. *)
Lemma parse_log_step_anomaly (s : nat * nat * option string) (line : string) :
  (snd s = None <-> snd (fst s) = 0) ->
  snd (parse_log_step s line) = None <-> snd (fst (parse_log_step s line)) = 0.
Proof.
  destruct s as [[safe corrupted] last]. unfold parse_log_step. cbn [fst snd].
  intros H.
  repeat match goal with
         | |- context [if ?b then _ else _] => destruct b
         end; cbn [fst snd]; try exact H; split; discriminate.
Qed.

Lemma parse_log_fold_anomaly (lines : list string) (s : nat * nat * option string) :
  (snd s = None <-> snd (fst s) = 0) ->
  snd (fold_left parse_log_step lines s) = None
  <-> snd (fst (fold_left parse_log_step lines s)) = 0.
Proof.
  revert s. induction lines as [|line lines IH]; intros s H; cbn [fold_left]; [exact H|].
  apply IH, parse_log_step_anomaly, H.
Qed.

(** X19. The JSON the route [/status] serves has a null [last_anomaly] exactly
    when its [corrupted] count is zero: the dashboard shows a time of last
    anomaly if and only if it counts an anomaly. *)
Theorem status_last_anomaly (logfile : file) (safe corrupted last : json) :
  status_route logfile
  = Ok (JObj [("safe", safe); ("corrupted", corrupted); ("last_anomaly", last)]) ->
  last = JNull <-> corrupted = JInt 0.
Proof.
  unfold status_route.
  destruct (parse_log_for_stats logfile) as [[[s c] l]|e] eqn:Hp; [|discriminate].
  intros [= <- <- <-].
  assert (H : l = None <-> c = 0).
  { destruct logfile as [|t|e]; cbn [parse_log_for_stats] in Hp.
    - injection Hp as <- <- <-. split; reflexivity.
    - injection Hp as Hp.
      pose proof (parse_log_fold_anomaly (readlines t) (0, 0, None)) as H.
      rewrite Hp in H. cbn [fst snd] in H. apply H. split; reflexivity.
    - discriminate. }
  split.
  - intros Hl. destruct l; [discriminate|]. now rewrite (proj1 H eq_refl).
  - intros [= Hc]. assert (c = 0) by lia. now rewrite (proj2 H).
Qed.

Lemma parse_log_step_bound (s : nat * nat * option string) (line : string) :
  fst (fst (parse_log_step s line)) + snd (fst (parse_log_step s line))
  <= S (fst (fst s) + snd (fst s)).
Proof.
  destruct s as [[safe corrupted] last]. unfold parse_log_step. cbn [fst snd].
  repeat match goal with
         | |- context [if ?b then _ else _] => destruct b
         end; cbn [fst snd]; lia.
Qed.

Lemma parse_log_fold_bound (lines : list string) (s : nat * nat * option string) :
  fst (fst (fold_left parse_log_step lines s))
  + snd (fst (fold_left parse_log_step lines s))
  <= fst (fst s) + snd (fst s) + List.length lines.
Proof.
  revert s. induction lines as [|line lines IH]; intros s; cbn [fold_left List.length];
    [lia|].
  pose proof (IH (parse_log_step s line)). pose proof (parse_log_step_bound s line). lia.
Qed.

(** X20. A line of the log counts at most once: the two counts of the
    dashboard add up to no more than the number of lines of the file. *)
Theorem parse_log_counts_bounded (text : string) (safe corrupted : nat)
        (last : option string) :
  parse_log_for_stats (Text text) = Ok (safe, corrupted, last) ->
  safe + corrupted <= List.length (readlines text).
Proof.
  cbn [parse_log_for_stats]. intros [= H].
  pose proof (parse_log_fold_bound (readlines text) (0, 0, None)) as Hb.
  rewrite H in Hb. exact Hb.
Qed.

(** ** Reading a log that has grown *)

Fixpoint last_char (s : string) : option ascii :=
  match s with
  | EmptyString => None
  | String c r =>
      match last_char r with
      | None => Some c
      | last => last
      end
  end.

(** The text is made of whole lines: it is empty or ends with LF. *)
Definition complete_lines (s : string) : bool :=
  match last_char s with
  | None => true
  | Some c => Ascii.eqb c newline
  end.

Lemma last_char_none (s : string) : last_char s = None -> s = EmptyString.
Proof.
  destruct s as [|c r]; [reflexivity|]. cbn [last_char].
  destruct (last_char r); discriminate.
Qed.

Lemma complete_lines_tail (c : ascii) (r : string) :
  complete_lines (String c r) = true ->
  (r = EmptyString /\ c = newline) \/ (r <> EmptyString /\ complete_lines r = true).
Proof.
  unfold complete_lines. cbn [last_char].
  destruct (last_char r) eqn:Hl.
  - intros H. right. split; [intros ->; discriminate | exact H].
  - intros H. left. split; [now apply last_char_none | now apply Ascii.eqb_eq].
Qed.

Lemma translate_newlines_app (n : nat) :
  forall a b : string,
    String.length a <= n ->
    complete_lines a = true ->
    translate_newlines (a ++ b) = translate_newlines a ++ translate_newlines b
    /\ complete_lines (translate_newlines a) = true.
Proof.
  induction n as [|n IH]; intros a b Hn Ha.
  - destruct a; [split; reflexivity | cbn [String.length] in Hn; lia].
  - destruct a as [|c r]; [split; reflexivity|].
    cbn [String.length] in Hn.
    apply complete_lines_tail in Ha as [[-> ->]|[Hr Ha]].
    { split; reflexivity. }
    cbn [append translate_newlines].
    destruct (Ascii.eqb c carriage_return) eqn:Hc.
    + destruct r as [|c' r']; [contradiction|]. cbn [append].
      destruct (Ascii.eqb c' newline) eqn:Hc'.
      * destruct r' as [|c2 r2].
        { split; reflexivity. }
        apply complete_lines_tail in Ha as [[H _]|[_ Ha]]; [discriminate|].
        cbn [String.length] in Hn.
        destruct (IH (String c2 r2) b) as [H1 H2];
          [cbn [String.length]; lia | exact Ha|].
        rewrite H1. split; [reflexivity|].
        revert H2. unfold complete_lines.
        change (last_char (String newline (translate_newlines (String c2 r2))))
          with (match last_char (translate_newlines (String c2 r2)) with
                | None => Some newline
                | last => last
                end).
        destruct (last_char (translate_newlines (String c2 r2))); auto.
      * destruct (IH (String c' r') b) as [H1 H2]; [lia | exact Ha|].
        change (String c' (r' ++ b)) with (String c' r' ++ b). rewrite H1.
        split; [reflexivity|].
        revert H2. unfold complete_lines.
        change (last_char (String newline (translate_newlines (String c' r'))))
          with (match last_char (translate_newlines (String c' r')) with
                | None => Some newline
                | last => last
                end).
        destruct (last_char (translate_newlines (String c' r'))); auto.
    + destruct (IH r b) as [H1 H2]; [lia | exact Ha|].
      rewrite H1. split; [reflexivity|].
      revert H2. unfold complete_lines. cbn [last_char].
      destruct (last_char (translate_newlines r)) eqn:Hl; [auto|].
      apply last_char_none in Hl. destruct r as [|c' r']; [contradiction|].
      cbn [translate_newlines] in Hl.
      destruct (Ascii.eqb c' carriage_return); [|discriminate].
      destruct r' as [|c2 r2]; [discriminate|].
      destruct (Ascii.eqb c2 newline); discriminate.
Qed.

Lemma lines_of_nonempty (c : ascii) (r : string) : lines_of (String c r) <> [].
Proof.
  cbn [lines_of]. destruct (Ascii.eqb c newline); [discriminate|].
  destruct (lines_of r); discriminate.
Qed.

Lemma lines_of_app (a b : string) :
  complete_lines a = true -> lines_of (a ++ b) = (lines_of a ++ lines_of b)%list.
Proof.
  induction a as [|c r IH]; intros Ha; [reflexivity|].
  cbn [append lines_of].
  apply complete_lines_tail in Ha as [[-> ->]|[Hr Ha]].
  { reflexivity. }
  rewrite (IH Ha).
  destruct (Ascii.eqb c newline); [reflexivity|].
  destruct r as [|c' r']; [contradiction|].
  pose proof (lines_of_nonempty c' r') as Hne.
  destruct (lines_of (String c' r')); [contradiction | reflexivity].
Qed.

(** The lines of a log that has grown by whole lines are the lines it had,
    followed by the new ones. *)
Lemma readlines_app (a b : string) :
  complete_lines a = true -> readlines (a ++ b) = (readlines a ++ readlines b)%list.
Proof.
  intros Ha. unfold readlines.
  destruct (translate_newlines_app (String.length a) a b (le_n _) Ha) as [H1 H2].
  rewrite H1. now apply lines_of_app.
Qed.

(** What the lines add to the counts and to the time of the last anomaly. *)
Definition combine_stats (s1 s2 : nat * nat * option string) : nat * nat * option string :=
  let '(safe1, corrupted1, last1) := s1 in
  let '(safe2, corrupted2, last2) := s2 in
  (safe1 + safe2, corrupted1 + corrupted2,
   match last2 with
   | Some ts => Some ts
   | None => last1
   end).

Lemma parse_log_step_combine (s : nat * nat * option string) (line : string) :
  parse_log_step s line = combine_stats s (parse_log_step (0, 0, None) line).
Proof.
  destruct s as [[safe corrupted] last]. unfold parse_log_step, combine_stats.
  repeat match goal with
         | |- context [if ?b then _ else _] => destruct b
         end; f_equal; try f_equal; lia.
Qed.

Lemma combine_stats_assoc (s1 s2 s3 : nat * nat * option string) :
  combine_stats (combine_stats s1 s2) s3 = combine_stats s1 (combine_stats s2 s3).
Proof.
  destruct s1 as [[a1 b1] l1], s2 as [[a2 b2] l2], s3 as [[a3 b3] l3].
  unfold combine_stats. destruct l3; f_equal; try f_equal; lia.
Qed.

Lemma parse_log_fold_combine (lines : list string) (s : nat * nat * option string) :
  fold_left parse_log_step lines s
  = combine_stats s (fold_left parse_log_step lines (0, 0, None)).
Proof.
  revert s. induction lines as [|line lines IH]; intros s; cbn [fold_left].
  - destruct s as [[a b] l]. unfold combine_stats. now rewrite !Nat.add_0_r.
  - rewrite IH, (IH (parse_log_step (0, 0, None) line)), <- combine_stats_assoc.
    now rewrite <- parse_log_step_combine.
Qed.

(** X21. When the log grows by whole lines, the counts of the dashboard are
    the counts it had plus the counts of the new lines alone, and the time of
    the last anomaly is the one of the new lines when they hold an anomaly,
    the former one otherwise. *)
Theorem parse_log_append (old new : string) (s1 s2 : nat * nat * option string) :
  complete_lines old = true ->
  parse_log_for_stats (Text old) = Ok s1 ->
  parse_log_for_stats (Text new) = Ok s2 ->
  parse_log_for_stats (Text (old ++ new)) = Ok (combine_stats s1 s2).
Proof.
  cbn [parse_log_for_stats]. intros Hold [= H1] [= H2].
  rewrite (readlines_app old new Hold), fold_left_app, H1.
  now rewrite parse_log_fold_combine, H2.
Qed.

(** ** The last lines *)

(** X22. [tail_file] returns lines from the end of the file, in order: the
    last [n] of them when [n] is positive, or all of them when the file has
    fewer; all of them when [n] is zero, since [lines[-0:]] is the whole list;
    and the lines after the first [-n] when [n] is negative. *)
Theorem tail_file_lines (text : string) (n : Z) :
  exists before_lines lines,
    tail_file (Text text) n = Ok lines
    /\ readlines text = (before_lines ++ lines)%list
    /\ List.length lines
       = if (0 <? n)%Z then Nat.min (Z.to_nat n) (List.length (readlines text))
         else List.length (readlines text) - Z.to_nat (- n).
Proof.
  cbn [tail_file]. unfold slice_from.
  set (l := readlines text).
  set (i := Z.to_nat (if (- n <? 0)%Z then Z.max (Z.of_nat (List.length l) + - n) 0
                      else Z.min (- n) (Z.of_nat (List.length l)))).
  exists (firstn i l), (skipn i l). split; [reflexivity|].
  split; [now rewrite firstn_skipn|].
  rewrite length_skipn. subst i.
  destruct (Z.ltb_spec (- n) 0), (Z.ltb_spec 0 n); lia.
Qed.

(** ** What the dashboard reads in the lines of the monitor *)

(** *** Substrings *)

Lemma prefix_inv (n s : string) : String.prefix n s = true -> exists q, s = n ++ q.
Proof.
  revert s. induction n as [|c n IH]; intros s.
  - intros _. now exists s.
  - destruct s as [|c' s]; cbn [String.prefix]; [discriminate|].
    destruct (ascii_dec c c') as [<-|]; [|discriminate].
    intros H. destruct (IH s H) as (q & ->). now exists q.
Qed.

Lemma str_contains_inv (n s : string) :
  str_contains n s = true -> exists p q, s = p ++ n ++ q.
Proof.
  induction s as [|c s IH]; cbn [str_contains]; intros H.
  - rewrite orb_false_r in H. apply prefix_inv in H as (q & Hq).
    exists EmptyString, q. exact Hq.
  - apply orb_true_iff in H as [H|H].
    + apply prefix_inv in H as (q & Hq). exists EmptyString, q. exact Hq.
    + destruct (IH H) as (p & q & ->). now exists (String c p), q.
Qed.

Lemma str_contains_inside (n p s q : string) :
  str_contains n s = true -> str_contains n (p ++ s ++ q) = true.
Proof.
  intros H. apply str_contains_inv in H as (p' & q' & ->).
  replace (p ++ (p' ++ n ++ q') ++ q) with ((p ++ p') ++ n ++ (q' ++ q))
    by now rewrite !append_assoc.
  apply str_contains_app.
Qed.

(** *** What [strip] keeps *)

(** [c] is a byte of no white space character. *)
Definition solid (c : ascii) : bool :=
  negb (existsb (fun w => str_contains (str1 c) w) whitespace).

Lemma existsb_false {A : Type} (f : A -> bool) (l : list A) (x : A) :
  existsb f l = false -> In x l -> f x = false.
Proof.
  intros H Hin. destruct (f x) eqn:Hf; [|reflexivity].
  rewrite <- H. symmetry. apply existsb_exists. now exists x.
Qed.

Lemma prefix_avoid (w a : string) (c : ascii) (r : string) :
  String.prefix w (a ++ String c r) = true ->
  str_contains (str1 c) w = false ->
  String.length w <= String.length a.
Proof.
  revert a. induction w as [|x w IH]; intros a; cbn [String.length]; [lia|].
  destruct a as [|y a]; cbn [append String.prefix String.length].
  - destruct (ascii_dec x c) as [->|]; [|discriminate].
    intros _ H. cbn [str_contains str1 String.prefix] in H.
    destruct (ascii_dec c c); [|contradiction].
    destruct w; discriminate.
  - destruct (ascii_dec x y) as [->|]; [|discriminate].
    intros Hp Hc. cbn [str_contains] in Hc. apply orb_false_iff in Hc as [_ Hc].
    specialize (IH a Hp Hc). lia.
Qed.

Lemma space_length_spec (s : string) (k : nat) :
  space_length s = S k ->
  exists w, In w whitespace /\ String.prefix w s = true /\ String.length w = S k.
Proof.
  unfold space_length. destruct (find _ whitespace) as [w|] eqn:Hf; [|discriminate].
  apply find_some in Hf as [Hin Hp]. intros H. now exists w.
Qed.

Lemma space_length_bound (a : string) (c : ascii) (r : string) (k : nat) :
  solid c = true ->
  space_length (a ++ String c r) = S k ->
  S k <= String.length a.
Proof.
  intros Hc Hs. apply space_length_spec in Hs as (w & Hin & Hp & <-).
  apply (prefix_avoid w a c r Hp).
  apply negb_true_iff in Hc. exact (existsb_false _ _ w Hc Hin).
Qed.

(** [lstrip] stops at the latest at a byte of no white space character. *)
Lemma lstrip_from_keeps (a : string) (c : ascii) (r : string) :
  solid c = true ->
  forall k, k <= String.length a ->
    exists a', lstrip_from k (a ++ String c r) = a' ++ String c r.
Proof.
  intros Hc. induction a as [|x a IH]; intros k Hk.
  - cbn [String.length] in Hk. assert (k = 0) by lia. subst k.
    cbn [append lstrip_from].
    destruct (space_length (String c r)) as [|k] eqn:Hs.
    + now exists EmptyString.
    + apply (space_length_bound EmptyString c r k Hc) in Hs.
      cbn [String.length] in Hs. lia.
  - cbn [append lstrip_from]. cbn [String.length] in Hk.
    destruct k as [|k]; [|apply IH; lia].
    change (String x (a ++ String c r)) with (String x a ++ String c r).
    destruct (space_length (String x a ++ String c r)) as [|k] eqn:Hs.
    + now exists (String x a).
    + apply (space_length_bound (String x a) c r k Hc) in Hs.
      cbn [String.length] in Hs. apply IH. lia.
Qed.

Lemma is_empty_app (a : string) (c : ascii) (r : string) :
  is_empty (a ++ String c r) = false.
Proof. destruct a; reflexivity. Qed.

(** [rstrip] removes nothing before a byte of no white space character. *)
Lemma rstrip_keeps (a : string) (c : ascii) (r : string) :
  solid c = true ->
  rstrip (a ++ String c r) = a ++ String c (rstrip r).
Proof.
  intros Hc. induction a as [|x a IH].
  - cbn [append rstrip].
    destruct (lstrip_from_keeps EmptyString c r Hc 0 (le_n _)) as (a' & Ha).
    cbn [append] in Ha. unfold lstrip. rewrite Ha, is_empty_app. reflexivity.
  - cbn [append rstrip]. rewrite IH.
    destruct (lstrip_from_keeps (String x a) c r Hc 0 (Nat.le_0_l _)) as (a' & Ha).
    cbn [append] in Ha. unfold lstrip. rewrite Ha, is_empty_app. reflexivity.
Qed.

Lemma lstrip_from_suffix (s : string) :
  forall k, exists p, s = p ++ lstrip_from k s.
Proof.
  induction s as [|c s IH]; intros k; [now exists EmptyString|].
  cbn [lstrip_from].
  destruct k as [|k].
  - destruct (space_length (String c s)) as [|k].
    + now exists EmptyString.
    + destruct (IH k) as (p & Hp). exists (String c p). cbn [append]. now rewrite <- Hp.
  - destruct (IH k) as (p & Hp). exists (String c p). cbn [append]. now rewrite <- Hp.
Qed.

Lemma rstrip_prefix (s : string) : exists q, s = rstrip s ++ q.
Proof.
  induction s as [|c s IH]; [now exists EmptyString|].
  cbn [rstrip]. destruct (is_empty (lstrip (String c s))).
  - now exists (String c s).
  - destruct IH as (q & Hq). exists q. cbn [append]. now rewrite <- Hq.
Qed.

(** What [strip] leaves is a part of the line. *)
Lemma py_strip_inside (s : string) : exists p q, s = p ++ py_strip s ++ q.
Proof.
  unfold py_strip, lstrip.
  destruct (lstrip_from_suffix s 0) as (p & Hp).
  destruct (rstrip_prefix (lstrip_from 0 s)) as (q & Hq).
  exists p, q. now rewrite <- Hq.
Qed.

Lemma py_strip_contains_inv (n s : string) :
  str_contains n (py_strip s) = true -> str_contains n s = true.
Proof.
  intros H. destruct (py_strip_inside s) as (p & q & Hs).
  rewrite Hs. now apply str_contains_inside.
Qed.

(** A word that starts and ends with bytes of no white space character. *)
Definition solid_ends (n : string) : bool :=
  match n, last_char n with
  | String c _, Some c' => solid c && solid c'
  | _, _ => false
  end.

Lemma last_char_split (n : string) (c : ascii) :
  last_char n = Some c -> exists i, n = i ++ str1 c.
Proof.
  induction n as [|x n IH]; cbn [last_char]; [discriminate|].
  destruct (last_char n) as [c'|] eqn:Hl.
  - intros [= ->]. destruct (IH eq_refl) as (i & ->). now exists (String x i).
  - intros [= ->]. apply last_char_none in Hl. subst n. now exists EmptyString.
Qed.

(** [strip] keeps such a word where the line has it. *)
Lemma py_strip_keeps (n a b : string) :
  solid_ends n = true ->
  exists a' b', py_strip (a ++ n ++ b) = a' ++ n ++ b'.
Proof.
  unfold solid_ends. destruct n as [|c n]; [discriminate|].
  destruct (last_char (String c n)) as [c'|] eqn:Hl; [|discriminate].
  intros H. apply andb_true_iff in H as [Hc Hc'].
  unfold py_strip, lstrip.
  destruct (lstrip_from_keeps a c (n ++ b) Hc 0 (Nat.le_0_l _)) as (a' & Ha).
  cbn [append]. rewrite Ha.
  destruct (last_char_split _ _ Hl) as (i & Hi).
  change (String c (n ++ b)) with (String c n ++ b). rewrite Hi.
  replace (a' ++ (i ++ str1 c') ++ b) with ((a' ++ i) ++ String c' b)
    by (rewrite !append_assoc; reflexivity).
  rewrite (rstrip_keeps _ _ _ Hc').
  exists a', (rstrip b). rewrite append_assoc. f_equal.
  change (String c n ++ rstrip b) with (String c (n ++ rstrip b)).
  change (String c (n ++ rstrip b)) with (String c n ++ rstrip b).
  rewrite Hi, append_assoc. reflexivity.
Qed.

Lemma py_strip_contains (n a b : string) :
  solid_ends n = true -> str_contains n (py_strip (a ++ n ++ b)) = true.
Proof.
  intros H. destruct (py_strip_keeps n a b H) as (a' & b' & ->).
  apply str_contains_app.
Qed.

Lemma py_strip_contains_eq (n s : string) :
  solid_ends n = true -> str_contains n (py_strip s) = str_contains n s.
Proof.
  intros H. destruct (str_contains n s) eqn:Hs.
  - apply str_contains_inv in Hs as (p & q & ->). now apply py_strip_contains.
  - destruct (str_contains n (py_strip s)) eqn:Hp; [|reflexivity].
    apply py_strip_contains_inv in Hp. congruence.
Qed.

Lemma str_contains_nonempty (n s : string) :
  str_contains n s = true -> n <> EmptyString -> is_empty s = false.
Proof.
  destruct s; [|reflexivity]. destruct n; [contradiction | discriminate].
Qed.

(** *** One line for one record *)

(** The text holds no end of line. *)
Fixpoint one_line (s : string) : bool :=
  match s with
  | EmptyString => true
  | String c r =>
      negb (Ascii.eqb c newline) && negb (Ascii.eqb c carriage_return) && one_line r
  end.

Lemma one_line_read (s : string) :
  one_line s = true ->
  translate_newlines (s ++ str1 newline) = s ++ str1 newline
  /\ lines_of (s ++ str1 newline) = [s ++ str1 newline].
Proof.
  induction s as [|c s IH]; cbn [one_line]; [split; reflexivity|].
  intros H. apply andb_true_iff in H as [H Hs]. apply andb_true_iff in H as [Hn Hc].
  apply negb_true_iff in Hn, Hc. destruct (IH Hs) as [H1 H2].
  cbn [append translate_newlines lines_of]. rewrite Hc, Hn, H1, H2. split; reflexivity.
Qed.

(** The line of the log file for a record: the handler of the logger writes
    the text of the record and an end of line. *)
Definition log_line (ts : string) (r : log_record) : string :=
  format_record ts r ++ str1 newline.

Lemma readlines_log_line (old : string) (ts : string) (r : log_record) :
  complete_lines old = true ->
  one_line (format_record ts r) = true ->
  readlines (old ++ log_line ts r) = (readlines old ++ [log_line ts r])%list.
Proof.
  intros Hold Hone. rewrite (readlines_app _ _ Hold). f_equal.
  unfold readlines, log_line. destruct (one_line_read _ Hone) as [H1 H2].
  now rewrite H1, H2.
Qed.

Lemma parse_log_grown (old : string) (ts : string) (r : log_record)
      (s : nat * nat * option string) :
  complete_lines old = true ->
  one_line (format_record ts r) = true ->
  parse_log_for_stats (Text old) = Ok s ->
  parse_log_for_stats (Text (old ++ log_line ts r))
  = Ok (parse_log_step s (log_line ts r)).
Proof.
  cbn [parse_log_for_stats]. intros Hold Hone [= Hs].
  rewrite (readlines_log_line old ts r Hold Hone), fold_left_app, Hs. reflexivity.
Qed.

(** *** A verified file *)

Lemma format_record_level (ts : string) (r : log_record) :
  exists rest,
    format_record ts r = ("[" ++ ts) ++ "] " ++ level_name (lg_level r) ++ ":" ++ rest.
Proof.
  unfold format_record.
  destruct (lg_file r) as [[|c f]|]; eexists; rewrite !append_assoc; cbn [append];
    reflexivity.
Qed.

Lemma format_record_message (ts : string) (r : log_record) :
  exists start, format_record ts r = start ++ lg_msg r.
Proof.
  unfold format_record.
  destruct (lg_file r) as [[|c f]|]; eexists; rewrite <- !append_assoc; reflexivity.
Qed.

(** X23. A line that the monitor writes for a verified file adds one to the
    [safe] count of the dashboard and changes nothing else, whatever the name
    of the file, as long as the record is written on one line. *)
Theorem verified_line_counts_safe (old ts rel : string) (safe corrupted : nat)
        (last : option string) :
  complete_lines old = true ->
  one_line (format_record ts (verified_record rel)) = true ->
  parse_log_for_stats (Text old) = Ok (safe, corrupted, last) ->
  parse_log_for_stats (Text (old ++ log_line ts (verified_record rel)))
  = Ok (S safe, corrupted, last).
Proof.
  intros Hold Hone Hs. rewrite (parse_log_grown old ts _ _ Hold Hone Hs). f_equal.
  unfold parse_log_step, log_line.
  destruct (format_record_level ts (verified_record rel)) as (rest & Hl).
  destruct (format_record_message ts (verified_record rel)) as (start & Hm).
  assert (H1 : str_contains "INFO:"
                 (py_strip (format_record ts (verified_record rel) ++ str1 newline)) = true).
  { rewrite Hl. cbn [verified_record lg_level level_name].
    replace ((("[" ++ ts) ++ "] " ++ "INFO" ++ ":" ++ rest) ++ str1 newline)
      with ((("[" ++ ts) ++ "] ") ++ "INFO:" ++ (rest ++ str1 newline))
      by (rewrite !append_assoc; reflexivity).
    now apply py_strip_contains. }
  assert (H2 : str_contains "verified OK"
                 (py_strip (format_record ts (verified_record rel) ++ str1 newline)) = true).
  { rewrite Hm. cbn [verified_record lg_msg].
    replace ((start ++ "verified OK.") ++ str1 newline)
      with (start ++ "verified OK" ++ ("." ++ str1 newline))
      by (rewrite !append_assoc; reflexivity).
    now apply py_strip_contains. }
  rewrite H1, H2, (str_contains_nonempty _ _ H1) by discriminate. reflexivity.
Qed.

(** *** An alert *)

Lemma before_app (sep : ascii) (a r : string) :
  str_contains (str1 sep) a = false -> before sep (a ++ String sep r) = a.
Proof.
  induction a as [|c a IH]; cbn [append before].
  - intros _. now rewrite Ascii.eqb_refl.
  - cbn [str_contains str1 String.prefix]. intros H.
    apply orb_false_iff in H as [H1 H2].
    destruct (Ascii.eqb_spec c sep) as [->|Hne].
    + destruct (ascii_dec sep sep); [|contradiction]. destruct a; discriminate.
    + now rewrite IH.
Qed.

Lemma str_contains_char_cons (ch c : ascii) (s : string) :
  str_contains (str1 ch) (String c s) = Ascii.eqb c ch || str_contains (str1 ch) s.
Proof.
  cbn [str_contains str1 String.prefix].
  destruct (ascii_dec ch c) as [->|Hne].
  - rewrite Ascii.eqb_refl. now destruct s.
  - destruct (Ascii.eqb_spec c ch) as [->|_]; [contradiction | reflexivity].
Qed.

Lemma lstrip_char_id (ch : ascii) (s : string) :
  str_contains (str1 ch) s = false -> lstrip_char ch s = s.
Proof.
  destruct s as [|c s]; [reflexivity|]. rewrite str_contains_char_cons.
  intros H. apply orb_false_iff in H as [H _]. cbn [lstrip_char]. now rewrite H.
Qed.

Lemma rstrip_char_id (ch : ascii) (s : string) :
  str_contains (str1 ch) s = false -> rstrip_char ch s = s.
Proof.
  induction s as [|c s IH]; [reflexivity|]. rewrite str_contains_char_cons.
  intros H. apply orb_false_iff in H as [Hc Hs]. cbn [rstrip_char].
  rewrite (IH Hs), Hc. now destruct s.
Qed.

(** The time the dashboard reads in a line of the logger. *)
Lemma timestamp_of_line (ts rest : string) :
  str_contains "[" ts = false ->
  str_contains "]" ts = false ->
  timestamp_of (py_strip ((("[" ++ ts) ++ String "]" rest))) = ts.
Proof.
  intros Ho Hc. unfold timestamp_of, py_strip, lstrip.
  assert (Hl : lstrip_from 0 (("[" ++ ts) ++ String "]" rest)
               = ("[" ++ ts) ++ String "]" rest).
  { cbn [append lstrip_from].
    destruct (space_length (String "[" (ts ++ String "]" rest))) as [|k] eqn:Hs;
      [reflexivity|].
    apply (space_length_bound EmptyString "[" (ts ++ String "]" rest) k eq_refl) in Hs.
    cbn [String.length] in Hs. lia. }
  rewrite Hl, (rstrip_keeps _ "]" rest eq_refl).
  rewrite before_app.
  - unfold strip_char. cbn [append lstrip_char].
    change (Ascii.eqb "[" "[") with true. cbv iota.
    now rewrite (lstrip_char_id _ _ Ho), (rstrip_char_id _ _ Ho).
  - change ("[" ++ ts) with (String "[" ts). rewrite str_contains_char_cons.
    change (Ascii.eqb "[" "]") with false. exact Hc.
Qed.

(** The records the monitor writes for an anomaly: those of level ALERT (an
    unknown file, a deleted file, a file that cannot be read, an error of the
    watcher) and the warning of a failed integrity check. *)
Definition reports_anomaly (r : log_record) : bool :=
  match lg_level r with
  | ALERT => true
  | WARNING => String.eqb (lg_msg r) "integrity failed!"
  | INFO => false
  end.

(** X24. A line that the monitor writes for an anomaly adds one to the
    [corrupted] count of the dashboard and sets its time of last anomaly to
    the time of the line, unless the line also holds the words [INFO:] and
    [verified OK], in which case the dashboard counts it as safe. *)
Theorem anomaly_line_counts_corrupted (old ts : string) (r : log_record)
        (safe corrupted : nat) (last : option string) :
  complete_lines old = true ->
  one_line (format_record ts r) = true ->
  str_contains "[" ts = false ->
  str_contains "]" ts = false ->
  reports_anomaly r = true ->
  parse_log_for_stats (Text old) = Ok (safe, corrupted, last) ->
  parse_log_for_stats (Text (old ++ log_line ts r))
  = Ok (if str_contains "INFO:" (log_line ts r)
           && str_contains "verified OK" (log_line ts r)
        then (S safe, corrupted, last)
        else (safe, S corrupted, Some ts)).
Proof.
  intros Hold Hone Ho Hc Hr Hs. rewrite (parse_log_grown old ts _ _ Hold Hone Hs).
  f_equal. unfold parse_log_step.
  rewrite !py_strip_contains_eq by reflexivity.
  destruct (format_record_level ts r) as (rest & Hl).
  destruct (format_record_message ts r) as (start & Hm).
  assert (Ht : timestamp_of (py_strip (log_line ts r)) = ts).
  { unfold log_line. rewrite Hl.
    replace ((("[" ++ ts) ++ "] " ++ level_name (lg_level r) ++ ":" ++ rest) ++ str1 newline)
      with (("[" ++ ts)
            ++ String "]" (" " ++ level_name (lg_level r) ++ ":" ++ rest ++ str1 newline))
      by (rewrite !append_assoc; reflexivity).
    now apply timestamp_of_line. }
  assert (Ha : str_contains (level_name (lg_level r) ++ ":") (log_line ts r) = true).
  { unfold log_line. rewrite Hl.
    replace ((("[" ++ ts) ++ "] " ++ level_name (lg_level r) ++ ":" ++ rest) ++ str1 newline)
      with ((("[" ++ ts) ++ "] ") ++ (level_name (lg_level r) ++ ":")
            ++ (rest ++ str1 newline))
      by (rewrite !append_assoc; reflexivity).
    apply str_contains_app. }
  assert (He : is_empty (py_strip (log_line ts r)) = false).
  { apply (str_contains_nonempty (level_name (lg_level r) ++ ":")).
    - rewrite py_strip_contains_eq; [exact Ha | now destruct (lg_level r)].
    - destruct (lg_level r); discriminate. }
  rewrite He, Ht.
  destruct (str_contains "INFO:" (log_line ts r)
            && str_contains "verified OK" (log_line ts r)); [reflexivity|].
  unfold reports_anomaly in Hr. destruct (lg_level r); cbn [level_name append] in Ha.
  - discriminate.
  - apply String.eqb_eq in Hr.
    assert (Hf : str_contains "integrity failed" (log_line ts r) = true).
    { unfold log_line. rewrite Hm, Hr.
      replace ((start ++ "integrity failed!") ++ str1 newline)
        with (start ++ "integrity failed" ++ ("!" ++ str1 newline))
        by (rewrite !append_assoc; reflexivity).
      apply str_contains_app. }
    now rewrite Ha, Hf.
  - rewrite Ha.
    destruct (str_contains "WARNING:" (log_line ts r)
              && str_contains "integrity failed" (log_line ts r)); reflexivity.
Qed.

End Dashboard.

(** * Instances for the examples

    The examples run the program on small inputs.  They take the floats of
    integral value, written [z.0] (a literal of another form is read as its
    integer part, on which no example depends), a digest that writes each
    byte of the content as two hexadecimal digits, and the JSON text of a
    value for its [repr]. *)

Definition example_float_of_literal (s : string) : pyfloat Z :=
  match match_integer s with
  | Some (i, _) => FFinite (int_of_literal i)
  | None => FNaN
  end.

#[export] Instance example_float : PyFloat := {|
  float := Z;
  float_repr := fun z => intstr z ++ ".0";
  float_of_literal := example_float_of_literal
|}.

Lemma example_match_integer (z : Z) :
  match_integer (intstr z ++ ".0") = Some (intstr z, ".0").
Proof.
  exact (match_integer_app (intstr z) ".0" (intstr z) EmptyString eq_refl
           (match_integer_intstr z)).
Qed.

#[export] Instance example_float_laws : PyFloatLaws example_float.
Proof.
  constructor; intros z; cbn [float_repr float_of_literal example_float].
  - unfold float_literal. now rewrite example_match_integer.
  - unfold example_float_of_literal.
    now rewrite example_match_integer, int_of_literal_intstr.
Qed.

Definition hex_of_byte (b : Byte.byte) : string :=
  let n := Byte.to_N b in
  String (hex_digit (n / 16)) (String (hex_digit (n mod 16)) EmptyString).

#[export] Instance example_hashlib : Hashlib := {|
  hash_state := list Byte.byte;
  hash_new := [];
  hash_update := fun h chunk => (h ++ chunk)%list;
  hash_hexdigest := fun h => String.concat EmptyString (map hex_of_byte h)
|}.

#[export] Instance example_repr : PyRepr := {| py_repr := json_dumps |}.

Definition bytes_of (s : string) : list Byte.byte := list_byte_of_string s.

Definition empty_state (db : file) : state :=
  {| s_db := db; s_log := []; s_mail := [] |}.

(** * Examples

    The theorems above applied to concrete runs, and the runs on which the
    program departs from its specification. *)

Definition example_mtime : float := 1700000000%Z.

(** A monitored directory holding [report.csv], whose content has changed
    since the baseline was taken. *)
Definition example_env : env := {|
  e_isdir := true;
  e_walk := [ {| we_full := "./secure_files/report.csv"; we_rel := "report.csv";
                 we_mtime := example_mtime; we_size := 7 |} ];
  e_read := fun p =>
              if String.eqb p "./secure_files/report.csv" then Ok (bytes_of "changed")
              else Raise (mk_exn FileNotFoundError "No such file or directory");
  e_now := "2024-01-01 00:00:00";
  e_db_write := None;
  e_smtp_file := Absent;
  e_smtp_ok := true
|}.

Definition example_baseline : dict baseline_entry :=
  [("report.csv", {| be_hash := "6f726967"; be_mtime := example_mtime; be_size := 4 |})].

Definition example_state : state :=
  empty_state (Text (json_dumps (json_of_baseline example_baseline))).

Definition example_args : args := {|
  a_dir := "./secure_files";
  a_watch := false;
  a_interval := 5;
  a_auto_update := false;
  a_smtp_config := None
|}.

(** The monitored directory is missing. *)
Definition example_env_no_dir : env := {|
  e_isdir := false;
  e_walk := [];
  e_read := fun _ => Raise (mk_exn FileNotFoundError "No such file or directory");
  e_now := "2024-01-01 00:00:00";
  e_db_write := None;
  e_smtp_file := Absent;
  e_smtp_ok := true
|}.




Lemma hash_file_deterministic_witness :
  hash_file example_env "./secure_files/report.csv"
  = hash_file example_env "./secure_files/report.csv"
  /\ snd (lift (hash_file example_env "./secure_files/report.csv") example_state)
     = example_state.
Proof.
  apply (hash_file_deterministic example_env example_env
           "./secure_files/report.csv" example_state).
  reflexivity.
Defined.





(** ** A new file under [--auto-update] *)

(** A directory holding one file, [a.txt], that the baseline does not know. *)
Definition example_env_new : env := {|
  e_isdir := true;
  e_walk := [ {| we_full := "./secure_files/a.txt"; we_rel := "a.txt";
                 we_mtime := example_mtime; we_size := 5 |} ];
  e_read := fun p =>
              if String.eqb p "./secure_files/a.txt" then Ok (bytes_of "hello")
              else Raise (mk_exn FileNotFoundError "No such file or directory");
  e_now := "2024-01-01 00:00:00";
  e_db_write := None;
  e_smtp_file := Absent;
  e_smtp_ok := true
|}.

(** C1. With [--auto-update], a file that is new is classified twice in one
    cycle: the first loop logs [NewFile] and puts the path in the baseline,
    and the third loop, which tests [rel in db] on the baseline so changed,
    logs [Verified] for it and counts it as safe. *)
Lemma new_file_classified_twice :
  let run := perform_check example_env_new "./secure_files" None true
               (empty_state (Text (json_dumps (JObj [])))) in
  fst run = Ok (1, 0, Some "2024-01-01 00:00:00")
  /\ s_log (snd run)
     = [ {| lg_level := ALERT; lg_msg := "detected as unknown."; lg_file := Some "a.txt" |};
         {| lg_level := INFO; lg_msg := "added to baseline (auto-update).";
            lg_file := Some "a.txt" |};
         {| lg_level := INFO; lg_msg := "verified OK."; lg_file := Some "a.txt" |} ]
  /\ count (is_event "a.txt" NewFile) (s_log (snd run)) = 1
  /\ count (is_event "a.txt" Verified) (s_log (snd run)) = 1.
Proof. vm_compute. repeat split; reflexivity. Qed.

(** ** A new file that cannot be read *)

(** A directory holding [new.txt], unknown to the baseline and unreadable,
    and [report.csv], in the baseline and changed. *)
Definition example_env_unreadable : env := {|
  e_isdir := true;
  e_walk := [ {| we_full := "./secure_files/new.txt"; we_rel := "new.txt";
                 we_mtime := example_mtime; we_size := 3 |};
              {| we_full := "./secure_files/report.csv"; we_rel := "report.csv";
                 we_mtime := example_mtime; we_size := 7 |} ];
  e_read := fun p =>
              if String.eqb p "./secure_files/report.csv" then Ok (bytes_of "changed")
              else Raise (mk_exn PermissionError "Permission denied");
  e_now := "2024-01-01 00:00:00";
  e_db_write := None;
  e_smtp_file := Absent;
  e_smtp_ok := true
|}.

(** C5. A file that is new and cannot be read stops the cycle: [hash_file]
    is called without a guard in the first loop, its exception leaves
    [perform_check], the files that follow are not checked ([report.csv],
    changed, is not reported) and a run without [--watch] exits with
    code 1. *)
Lemma unreadable_new_file_aborts :
  perform_check example_env_unreadable "./secure_files" None false example_state
  = (Raise (mk_exn PermissionError "Permission denied"),
     {| s_db := s_db example_state;
        s_log := [ {| lg_level := ALERT; lg_msg := "detected as unknown.";
                      lg_file := Some "new.txt" |} ];
        s_mail := [] |})
  /\ fst (main example_args example_env_unreadable [] example_state) = Exited 1.
Proof. vm_compute. split; reflexivity. Qed.

(** ** More runs

    The theorems on the watcher, on [main], on the check cycle and on the
    dashboard, each applied to a concrete run. *)

(** The cycle on the directory whose [report.csv] has changed. *)
Definition example_run : res (nat * nat * option string) * state :=
  perform_check example_env "./secure_files" None false example_state.

Definition example_report_entry : dict json :=
  [("hash", JStr "6f726967"); ("mtime", JFloat (FFinite example_mtime)); ("size", JInt 4)].

Lemma example_state_loads :
  load_hash_db (s_db example_state) = Ok (JObj [("report.csv", JObj example_report_entry)]).
Proof.
  apply (load_dumped (json_of_baseline example_baseline)).
  apply json_of_baseline_wf. repeat constructor. intros [].
Qed.

Lemma example_run_ok :
  example_run = (Ok (0, 1, Some "2024-01-01 00:00:00"), snd example_run).
Proof.
  apply injective_projections; cbn [fst snd]; [vm_compute|]; reflexivity.
Qed.

(** The same cycle once more. *)
Definition example_run_again : res (nat * nat * option string) * state :=
  perform_check example_env "./secure_files" None false (snd example_run).

Lemma example_run_again_ok :
  example_run_again = (Ok (0, 1, Some "2024-01-01 00:00:00"), snd example_run_again).
Proof.
  apply injective_projections; cbn [fst snd]; [vm_compute|]; reflexivity.
Qed.

(** The cycle with [--auto-update] on the directory that holds a new file. *)
Definition example_run_new : res (nat * nat * option string) * state :=
  perform_check example_env_new "./secure_files" None true
    (empty_state (Text (json_dumps (JObj [])))).

Lemma example_run_new_ok :
  example_run_new = (Ok (1, 0, Some "2024-01-01 00:00:00"), snd example_run_new).
Proof.
  apply injective_projections; cbn [fst snd]; [vm_compute|]; reflexivity.
Qed.


Lemma example_env_new_readable : readable example_env_new.
Proof.
  apply readable_of_walk. intros we [<-|[]]. eexists. vm_compute. reflexivity.
Qed.


(** An SMTP configuration that is not JSON. *)
Definition example_env_bad_smtp : env := {|
  e_isdir := true;
  e_walk := [];
  e_read := fun _ => Raise (mk_exn FileNotFoundError "No such file or directory");
  e_now := "2024-01-01 00:00:00";
  e_db_write := None;
  e_smtp_file := Text "{";
  e_smtp_ok := true
|}.

Definition example_args_smtp : args := {|
  a_dir := "./secure_files";
  a_watch := false;
  a_interval := 5;
  a_auto_update := false;
  a_smtp_config := Some "smtp.json"
|}.

Lemma main_bad_smtp_config_witness :
  fst (main example_args_smtp example_env_bad_smtp [] example_state) = Exited 1
  /\ snd (main example_args_smtp example_env_bad_smtp [] example_state) = example_state.
Proof.
  destruct (main_bad_smtp_config example_args_smtp example_env_bad_smtp [] example_state
              "smtp.json" (mk_exn JSONDecodeError "Expecting value"))
    as [H1 H2]; try reflexivity.
  split; [exact H1 | exact (H2 eq_refl)].
Defined.

Lemma cycle_counts_events_witness :
  exists new_log,
    s_log (snd example_run) = (s_log example_state ++ new_log)%list
    /\ 0 = count (has_outcome Verified) new_log
    /\ 1 = count (has_outcome Corrupted) new_log + count (has_outcome Unreadable) new_log.
Proof.
  exact (cycle_counts_events example_env "./secure_files" None false example_state
           (snd example_run) 0 1 (Some "2024-01-01 00:00:00") example_run_ok).
Defined.

Lemma cycle_last_anomaly_witness :
  exists new_log,
    s_log (snd example_run) = (s_log example_state ++ new_log)%list
    /\ Some "2024-01-01 00:00:00"
       = if (count is_anomaly new_log =? 0)%nat then None else Some (e_now example_env).
Proof.
  exact (cycle_last_anomaly example_env "./secure_files" None false example_state
           (snd example_run) 0 1 (Some "2024-01-01 00:00:00") example_run_ok).
Defined.

Lemma cycle_counts_in_both_witness :
  0 + 1
  = List.length (in_both [("report.csv", JObj example_report_entry)]
                         (scan_directory example_env)).
Proof.
  exact (cycle_counts_in_both example_env "./secure_files" None example_state
           (snd example_run) [("report.csv", JObj example_report_entry)]
           0 1 (Some "2024-01-01 00:00:00") example_state_loads example_run_ok).
Defined.

Lemma cycle_counts_auto_update_witness :
  1 + 0 = List.length (scan_directory example_env_new).
Proof.
  exact (cycle_counts_auto_update example_env_new "./secure_files" None
           (empty_state (Text (json_dumps (JObj [])))) (snd example_run_new)
           1 0 (Some "2024-01-01 00:00:00") example_run_new_ok).
Defined.

Lemma non_dict_baseline_fails_witness :
  exists e st',
    perform_check example_env "./secure_files" None false (empty_state (Text "[]"))
    = (Raise e, st')
    /\ s_db st' = s_db (empty_state (Text "[]"))
    /\ s_mail st' = s_mail (empty_state (Text "[]")).
Proof.
  apply (non_dict_baseline_fails example_env "./secure_files" None false
           (empty_state (Text "[]")) (JArr [])).
  - reflexivity.
  - reflexivity.
Defined.

Lemma classified_once_without_auto_update_witness :
  exists new_log,
    s_log (snd example_run) = (s_log example_state ++ new_log)%list
    /\ forall rel,
         count (classified rel) new_log
         = if dict_mem rel (scan_directory example_env)
              || dict_mem rel [("report.csv", JObj example_report_entry)]
           then 1 else 0.
Proof.
  exact (classified_once_without_auto_update example_env "./secure_files" None
           example_state (snd example_run) [("report.csv", JObj example_report_entry)]
           (0, 1, Some "2024-01-01 00:00:00") example_state_loads example_run_ok).
Defined.

Lemma hash_file_whole_witness :
  hash_file example_env "./secure_files/report.csv"
  = Ok (hash_hexdigest (hash_update hash_new (bytes_of "changed"))).
Proof.
  apply (hash_file_whole example_env "./secure_files/report.csv" (bytes_of "changed")).
  - intros h a b. cbn [hash_update example_hashlib]. now rewrite List.app_assoc.
  - intros h. cbn [hash_update example_hashlib]. apply List.app_nil_r.
  - reflexivity.
Defined.

Lemma first_run_missing_directory_witness :
  main example_args example_env_no_dir [] (empty_state Absent)
  = (Exited 1,
     {| s_db := Text "{}";
        s_log := s_log (empty_state Absent) ++ [baseline_missing];
        s_mail := s_mail (empty_state Absent) |}).
Proof.
  apply (first_run_missing_directory example_args example_env_no_dir []
           (empty_state Absent)); reflexivity.
Defined.

Lemma auto_update_converges_witness :
  perform_check example_env_new "./secure_files" None true (snd example_run_new)
  = (Ok (List.length (scan_directory example_env_new), 0, None),
     {| s_db := s_db (snd example_run_new);
        s_log := s_log (snd example_run_new)
                 ++ map (fun it => verified_record (fst it)) (scan_directory example_env_new);
        s_mail := s_mail (snd example_run_new) |}).
Proof.
  exact (auto_update_converges example_env_new "./secure_files" "./secure_files"
           None None true (empty_state (Text (json_dumps (JObj [])))) (snd example_run_new)
           (1, 0, Some "2024-01-01 00:00:00") example_env_new_readable example_run_new_ok).
Defined.

Lemma auto_update_syncs_baseline_witness :
  exists m, load_hash_db (s_db (snd example_run_new)) = Ok (JObj m)
            /\ up_to_date example_env_new m.
Proof.
  exact (auto_update_syncs_baseline example_env_new "./secure_files" None
           (empty_state (Text (json_dumps (JObj [])))) (snd example_run_new)
           (1, 0, Some "2024-01-01 00:00:00") example_run_new_ok).
Defined.

Lemma check_twice_same_file_witness :
  s_db (snd example_run_again) = s_db (snd example_run).
Proof.
  exact (check_twice_same_file example_env example_env "./secure_files" "./secure_files"
           None None example_state (snd example_run) (snd example_run_again)
           (0, 1, Some "2024-01-01 00:00:00") (0, 1, Some "2024-01-01 00:00:00")
           example_run_ok example_run_again_ok).
Defined.







(** A log of two lines: a verified file, then an unknown file. *)
Definition example_unknown : log_record :=
  {| lg_level := ALERT; lg_msg := "detected as unknown."; lg_file := Some "b.txt" |}.

Definition example_line_1 : string :=
  log_line "2024-01-01 00:00:00" (verified_record "a.txt").

Definition example_line_2 : string := log_line "2024-01-01 00:00:05" example_unknown.

Definition example_log : string := example_line_1 ++ example_line_2.

Lemma example_line_1_stats : parse_log_for_stats (Text example_line_1) = Ok (1, 0, None).
Proof. vm_compute. reflexivity. Qed.

Lemma example_line_2_stats :
  parse_log_for_stats (Text example_line_2) = Ok (0, 1, Some "2024-01-01 00:00:05").
Proof. vm_compute. reflexivity. Qed.

Lemma example_log_stats :
  parse_log_for_stats (Text example_log) = Ok (1, 1, Some "2024-01-01 00:00:05").
Proof. vm_compute. reflexivity. Qed.

Lemma example_log_status :
  status_route (Text example_log)
  = Ok (JObj [("safe", JInt 1); ("corrupted", JInt 1);
              ("last_anomaly", JStr "2024-01-01 00:00:05")]).
Proof. unfold status_route. now rewrite example_log_stats. Qed.

Lemma status_last_anomaly_witness :
  JStr "2024-01-01 00:00:05" = JNull <-> JInt 1 = JInt 0.
Proof.
  exact (status_last_anomaly (Text example_log) (JInt 1) (JInt 1)
           (JStr "2024-01-01 00:00:05") example_log_status).
Defined.

Lemma parse_log_counts_bounded_witness :
  1 + 1 <= List.length (readlines example_log).
Proof.
  exact (parse_log_counts_bounded example_log 1 1 (Some "2024-01-01 00:00:05")
           example_log_stats).
Defined.

Lemma parse_log_append_witness :
  parse_log_for_stats (Text (example_line_1 ++ example_line_2))
  = Ok (combine_stats (1, 0, None) (0, 1, Some "2024-01-01 00:00:05")).
Proof.
  apply (parse_log_append example_line_1 example_line_2).
  - vm_compute. reflexivity.
  - exact example_line_1_stats.
  - exact example_line_2_stats.
Defined.

Lemma verified_line_counts_safe_witness :
  parse_log_for_stats
    (Text (example_line_2 ++ log_line "2024-01-01 00:00:10" (verified_record "a.txt")))
  = Ok (1, 1, Some "2024-01-01 00:00:05").
Proof.
  apply (verified_line_counts_safe example_line_2
           "2024-01-01 00:00:10" "a.txt" 0 1 (Some "2024-01-01 00:00:05")).
  - vm_compute. reflexivity.
  - vm_compute. reflexivity.
  - exact example_line_2_stats.
Defined.

Lemma anomaly_line_counts_corrupted_witness :
  parse_log_for_stats (Text (example_line_1 ++ log_line "2024-01-01 00:00:05" example_unknown))
  = Ok (if str_contains "INFO:" (log_line "2024-01-01 00:00:05" example_unknown)
           && str_contains "verified OK" (log_line "2024-01-01 00:00:05" example_unknown)
        then (1, 0, None)
        else (1, 1, Some "2024-01-01 00:00:05")).
Proof.
  apply (anomaly_line_counts_corrupted example_line_1
           "2024-01-01 00:00:05" example_unknown 1 0 None).
  - vm_compute. reflexivity.
  - vm_compute. reflexivity.
  - vm_compute. reflexivity.
  - vm_compute. reflexivity.
  - reflexivity.
  - exact example_line_1_stats.
Defined.
